(** * Kiwix JS: the settings store of [init.js] and the UI helpers of [uiUtil.js]

    A shallow embedding of the JavaScript of [www/js/init.js] and of
    [uiUtil.js], with the properties that its description states about them.

    Conventions of the embedding.
    - A JavaScript string is the [string] of the bytes of its UTF-8 encoding
      (the strings of the program are well-formed Unicode text).  Equality,
      concatenation, character classes over ASCII characters and the
      percent-encoding functions act on these bytes as the JavaScript
      operations act on the text.
    - A regular expression of the source is embedded as the function that
      computes its leftmost match, with the backtracking of the source's
      quantifiers written out.
    - The browser objects the code talks to ([document.cookie],
      [localStorage], the DOM elements it looks up) are fields of explicit
      state records, threaded through the functions in program order.  A
      function that may throw returns the state it reached and its
      completion.
    - The elements that the code uses without a test (the root, the footer,
      the article iframe, the modal and its buttons, the two alerts and their
      dismiss buttons) exist, as the page of the application declares them.
    - The object [params] is a finite map from the names of its own
      properties to their values; the script reads it at names that
      [Object.prototype] does not have.
    - getSetting builds a regular expression from the name of the setting;
      its embedding is that of a name without a character that is special
      in a regular expression, as the names that the script passes are.  *)

From Stdlib Require Import ZArith Bool List Ascii String Lia.
From Stdlib Require Import Numbers.DecimalString.
From stdpp Require Import gmap strings.

#[local] Arguments String.append !s1 s2 : simpl nomatch.
#[local] Arguments Ascii.eqb !a !b.


(** ** Characters and strings *)

Definition code (c : ascii) : N := N_of_ascii c.

Definition is_char (a c : ascii) : bool := Ascii.eqb a c.
#[local] Arguments is_char : simpl never.

Fixpoint string_forallb (p : ascii -> bool) (s : string) : bool :=
  match s with
  | EmptyString => true
  | String c r => p c && string_forallb p r
  end.

Fixpoint string_existsb (p : ascii -> bool) (s : string) : bool :=
  match s with
  | EmptyString => false
  | String c r => p c || string_existsb p r
  end.

(** [s.startsWith(p)], and the rest of [s] after the prefix [p]. *)
Fixpoint strip_prefix (p s : string) : option string :=
  match p with
  | EmptyString => Some s
  | String a p' =>
      match s with
      | String b s' => if Ascii.eqb a b then strip_prefix p' s' else None
      | EmptyString => None
      end
  end.

Definition starts_with (p s : string) : bool :=
  match strip_prefix p s with Some _ => true | None => false end.

(** The longest prefix of [s] whose characters satisfy [p], and what follows. *)
Fixpoint span (p : ascii -> bool) (s : string) : string * string :=
  match s with
  | EmptyString => (EmptyString, EmptyString)
  | String c r =>
      if p c then let (a, b) := span p r in (String c a, b)
      else (EmptyString, s)
  end.

(** [s.replace(/X$/, '')] for a pattern [X$] that is decided by the character
    at the start of the match and by the rest of the string: the leftmost
    position where [m] holds is where the string is cut. *)
Fixpoint replace_tail (m : ascii -> string -> bool) (s : string) : string :=
  match s with
  | EmptyString => EmptyString
  | String c r => if m c r then EmptyString else String c (replace_tail m r)
  end.

(** ** [uiUtil.js]: removeUrlParameters *)

(** [/\?[^?]*$/] at a position: a question mark, then no question mark up to
    the end of the string. *)
Definition re_querystring (c : ascii) (rest : string) : bool :=
  is_char "?" c && string_forallb (fun x => negb (is_char "?" x)) rest.

(** [/#[^#;]*$/] at a position. *)
Definition re_anchor (c : ascii) (rest : string) : bool :=
  is_char "#" c &&
  string_forallb (fun x => negb (is_char "#" x || is_char ";" x)) rest.

Definition removeUrlParameters (url : string) : string :=
  let strippedUrl := replace_tail re_querystring url in
  let strippedUrl := replace_tail re_anchor strippedUrl in
  strippedUrl.


(** ** Effects: state and exceptions

    A function of the source that changes browser state and may throw is a
    state transformer that returns the state it reached together with its
    completion: the changes made before a [throw] persist, as in JavaScript. *)

Inductive js_error : Type :=
| URIError              (* decodeURIComponent on a malformed escape *)
| TypeError             (* a property of null or undefined, a call of a non-function *)
| SyntaxError           (* DOMTokenList: the empty token *)
| InvalidCharacterError (* DOMTokenList: a token with ASCII whitespace *)
| DOMError.             (* any other exception of a browser API *)

Inductive completion (A : Type) : Type :=
| Returned (a : A)
| Thrown (e : js_error).
Arguments Returned {A} a.
Arguments Thrown {A} e.

Definition M (S A : Type) : Type := S -> S * completion A.

Definition ret {S A} (a : A) : M S A := fun s => (s, Returned a).
Definition throw {S A} (e : js_error) : M S A := fun s => (s, Thrown e).
Definition bind {S A B} (m : M S A) (k : A -> M S B) : M S B :=
  fun s => match m s with
           | (s', Returned a) => k a s'
           | (s', Thrown e) => (s', Thrown e)
           end.
Definition get_state {S} : M S S := fun s => (s, Returned s).
Definition modify {S} (f : S -> S) : M S unit := fun s => (f s, Returned tt).
Definition when {S} (b : bool) (m : M S unit) : M S unit :=
  if b then m else ret tt.

Declare Scope js_scope.
Delimit Scope js_scope with js.
Notation "x <- m ;; k" := (bind m (fun x => k))
  (at level 100, m at next level, k at level 200, right associativity) : js_scope.
Notation "m ;; k" := (bind m (fun _ => k))
  (at level 100, k at level 200, right associativity) : js_scope.

Definition completed {A} (c : completion A) : bool :=
  match c with Returned _ => true | Thrown _ => false end.

(** ** Regular expressions of [uiUtil.js] *)

(** LineTerminator of ECMAScript: LF, CR, U+2028 and U+2029 (the last two are
    the bytes E2 80 A8 and E2 80 A9).  The dot of a regular expression matches
    every character but these. *)
Fixpoint has_line_terminator (s : string) : bool :=
  match s with
  | EmptyString => false
  | String c r =>
      (code c =? 10)%N || (code c =? 13)%N
      || ((code c =? 226)%N &&
          match r with
          | String c2 (String c3 _) =>
              (code c2 =? 128)%N && ((code c3 =? 168)%N || (code c3 =? 169)%N)
          | _ => false
          end)
      || has_line_terminator r
  end.

(** [/_.*$/] at a position: an underscore, then no line terminator up to the
    end of the string. *)
Definition re_underscore_rest (c : ascii) (rest : string) : bool :=
  is_char "_" c && negb (has_line_terminator rest).

(** [s.replace(/_.*$/, '')] *)
Definition strip_content_theme (s : string) : string :=
  replace_tail re_underscore_rest s.

(** [s.replace(/^[^_]*/, '')]: the match is the longest prefix without an
    underscore (it may be empty). *)
Definition strip_app_theme (s : string) : string :=
  snd (span (fun x => negb (is_char "_" x)) s).

(** [s.replace(/_/, '')]: the first underscore is removed. *)
Fixpoint remove_first_underscore (s : string) : string :=
  match s with
  | EmptyString => EmptyString
  | String c r => if is_char "_" c then r else String c (remove_first_underscore r)
  end.

(** [/\/[^/]*$/] at a position. *)
Definition re_last_slash (c : ascii) (rest : string) : bool :=
  is_char "/" c && string_forallb (fun x => negb (is_char "/" x)) rest.

(** A pattern made of the literal [before], one character that is not a line
    terminator, and the literal [after], searched anywhere in [s]: this is
    [s.search(before + '.' + after) !== -1] when [before] and [after] have no
    character that is special in a regular expression.  The dot takes one
    UTF-16 code unit: a character of one, two or three bytes of UTF-8. *)
Definition dot_then (after : string) (s : string) : bool :=
  match s with
  | String c r =>
      if (code c <? 128)%N then
        negb ((code c =? 10)%N || (code c =? 13)%N) && starts_with after r
      else if (code c <? 224)%N then
        match r with
        | String _ r2 => starts_with after r2
        | EmptyString => false
        end
      else if (code c <? 240)%N then
        match r with
        | String _ (String _ r3) =>
            negb (has_line_terminator (String c (substring 0 2 r)))
            && starts_with after r3
        | _ => false
        end
      else false
  | EmptyString => false
  end.

Fixpoint search_lit_dot_lit (before after s : string) : bool :=
  match strip_prefix before s with
  | Some r => dot_then after r
  | None => false
  end
  || match s with
     | EmptyString => false
     | String _ r => search_lit_dot_lit before after r
     end.

(** The characters that are special in the source of a regular expression;
    a source without them matches itself. *)
Definition regexp_special (c : ascii) : bool :=
  is_char "\" c || is_char "^" c || is_char "$" c || is_char "." c
  || is_char "*" c || is_char "+" c || is_char "?" c || is_char "(" c
  || is_char ")" c || is_char "[" c || is_char "]" c || is_char "{" c
  || is_char "}" c || is_char "|" c.

Definition regexp_literal (s : string) : bool :=
  negb (string_existsb regexp_special s).

(** ** [uiUtil.js]: applyAppTheme *)

(** *** DOMTokenList ([classList])

    A class list is a list of distinct tokens in insertion order.  [add] and
    [remove] throw a [SyntaxError] on the empty token and an
    [InvalidCharacterError] on a token with ASCII whitespace. *)

Definition ascii_whitespace (c : ascii) : bool :=
  (code c =? 9)%N || (code c =? 10)%N || (code c =? 12)%N
  || (code c =? 13)%N || (code c =? 32)%N.

Definition token_error (t : string) : option js_error :=
  if String.eqb t "" then Some SyntaxError
  else if string_existsb ascii_whitespace t then Some InvalidCharacterError
  else None.

Definition contains (t : string) (l : list string) : bool :=
  List.existsb (String.eqb t) l.

Definition token_add (t : string) (l : list string) : list string :=
  if contains t l then l else l ++ [t].

Definition token_remove (t : string) (l : list string) : list string :=
  List.filter (fun x => negb (String.eqb t x)) l.

(** *** The part of the page that applyAppTheme reads and writes *)

(** The document of the article iframe: its title, and the [href] of the
    elements whose id is [kiwixJSTheme], in document order ([getElementById]
    returns the first). *)
Record ContentDocument : Type := {
  docTitle : string;
  themeLinks : list string
}.

Record Page : Type := {
  (** [window.matchMedia('(prefers-color-scheme:dark)').matches] *)
  prefersDark : bool;
  (** [document.querySelector('html')]: its class list and [dataset.theme] *)
  htmlClassList : list string;
  htmlDatasetTheme : option string;
  (** [document.querySelector('footer')] *)
  footerClassList : list string;
  (** [document.getElementById('articleContent')] and its [contentDocument] *)
  iframeClassList : list string;
  contentDocument : option ContentDocument;
  (** [style.display] of the other elements that have an id *)
  displays : gmap string string;
  (** [liConfigureNav.classList.contains('active')] *)
  configureNavActive : bool;
  (** [location.protocol + '//' + location.host + location.pathname] *)
  locationBase : string;
  (** the click listeners that showReturnLink has attached to [viewArticle] *)
  viewArticleListeners : nat;
  (** [subject.search(source) !== -1] as the regular expression engine of the
      browser answers it for a [source] with special characters, or [None]
      when the source does not compile (a [SyntaxError]) *)
  regexpSearch : string -> string -> option bool
}.

Definition set_htmlClassList (f : list string -> list string) (p : Page) : Page :=
  {| prefersDark := prefersDark p; htmlClassList := f (htmlClassList p);
     htmlDatasetTheme := htmlDatasetTheme p; footerClassList := footerClassList p;
     iframeClassList := iframeClassList p; contentDocument := contentDocument p;
     displays := displays p; configureNavActive := configureNavActive p;
     locationBase := locationBase p; viewArticleListeners := viewArticleListeners p;
     regexpSearch := regexpSearch p |}.

Definition set_htmlDatasetTheme (v : option string) (p : Page) : Page :=
  {| prefersDark := prefersDark p; htmlClassList := htmlClassList p;
     htmlDatasetTheme := v; footerClassList := footerClassList p;
     iframeClassList := iframeClassList p; contentDocument := contentDocument p;
     displays := displays p; configureNavActive := configureNavActive p;
     locationBase := locationBase p; viewArticleListeners := viewArticleListeners p;
     regexpSearch := regexpSearch p |}.

Definition set_footerClassList (f : list string -> list string) (p : Page) : Page :=
  {| prefersDark := prefersDark p; htmlClassList := htmlClassList p;
     htmlDatasetTheme := htmlDatasetTheme p; footerClassList := f (footerClassList p);
     iframeClassList := iframeClassList p; contentDocument := contentDocument p;
     displays := displays p; configureNavActive := configureNavActive p;
     locationBase := locationBase p; viewArticleListeners := viewArticleListeners p;
     regexpSearch := regexpSearch p |}.

Definition set_iframeClassList (f : list string -> list string) (p : Page) : Page :=
  {| prefersDark := prefersDark p; htmlClassList := htmlClassList p;
     htmlDatasetTheme := htmlDatasetTheme p; footerClassList := footerClassList p;
     iframeClassList := f (iframeClassList p); contentDocument := contentDocument p;
     displays := displays p; configureNavActive := configureNavActive p;
     locationBase := locationBase p; viewArticleListeners := viewArticleListeners p;
     regexpSearch := regexpSearch p |}.

Definition set_contentDocument (f : ContentDocument -> ContentDocument) (p : Page) : Page :=
  {| prefersDark := prefersDark p; htmlClassList := htmlClassList p;
     htmlDatasetTheme := htmlDatasetTheme p; footerClassList := footerClassList p;
     iframeClassList := iframeClassList p;
     contentDocument := option_map f (contentDocument p);
     displays := displays p; configureNavActive := configureNavActive p;
     locationBase := locationBase p; viewArticleListeners := viewArticleListeners p;
     regexpSearch := regexpSearch p |}.

Definition set_displays (f : gmap string string -> gmap string string) (p : Page) : Page :=
  {| prefersDark := prefersDark p; htmlClassList := htmlClassList p;
     htmlDatasetTheme := htmlDatasetTheme p; footerClassList := footerClassList p;
     iframeClassList := iframeClassList p; contentDocument := contentDocument p;
     displays := f (displays p); configureNavActive := configureNavActive p;
     locationBase := locationBase p; viewArticleListeners := viewArticleListeners p;
     regexpSearch := regexpSearch p |}.

Definition add_viewArticleListener (p : Page) : Page :=
  {| prefersDark := prefersDark p; htmlClassList := htmlClassList p;
     htmlDatasetTheme := htmlDatasetTheme p; footerClassList := footerClassList p;
     iframeClassList := iframeClassList p; contentDocument := contentDocument p;
     displays := displays p; configureNavActive := configureNavActive p;
     locationBase := locationBase p;
     viewArticleListeners := S (viewArticleListeners p);
     regexpSearch := regexpSearch p |}.

Definition set_themeLinks (f : list string -> list string) (d : ContentDocument)
  : ContentDocument :=
  {| docTitle := docTitle d; themeLinks := f (themeLinks d) |}.

(** [el.classList.add(t)] and [el.classList.remove(t)] on the three elements. *)
Definition classList_op (op : string -> list string -> list string)
    (setter : (list string -> list string) -> Page -> Page) (t : string)
  : M Page unit :=
  match token_error t with
  | Some e => throw e
  | None => modify (setter (op t))
  end.

(** [var el = document.getElementById(id); if (el) el.style.display = v;] *)
Definition display_if_present (id v : string) : M Page unit :=
  modify (set_displays (alter (fun _ => v) id)).

(** [document.getElementById(id).style.display = v;] *)
Definition display_set (id v : string) : M Page unit :=
  fun p => match displays p !! id with
           | Some _ => (set_displays (insert id v) p, Returned tt)
           | None => (p, Thrown TypeError)
           end.

(** [a || b] on strings: the empty string is falsy. *)
Definition str_or (a b : string) : string :=
  if String.eqb a "" then b else a.

Definition nonempty (s : string) : bool := negb (String.eqb s "").

(** showReturnLink, up to the attachment of the click listener. *)
Definition showReturnLink : M Page unit :=
  (display_set "viewArticle" "block" ;;
   modify add_viewArticleListener)%js.

(** [href.search('kiwixJS' + contentTheme + '.css') !== -1]: [search] compiles
    its argument as a regular expression.  A content theme without special
    characters gives the pattern of [search_lit_dot_lit]; for any other
    content theme the engine of the browser answers, or refuses the
    source. *)
Definition theme_sheet_search (page : Page) (contentTheme href : string)
  : option bool :=
  if regexp_literal contentTheme
  then Some (search_lit_dot_lit ("kiwixJS" +:+ contentTheme) "css" href)
  else regexpSearch page ("kiwixJS" +:+ contentTheme +:+ ".css") href.

Definition applyAppTheme (theme : string) : M Page unit :=
  (page <- get_state ;;
   let darkPreference := prefersDark page in
   let isAuto := starts_with "auto" theme in
   let appTheme :=
     if isAuto then (if darkPreference then "dark" else "light")
     else strip_content_theme theme in
   let contentTheme := strip_app_theme theme in
   let oldTheme := str_or (default "" (htmlDatasetTheme page)) "" in
   let doc := contentDocument page in
   let kiwixJSSheet :=
     match doc with Some d => head (themeLinks d) | None => None end in
   let oldAppTheme := strip_content_theme oldTheme in
   let oldContentTheme := strip_app_theme oldTheme in
   when (nonempty oldAppTheme)
     (classList_op token_remove set_htmlClassList oldAppTheme) ;;
   classList_op token_remove set_footerClassList (str_or oldContentTheme "_light") ;;
   when (nonempty appTheme)
     (classList_op token_add set_htmlClassList appTheme) ;;
   classList_op token_add set_footerClassList (str_or contentTheme "_light") ;;
   modify (set_htmlDatasetTheme (Some (appTheme +:+ contentTheme))) ;;
   display_if_present (remove_first_underscore oldContentTheme +:+ "-help") "none" ;;
   display_if_present (remove_first_underscore contentTheme +:+ "-help") "block" ;;
   (* [contentTheme = null] for an auto theme in light mode *)
   let contentTheme' :=
     if isAuto && String.eqb appTheme "light" then None else Some contentTheme in
   display_if_present "kiwix-auto-description" "none" ;;
   display_if_present
     ("kiwix-" +:+ strip_content_theme theme +:+ "-description") "block" ;;
   when (nonempty oldContentTheme &&
         negb (bool_decide (Some oldContentTheme = contentTheme')))
     (classList_op token_remove set_iframeClassList oldContentTheme ;;
      when (bool_decide (is_Some kiwixJSSheet))
        (modify (set_contentDocument (set_themeLinks (drop 1))))) ;;
   match contentTheme' with
   | Some ct =>
       (* [contentTheme && (!kiwixJSSheet || !~kiwixJSSheet.href.search(...))] *)
       attach <- (if nonempty ct then
                    match kiwixJSSheet with
                    | None => ret true
                    | Some href =>
                        match theme_sheet_search page ct href with
                        | Some found => ret (negb found)
                        | None => throw SyntaxError
                        end
                    end
                  else ret false) ;;
       when attach
         (classList_op token_add set_iframeClassList ct ;;
          let prefix := replace_tail re_last_slash (locationBase page) in
          modify (set_contentDocument
                    (set_themeLinks
                       (fun l => l ++ [prefix +:+ "/css/kiwixJS" +:+ ct +:+ ".css"]))))
   | None => ret tt
   end ;;
   when (configureNavActive page &&
         match doc with
         | Some d =>
             negb (String.eqb (docTitle d)
                     "Placeholder for injecting an article into the iframe")
         | None => false
         end)
     showReturnLink)%js.

(** ** JavaScript values

    The values that the settings and the dialogs handle: [undefined], [null],
    booleans, strings, and the numbers that are integers from 0 to 255, by
    their byte: they are exact as JavaScript numbers and print as their
    decimal digits (the only number of [init.js] is the default 25,
    [Byte.x19]). *)

Inductive jsval : Type :=
| JUndefined
| JNull
| JBool (b : bool)
| JNum (n : Byte.byte)
| JStr (s : string).

Definition jsval_eqb (a b : jsval) : bool :=
  match a, b with
  | JUndefined, JUndefined => true
  | JNull, JNull => true
  | JBool x, JBool y => Bool.eqb x y
  | JNum x, JNum y => Byte.eqb x y
  | JStr x, JStr y => String.eqb x y
  | _, _ => false
  end.

(** ToBoolean *)
Definition truthy (v : jsval) : bool :=
  match v with
  | JUndefined | JNull => false
  | JBool b => b
  | JNum n => negb (Byte.eqb n Byte.x00)
  | JStr s => nonempty s
  end.

(** ToString *)
Definition ToString (v : jsval) : string :=
  match v with
  | JUndefined => "undefined"
  | JNull => "null"
  | JBool true => "true"
  | JBool false => "false"
  | JNum n => NilZero.string_of_uint (N.to_uint (Byte.to_N n))
  | JStr s => s
  end.

(** [a || b] *)
Definition js_or (a b : jsval) : jsval := if truthy a then a else b.

(** ** [uiUtil.js]: systemAlert *)

(** A promise settles once: [resolve] and [reject] on a settled promise do
    nothing. *)
Inductive promise : Type :=
| Pending
| Fulfilled (v : bool)
| Rejected (reason : string).

Definition resolve (v : bool) (p : promise) : promise :=
  match p with Pending => Fulfilled v | _ => p end.

Definition reject (reason : string) (p : promise) : promise :=
  match p with Pending => Rejected reason | _ => p end.

(** The alert modal of the page, the listeners that systemAlert has attached
    to it, and the promises that systemAlert has returned.  A listener of
    ['hide.bs.modal'] settles the promise of the call that attached it, which
    the listener holds by its index in [promises]; a listener of ['keyup']
    holds the [isConfirm] of its call. *)
Record Modal : Type := {
  approveConfirmText : string;
  declineConfirmText : string;
  closeMessageText : string;
  modalLabelText : string;
  modalTextHTML : string;
  approveConfirmDisplay : string;
  declineConfirmDisplay : string;
  closeMessageDisplay : string;
  modalShown : bool;
  hideListeners : list nat;
  keyupListeners : list bool;
  promises : list promise
}.

(** [el.innerHTML = v]: [null] is the empty string. *)
Definition innerHTML_string (v : jsval) : string :=
  match v with JNull => "" | _ => ToString v end.

(** systemAlert returns the state of the page after the executor of the
    promise has run, and the index of the promise that it returns. *)
Definition systemAlert
    (message label : jsval) (isConfirm : bool)
    (declineConfirmLabel approveConfirmLabel closeMessageLabel : jsval)
    (m : Modal) : Modal * nat :=
  let declineConfirmLabel := js_or declineConfirmLabel (JStr "Cancel") in
  let approveConfirmLabel := js_or approveConfirmLabel (JStr "Confirm") in
  let closeMessageLabel := js_or closeMessageLabel (JStr "Okay") in
  let label :=
    js_or label (JStr (if isConfirm then "Confirmation" else "Message")) in
  let this := length (promises m) in
  let settled :=
    if negb (truthy message) then reject "Missing body message" Pending
    else Pending in
  ({| approveConfirmText := ToString approveConfirmLabel;
      declineConfirmText := ToString declineConfirmLabel;
      closeMessageText := ToString closeMessageLabel;
      modalLabelText := ToString label;
      modalTextHTML := innerHTML_string message;
      approveConfirmDisplay := if isConfirm then "inline" else "none";
      declineConfirmDisplay := if isConfirm then "inline" else "none";
      closeMessageDisplay := if isConfirm then "none" else "inline";
      modalShown := true;
      hideListeners := hideListeners m ++ [this];
      keyupListeners := keyupListeners m ++ [isConfirm];
      promises := promises m ++ [settled] |},
   this).

(** The listener of ['hide.bs.modal'] that the call with promise [i] attached,
    run when [document.activeElement.id] is [activeId]. *)
Definition on_hide (activeId : string) (i : nat) (ps : list promise) : list promise :=
  alter (resolve (String.eqb activeId "approveConfirm")) i ps.

(** The modal is hidden while the element with id [activeId] has the focus:
    every listener of ['hide.bs.modal'] runs, in the order of attachment. *)
Definition hide_modal (activeId : string) (m : Modal) : Modal :=
  {| approveConfirmText := approveConfirmText m;
     declineConfirmText := declineConfirmText m;
     closeMessageText := closeMessageText m;
     modalLabelText := modalLabelText m;
     modalTextHTML := modalTextHTML m;
     approveConfirmDisplay := approveConfirmDisplay m;
     declineConfirmDisplay := declineConfirmDisplay m;
     closeMessageDisplay := closeMessageDisplay m;
     modalShown := false;
     hideListeners := hideListeners m;
     keyupListeners := keyupListeners m;
     promises := fold_left (fun ps i => on_hide activeId i ps) (hideListeners m) (promises m) |}.

(** What happens to the modal after a call of systemAlert: it is hidden, or
    systemAlert is called again. *)
Inductive modal_event : Type :=
| EvHide (activeId : string)
| EvAlert (message label : jsval) (isConfirm : bool)
          (declineConfirmLabel approveConfirmLabel closeMessageLabel : jsval).

Definition modal_step (m : Modal) (ev : modal_event) : Modal :=
  match ev with
  | EvHide activeId => hide_modal activeId m
  | EvAlert message label isConfirm d a c =>
      fst (systemAlert message label isConfirm d a c m)
  end.

Definition modal_run (evs : list modal_event) (m : Modal) : Modal :=
  fold_left modal_step evs m.

(** The focused element of the first time the modal is hidden. *)
Fixpoint first_hide (evs : list modal_event) : option string :=
  match evs with
  | [] => None
  | EvHide activeId :: _ => Some activeId
  | EvAlert _ _ _ _ _ _ :: evs' => first_hide evs'
  end.

(** The state of the promise with index [i]. *)
Definition promise_state (i : nat) (m : Modal) : option promise := promises m !! i.

(** ** [uiUtil.js]: displayActiveContentWarning and displayFileDownloadAlert *)

(** The two alert boxes, the module variables that guard their set-up, and the
    listeners that the two functions attach. *)
Record Alerts : Type := {
  (** [#activeContent] *)
  activeContentDisplay : string;
  activeContentWarningSetup : bool;
  (** click listeners of its [button[data-hide]] *)
  activeContentDismissListeners : nat;
  (** click listeners of the hyperlinks [#swModeLink] and [#stop] *)
  swModeLinkListeners : nat;
  stopListeners : nat;
  (** what the hyperlink listeners do: the option whose label is outlined in
      red, the mousedown listeners that cancel the outline, the clicks on
      [#btnConfigure] *)
  highlighted : option string;
  cancelHighlightListeners : nat;
  btnConfigureClicks : nat;
  (** [#downloadAlert] *)
  downloadAlertDisplay : string;
  downloadAlertSetup : bool;
  downloadDismissListeners : nat;
  (** the anchor appended to [#alertMessage]: its file name and type, and
      whether a click listener for [msSaveBlob] was attached to it *)
  downloadLink : option (string * string * bool);
  (** [#searchingArticles] *)
  searchingArticlesDisplay : string;
  (** the browser: [a.click()] throws; [navigator.msSaveBlob] exists *)
  anchorClickThrows : bool;
  hasMsSaveBlob : bool
}.

Definition displayActiveContentWarning (s : Alerts) : Alerts :=
  let setup := activeContentWarningSetup s in
  {| activeContentDisplay := "";
     activeContentWarningSetup := true;
     activeContentDismissListeners :=
       if setup then activeContentDismissListeners s
       else S (activeContentDismissListeners s);
     swModeLinkListeners :=
       if setup then swModeLinkListeners s else S (swModeLinkListeners s);
     stopListeners := if setup then stopListeners s else S (stopListeners s);
     highlighted := highlighted s;
     cancelHighlightListeners := cancelHighlightListeners s;
     btnConfigureClicks := btnConfigureClicks s;
     downloadAlertDisplay := downloadAlertDisplay s;
     downloadAlertSetup := downloadAlertSetup s;
     downloadDismissListeners := downloadDismissListeners s;
     downloadLink := downloadLink s;
     searchingArticlesDisplay := searchingArticlesDisplay s;
     anchorClickThrows := anchorClickThrows s;
     hasMsSaveBlob := hasMsSaveBlob s |}.

(** One click on the dismiss button of [#activeContent]: each attached
    listener hides the alert. *)
Definition click_activeContent_dismiss (s : Alerts) : Alerts :=
  {| activeContentDisplay :=
       if (0 <? activeContentDismissListeners s)%nat then "none"
       else activeContentDisplay s;
     activeContentWarningSetup := activeContentWarningSetup s;
     activeContentDismissListeners := activeContentDismissListeners s;
     swModeLinkListeners := swModeLinkListeners s;
     stopListeners := stopListeners s;
     highlighted := highlighted s;
     cancelHighlightListeners := cancelHighlightListeners s;
     btnConfigureClicks := btnConfigureClicks s;
     downloadAlertDisplay := downloadAlertDisplay s;
     downloadAlertSetup := downloadAlertSetup s;
     downloadDismissListeners := downloadDismissListeners s;
     downloadLink := downloadLink s;
     searchingArticlesDisplay := searchingArticlesDisplay s;
     anchorClickThrows := anchorClickThrows s;
     hasMsSaveBlob := hasMsSaveBlob s |}.

(** One click on the hyperlink [id] ([swModeLink] or [stop]): each attached
    listener outlines the label of the option, attaches two listeners that
    cancel the outline, and clicks [#btnConfigure]. *)
Definition click_hyperlink (id : string) (s : Alerts) : Alerts :=
  let n := if String.eqb id "stop" then stopListeners s
           else if String.eqb id "swModeLink" then swModeLinkListeners s
           else 0%nat in
  let elementID := if String.eqb id "stop" then "hideActiveContentWarningCheck"
                   else "serviceworkerModeRadio" in
  {| activeContentDisplay := activeContentDisplay s;
     activeContentWarningSetup := activeContentWarningSetup s;
     activeContentDismissListeners := activeContentDismissListeners s;
     swModeLinkListeners := swModeLinkListeners s;
     stopListeners := stopListeners s;
     highlighted := if (0 <? n)%nat then Some elementID else highlighted s;
     cancelHighlightListeners := (cancelHighlightListeners s + 2 * n)%nat;
     btnConfigureClicks := (btnConfigureClicks s + n)%nat;
     downloadAlertDisplay := downloadAlertDisplay s;
     downloadAlertSetup := downloadAlertSetup s;
     downloadDismissListeners := downloadDismissListeners s;
     downloadLink := downloadLink s;
     searchingArticlesDisplay := searchingArticlesDisplay s;
     anchorClickThrows := anchorClickThrows s;
     hasMsSaveBlob := hasMsSaveBlob s |}.

(** [/^.*\/([^\/]+)$/]: the string is cut at its last slash; the pattern
    matches when no line terminator comes before that slash and something
    comes after it. *)
Fixpoint split_last_slash (s : string) : option (string * string) :=
  match s with
  | EmptyString => None
  | String c r =>
      match split_last_slash r with
      | Some (p, q) => Some (String c p, q)
      | None => if is_char "/" c then Some (EmptyString, r) else None
      end
  end.

(** [title.replace(/^.*\/([^\/]+)$/, '$1')] *)
Definition file_of_title (title : string) : string :=
  match split_last_slash title with
  | Some (p, q) => if negb (has_line_terminator p) && nonempty q then q else title
  | None => title
  end.

(** The replacement that makes the file name safe: every slash, backslash,
    colon, asterisk, question mark, double quote, angle bracket and vertical
    bar becomes an underscore (the pattern has the flag [g]). *)
Definition unsafe_in_filename (c : ascii) : bool :=
  is_char "/" c || is_char "\" c || is_char ":" c || is_char "*" c
  || is_char "?" c || is_char "034" c || is_char "<" c || is_char ">" c
  || is_char "|" c.

Fixpoint make_filename_safe (s : string) : string :=
  match s with
  | EmptyString => EmptyString
  | String c r =>
      String (if unsafe_in_filename c then "_"%char else c) (make_filename_safe r)
  end.

Definition set_download_alert_shown (s : Alerts) : Alerts :=
  {| activeContentDisplay := activeContentDisplay s;
     activeContentWarningSetup := activeContentWarningSetup s;
     activeContentDismissListeners := activeContentDismissListeners s;
     swModeLinkListeners := swModeLinkListeners s;
     stopListeners := stopListeners s;
     highlighted := highlighted s;
     cancelHighlightListeners := cancelHighlightListeners s;
     btnConfigureClicks := btnConfigureClicks s;
     downloadAlertDisplay := "block";
     downloadAlertSetup := true;
     downloadDismissListeners :=
       if downloadAlertSetup s then downloadDismissListeners s
       else S (downloadDismissListeners s);
     downloadLink := downloadLink s;
     searchingArticlesDisplay := searchingArticlesDisplay s;
     anchorClickThrows := anchorClickThrows s;
     hasMsSaveBlob := hasMsSaveBlob s |}.

Definition set_download_link (filename contentType : string) (s : Alerts) : Alerts :=
  {| activeContentDisplay := activeContentDisplay s;
     activeContentWarningSetup := activeContentWarningSetup s;
     activeContentDismissListeners := activeContentDismissListeners s;
     swModeLinkListeners := swModeLinkListeners s;
     stopListeners := stopListeners s;
     highlighted := highlighted s;
     cancelHighlightListeners := cancelHighlightListeners s;
     btnConfigureClicks := btnConfigureClicks s;
     downloadAlertDisplay := downloadAlertDisplay s;
     downloadAlertSetup := downloadAlertSetup s;
     downloadDismissListeners := downloadDismissListeners s;
     downloadLink :=
       Some (filename, contentType, anchorClickThrows s && hasMsSaveBlob s);
     searchingArticlesDisplay := "none";
     anchorClickThrows := anchorClickThrows s;
     hasMsSaveBlob := hasMsSaveBlob s |}.

(** [download] is [true] or the file name to use; with any other value
    [filename.replace] is not a function. *)
Definition displayFileDownloadAlert (title : string) (download contentType : jsval)
  : M Alerts unit :=
  (modify set_download_alert_shown ;;
   let contentType :=
     if negb (truthy contentType) then JStr "application/octet-stream"
     else contentType in
   filename <- match download with
               | JBool true => ret (file_of_title title)
               | JStr s => ret s
               | _ => throw TypeError
               end ;;
   let filename := make_filename_safe filename in
   modify (set_download_link filename (ToString contentType)))%js.

(** One click on the dismiss button of [#downloadAlert]. *)
Definition click_download_dismiss (s : Alerts) : Alerts :=
  {| activeContentDisplay := activeContentDisplay s;
     activeContentWarningSetup := activeContentWarningSetup s;
     activeContentDismissListeners := activeContentDismissListeners s;
     swModeLinkListeners := swModeLinkListeners s;
     stopListeners := stopListeners s;
     highlighted := highlighted s;
     cancelHighlightListeners := cancelHighlightListeners s;
     btnConfigureClicks := btnConfigureClicks s;
     downloadAlertDisplay :=
       if (0 <? downloadDismissListeners s)%nat then "none"
       else downloadAlertDisplay s;
     downloadAlertSetup := downloadAlertSetup s;
     downloadDismissListeners := downloadDismissListeners s;
     downloadLink := downloadLink s;
     searchingArticlesDisplay := searchingArticlesDisplay s;
     anchorClickThrows := anchorClickThrows s;
     hasMsSaveBlob := hasMsSaveBlob s |}.

(** What happens to the alerts during the life of the page. *)
Inductive alert_event : Type :=
| CallActiveContentWarning
| CallFileDownloadAlert (title : string) (download contentType : jsval)
| ClickActiveContentDismiss
| ClickHyperlink (id : string)
| ClickDownloadDismiss.

Definition alert_step (s : Alerts) (ev : alert_event) : Alerts :=
  match ev with
  | CallActiveContentWarning => displayActiveContentWarning s
  | CallFileDownloadAlert title download contentType =>
      fst (displayFileDownloadAlert title download contentType s)
  | ClickActiveContentDismiss => click_activeContent_dismiss s
  | ClickHyperlink id => click_hyperlink id s
  | ClickDownloadDismiss => click_download_dismiss s
  end.

Definition alert_run (evs : list alert_event) (s : Alerts) : Alerts :=
  fold_left alert_step evs s.

Definition is_active_content_call (ev : alert_event) : bool :=
  match ev with CallActiveContentWarning => true | _ => false end.

Definition is_download_call (ev : alert_event) : bool :=
  match ev with CallFileDownloadAlert _ _ _ => true | _ => false end.

(** The alerts when the module has been loaded and neither function has been
    called: nothing is set up, no listener is attached. *)
Definition alerts_at_load (s : Alerts) : Prop :=
  activeContentWarningSetup s = false /\ downloadAlertSetup s = false
  /\ activeContentDismissListeners s = 0%nat /\ swModeLinkListeners s = 0%nat
  /\ stopListeners s = 0%nat /\ downloadDismissListeners s = 0%nat.

(** ** [uiUtil.js]: feedNodeWithDataURI *)

(** Case-insensitive matching of a literal (flag [i]): both sides are
    compared after the ASCII letters are put in upper case; no character
    outside ASCII is equal to an ASCII letter under this flag. *)
Definition upper (c : ascii) : ascii :=
  if ((97 <=? code c) && (code c <=? 122))%N then ascii_of_N (code c - 32) else c.

Fixpoint starts_with_ci (p s : string) : bool :=
  match p with
  | EmptyString => true
  | String a p' =>
      match s with
      | String b s' => Ascii.eqb (upper a) (upper b) && starts_with_ci p' s'
      | EmptyString => false
      end
  end.

Fixpoint search_ci (p s : string) : bool :=
  starts_with_ci p s
  || match s with
     | EmptyString => false
     | String _ r => search_ci p r
     end.

(** The [content] argument: a [Uint8Array], or a string (a data URI). *)
Inductive content : Type :=
| Binary (bytes : list N)
| Text (s : string).

(** [/^data:/i.test(content)]: the string of a [Uint8Array] is its numbers
    separated by commas. *)
Definition is_data_uri (c : content) : bool :=
  match c with
  | Binary _ => false
  | Text s => starts_with_ci "data:" s
  end.

(** What the browser and the WebP polyfill answer during one call. *)
Record FeedEnv : Type := {
  (** the global [webpMachine] is an instance of the polyfill *)
  webpMachinePresent : bool;
  (** [webpHero.convertDataURIToBinary] returns (it throws otherwise) *)
  dataURIConverts : bool;
  (** the promise of [webpMachine.decodeToCanvas] is fulfilled (it is rejected
      otherwise) *)
  decodeSucceeds : bool;
  (** [params.useCanvasElementsForWebpTranscoding] *)
  useCanvasElementsForWebpTranscoding : bool;
  (** [canvas.toDataURL()], or [None] when it throws *)
  canvasDataURL : option string;
  (** the [result] of the [FileReader] *)
  readerResult : string
}.

(** The node, the console and the counters of the calls that the function
    makes. *)
Record FeedState : Type := {
  nodeAttributes : gmap string string;
  nodeReplacedByCanvas : bool;
  consoleErrors : list string;
  callbackCalls : nat;
  decodeCalls : nat
}.

Definition call_callback (given : bool) (s : FeedState) : FeedState :=
  {| nodeAttributes := nodeAttributes s;
     nodeReplacedByCanvas := nodeReplacedByCanvas s;
     consoleErrors := consoleErrors s;
     callbackCalls := if given then S (callbackCalls s) else callbackCalls s;
     decodeCalls := decodeCalls s |}.

Definition node_setAttribute (name value : string) (s : FeedState) : FeedState :=
  {| nodeAttributes := <[name := value]> (nodeAttributes s);
     nodeReplacedByCanvas := nodeReplacedByCanvas s;
     consoleErrors := consoleErrors s;
     callbackCalls := callbackCalls s;
     decodeCalls := decodeCalls s |}.

Definition replaceImageWithCanvas (s : FeedState) : FeedState :=
  {| nodeAttributes := nodeAttributes s;
     nodeReplacedByCanvas := true;
     consoleErrors := consoleErrors s;
     callbackCalls := callbackCalls s;
     decodeCalls := decodeCalls s |}.

Definition console_error (msg : string) (s : FeedState) : FeedState :=
  {| nodeAttributes := nodeAttributes s;
     nodeReplacedByCanvas := nodeReplacedByCanvas s;
     consoleErrors := consoleErrors s ++ [msg];
     callbackCalls := callbackCalls s;
     decodeCalls := decodeCalls s |}.

Definition decodeToCanvas (s : FeedState) : FeedState :=
  {| nodeAttributes := nodeAttributes s;
     nodeReplacedByCanvas := nodeReplacedByCanvas s;
     consoleErrors := consoleErrors s;
     callbackCalls := callbackCalls s;
     decodeCalls := S (decodeCalls s) |}.

(** [promise.then(onFulfilled).catch(onRejected)]: [onRejected] runs when the
    promise is rejected and when [onFulfilled] throws. *)
Definition then_catch {S} (fulfilled : bool) (onFulfilled onRejected : M S unit)
  : M S unit :=
  fun s =>
    if fulfilled then
      match onFulfilled s with
      | (s', Returned _) => (s', Returned tt)
      | (s', Thrown _) => onRejected s'
      end
    else onRejected s.

(** The effects of one call, those of the callbacks of its promise and of its
    [FileReader] included.  [callback] tells whether the optional callback was
    given. *)
Definition feedNodeWithDataURI (env : FeedEnv) (nodeAttribute : string)
    (c : content) (mimeType : string) (callback : bool) : M FeedState unit :=
  (if webpMachinePresent env && search_ci "image/webp" mimeType then
     when (is_data_uri c)
       (if dataURIConverts env then ret tt else throw DOMError) ;;
     modify decodeToCanvas ;;
     then_catch (decodeSucceeds env)
       (modify (call_callback callback) ;;
        if useCanvasElementsForWebpTranscoding env then
          modify replaceImageWithCanvas
        else
          match canvasDataURL env with
          | Some url => modify (node_setAttribute nodeAttribute url)
          | None => throw DOMError
          end)
       (modify (console_error "There was an error decoding image in WebpMachine") ;;
        modify (call_callback callback))
   else
     modify (call_callback callback) ;;
     modify (node_setAttribute nodeAttribute (readerResult env)))%js.

(** ** Percent-encoding: encodeURIComponent and decodeURIComponent *)

(** uriUnreserved: the letters, the digits and [- _ . ! ~ * ' ( )]. *)
Definition uri_unreserved (c : ascii) : bool :=
  let n := code c in
  ((65 <=? n) && (n <=? 90))%N || ((97 <=? n) && (n <=? 122))%N
  || ((48 <=? n) && (n <=? 57))%N
  || is_char "-" c || is_char "_" c || is_char "." c || is_char "!" c
  || is_char "~" c || is_char "*" c || is_char "'" c || is_char "(" c
  || is_char ")" c.

Definition hex_digit (n : N) : ascii :=
  if (n <? 10)%N then ascii_of_N (48 + n) else ascii_of_N (55 + n).

Definition hex_value (c : ascii) : option N :=
  let n := code c in
  if ((48 <=? n) && (n <=? 57))%N then Some (n - 48)%N
  else if ((65 <=? n) && (n <=? 70))%N then Some (n - 55)%N
  else if ((97 <=? n) && (n <=? 102))%N then Some (n - 87)%N
  else None.

(** The escape of one byte: a percent sign and two upper case hexadecimal
    digits. *)
Definition percent_escape (c : ascii) (rest : string) : string :=
  String "%" (String (hex_digit (code c / 16)) (String (hex_digit (code c mod 16)) rest)).

(** On the bytes of the UTF-8 encoding, [encodeURIComponent] keeps the
    unreserved characters and escapes every other byte. *)
Fixpoint encodeURIComponent (s : string) : string :=
  match s with
  | EmptyString => EmptyString
  | String c r =>
      if uri_unreserved c then String c (encodeURIComponent r)
      else percent_escape c (encodeURIComponent r)
  end.

(** First pass of the decoding: every [%XX] becomes its byte, marked as
    escaped; a percent sign that is not followed by two hexadecimal digits is
    an error. *)
Fixpoint unescape (s : string) : option (list (bool * ascii)) :=
  match s with
  | EmptyString => Some []
  | String c r =>
      if is_char "%" c then
        match r with
        | String h (String l r') =>
            match hex_value h, hex_value l with
            | Some a, Some b =>
                option_map (cons (true, ascii_of_N (16 * a + b))) (unescape r')
            | _, _ => None
            end
        | _ => None
        end
      else option_map (cons (false, c)) (unescape r)
  end.

(** Well-formed UTF-8 sequences of two, three and four bytes (Unicode,
    table 3-7). *)
Definition continuation (b : N) : bool := ((128 <=? b) && (b <=? 191))%N.

Definition utf8_seq2 (b0 b1 : N) : bool :=
  ((194 <=? b0) && (b0 <=? 223))%N && continuation b1.

Definition utf8_seq3 (b0 b1 b2 : N) : bool :=
  ((224 <=? b0) && (b0 <=? 239))%N && continuation b1 && continuation b2
  && negb ((b0 =? 224)%N && (b1 <? 160)%N)
  && negb ((b0 =? 237)%N && (160 <=? b1)%N).

Definition utf8_seq4 (b0 b1 b2 b3 : N) : bool :=
  ((240 <=? b0) && (b0 <=? 244))%N && continuation b1 && continuation b2
  && continuation b3
  && negb ((b0 =? 240)%N && (b1 <? 144)%N)
  && negb ((b0 =? 244)%N && (144 <=? b1)%N).

(** Second pass: an escaped byte below 128 is an ASCII character; an escaped
    byte from 128 on must start a well-formed UTF-8 sequence all of whose bytes
    are escaped; everything else is an error. *)
Fixpoint utf8_escapes (l : list (bool * ascii)) : option string :=
  match l with
  | [] => Some EmptyString
  | (false, c) :: r => option_map (String c) (utf8_escapes r)
  | (true, c0) :: r =>
      if (code c0 <? 128)%N then option_map (String c0) (utf8_escapes r)
      else
        match r with
        | (true, c1) :: r1 =>
            if utf8_seq2 (code c0) (code c1) then
              option_map (fun t => String c0 (String c1 t)) (utf8_escapes r1)
            else
              match r1 with
              | (true, c2) :: r2 =>
                  if utf8_seq3 (code c0) (code c1) (code c2) then
                    option_map (fun t => String c0 (String c1 (String c2 t)))
                      (utf8_escapes r2)
                  else
                    match r2 with
                    | (true, c3) :: r3 =>
                        if utf8_seq4 (code c0) (code c1) (code c2) (code c3) then
                          option_map
                            (fun t => String c0 (String c1 (String c2 (String c3 t))))
                            (utf8_escapes r3)
                        else None
                    | _ => None
                    end
              | _ => None
              end
        | _ => None
        end
  end.

(** [decodeURIComponent]; [None] is the [URIError] of a malformed string. *)
Definition decodeURIComponent (s : string) : option string :=
  match unescape s with
  | Some l => utf8_escapes l
  | None => None
  end.



(** ** The browser's stores: [document.cookie] and [localStorage] *)

(** The cookies of the page are pairs of a name and a value, in the order of
    their creation; [localStorage] maps keys to strings.  Either store may be
    unavailable: the browser then ignores what is written to
    [document.cookie], and every use of [localStorage] throws.  A browser
    that ignores the writes may still hand out the cookies that it holds
    ([cookiesReadable]), or read as the empty string. *)
Record Browser : Type := {
  (** [document.cookie] accepts what is written to it, and reads as the jar *)
  cookiesEnabled : bool;
  cookieJar : list (string * string);
  localStorageAvailable : bool;
  localStorageItems : gmap string string;
  (** [document.cookie] reads as the jar also when it refuses the writes *)
  cookiesReadable : bool
}.

Definition set_cookieJar (f : list (string * string) -> list (string * string))
    (b : Browser) : Browser :=
  {| cookiesEnabled := cookiesEnabled b;
     cookieJar := if cookiesEnabled b then f (cookieJar b) else cookieJar b;
     localStorageAvailable := localStorageAvailable b;
     localStorageItems := localStorageItems b;
     cookiesReadable := cookiesReadable b |}.

Definition set_localStorageItems (f : gmap string string -> gmap string string)
    (b : Browser) : Browser :=
  {| cookiesEnabled := cookiesEnabled b;
     cookieJar := cookieJar b;
     localStorageAvailable := localStorageAvailable b;
     localStorageItems := f (localStorageItems b);
     cookiesReadable := cookiesReadable b |}.

(** Reading [document.cookie]: the pairs [name=value], separated by a
    semicolon and a space. *)
Definition cookie_pair (c : string * string) : string :=
  if String.eqb (fst c) "" then snd c else fst c +:+ "=" +:+ snd c.

Fixpoint cookie_string (jar : list (string * string)) : string :=
  match jar with
  | [] => ""
  | c :: rest =>
      cookie_pair c +:+
      match rest with
      | [] => ""
      | _ :: _ => "; " +:+ cookie_string rest
      end
  end.

Definition document_cookie (b : Browser) : string :=
  if cookiesEnabled b || cookiesReadable b then cookie_string (cookieJar b) else "".

(** Writing [name=value;expires=...] to [document.cookie] with a date in the
    future: the cookie of that name gets the value, or a new cookie is added. *)
Fixpoint jar_put (n v : string) (jar : list (string * string))
  : list (string * string) :=
  match jar with
  | [] => [(n, v)]
  | (n', v') :: rest =>
      if String.eqb n n' then (n, v) :: rest else (n', v') :: jar_put n v rest
  end.

(** Writing [name=;expires=...] with a date in the past: the cookie goes. *)
Definition jar_expire (n : string) (jar : list (string * string))
  : list (string * string) :=
  List.filter (fun c => negb (String.eqb n (fst c))) jar.

Definition localStorage_getItem (key : string) (b : Browser)
  : completion (option string) :=
  if localStorageAvailable b then Returned (localStorageItems b !! key)
  else Thrown DOMError.

Definition localStorage_setItem (key value : string) : M Browser unit :=
  fun b =>
    if localStorageAvailable b
    then (set_localStorageItems (insert key value) b, Returned tt)
    else (b, Thrown DOMError).

(** ** [init.js]: the regular expressions *)

(** A literal searched anywhere in a string: [/literal/.test(s)] and
    [s.indexOf(literal) !== -1]. *)
Fixpoint search_lit (p s : string) : bool :=
  starts_with p s
  || match s with
     | EmptyString => false
     | String _ r => search_lit p r
     end.

(** The class [\s]: the white space and the line terminators of ECMAScript, as
    sequences of one, two and three bytes. *)
Definition ws1 (c : ascii) : bool :=
  let n := code c in
  ((9 <=? n) && (n <=? 13))%N || (n =? 32)%N.

Definition ws2 (c1 c2 : ascii) : bool :=
  (code c1 =? 194)%N && (code c2 =? 160)%N.

Definition ws3 (c1 c2 c3 : ascii) : bool :=
  let a := code c1 in let b := code c2 in let c := code c3 in
  ((a =? 225) && (b =? 154) && (c =? 128))%N
  || ((a =? 226) && (b =? 128)
      && (((128 <=? c) && (c <=? 138)) || (c =? 168) || (c =? 169) || (c =? 175)))%N
  || ((a =? 226) && (b =? 129) && (c =? 159))%N
  || ((a =? 227) && (b =? 128) && (c =? 128))%N
  || ((a =? 239) && (b =? 187) && (c =? 191))%N.

Definition or_else {A} (a b : option A) : option A :=
  match a with Some _ => a | None => b end.

(** [\s*] followed by the rest [k] of a pattern: the longest run of white
    space is tried first, then the shorter ones. *)
Fixpoint skip_ws {A} (k : string -> option A) (s : string) : option A :=
  match s with
  | String c1 r1 =>
      if ws1 c1 then or_else (skip_ws k r1) (k s)
      else
        match r1 with
        | String c2 r2 =>
            if ws2 c1 c2 then or_else (skip_ws k r2) (k s)
            else
              match r2 with
              | String c3 r3 =>
                  if ws3 c1 c2 c3 then or_else (skip_ws k r3) (k s) else k s
              | EmptyString => k s
              end
        | EmptyString => k s
        end
  | EmptyString => k s
  end.

(** [name=([^;]+)(?:;|$)] at a position: the capture is the longest run of
    characters other than a semicolon, and it is not empty. *)
Definition cookie_value_here (name : string) (s : string) : option string :=
  match strip_prefix (name +:+ "=") s with
  | Some r =>
      let v := fst (span (fun x => negb (is_char ";" x)) r) in
      if nonempty v then Some v else None
  | None => None
  end.

(** [new RegExp('(?:^|;)\\s*' + name + '=([^;]+)(?:;|$)')] matched against
    [s], for a [name] that is a literal of the regular expression: the first
    capture of the leftmost match.  [bol] tells whether [s] starts at the
    beginning of the input. *)
Fixpoint cookie_regexp_from (bol : bool) (name : string) (s : string)
  : option string :=
  or_else (if bol then skip_ws (cookie_value_here name) s else None)
    match s with
    | EmptyString => None
    | String c r =>
        or_else (if is_char ";" c then skip_ws (cookie_value_here name) r else None)
                (cookie_regexp_from false name r)
    end.

Definition cookie_regexp_match (name : string) (s : string) : option string :=
  cookie_regexp_from true name s.

(** [/[?&]([^=]+)=([^&]+)/] at a position: the two captures and the length of
    the match. *)
Definition key_pair_here (s : string) : option (string * string * nat) :=
  match s with
  | String c r =>
      if is_char "?" c || is_char "&" c then
        let (k, r1) := span (fun x => negb (is_char "=" x)) r in
        match r1 with
        | String _ r2 =>
            let v := fst (span (fun x => negb (is_char "&" x)) r2) in
            if nonempty k && nonempty v
            then Some (k, v, (2 + String.length k + String.length v)%nat)
            else None
        | EmptyString => None
        end
      else None
  | EmptyString => None
  end.

(** The successive results of [regexpUrlParams.exec(s)] (flag [g]) until it
    returns [null]: after a match the search goes on where the match ended;
    [skip] counts the characters of the last match that are still ahead. *)
Fixpoint key_pairs_from (skip : nat) (s : string) : list (string * string) :=
  match s with
  | EmptyString => []
  | String _ r =>
      match skip with
      | S n => key_pairs_from n r
      | O =>
          match key_pair_here s with
          | Some (k, v, len) => (k, v) :: key_pairs_from (len - 1) r
          | None => key_pairs_from 0 r
          end
      end
  end.

Definition key_pairs (s : string) : list (string * string) := key_pairs_from 0 s.

(** ** [init.js]: the settings store *)

(** The global object [params]: a property that is absent reads as
    [undefined]. *)
Definition param (params : gmap string jsval) (key : string) : jsval :=
  default JUndefined (params !! key).

(** [params.storeType === t] *)
Definition storeType_is (params : gmap string jsval) (t : string) : bool :=
  jsval_eqb (param params "storeType") (JStr t).

(** [params.keyPrefix + name] *)
Definition prefixed (params : gmap string jsval) (name : string) : string :=
  ToString (param params "keyPrefix") +:+ name.

(** The last line of getSetting: [null] and ['undefined'] are [null],
    ['true'] and ['false'] are the booleans, anything else is itself. *)
Definition setting_value (result : jsval) : jsval :=
  if jsval_eqb result JNull || jsval_eqb result (JStr "undefined") then JNull
  else if jsval_eqb result (JStr "true") then JBool true
  else if jsval_eqb result (JStr "false") then JBool false
  else result.

(** getSetting, for a [name] that is a literal of the regular expression
    built from it (it reads the stores and changes nothing). *)
Definition getSetting (params : gmap string jsval) (name : string) (b : Browser)
  : completion jsval :=
  if storeType_is params "cookie" then
    match cookie_regexp_match name (document_cookie b) with
    | Some raw =>
        match decodeURIComponent raw with
        | Some text => Returned (setting_value (JStr text))
        | None => Thrown URIError
        end
    | None => Returned (setting_value JNull)
    end
  else if storeType_is params "local_storage" then
    match localStorage_getItem (prefixed params name) b with
    | Returned (Some text) => Returned (setting_value (JStr text))
    | Returned None => Returned (setting_value JNull)
    | Thrown e => Thrown e
    end
  else Returned (setting_value JUndefined).

(** setSetting *)
Definition setSetting (params : gmap string jsval) (name : string) (val : jsval)
  : M Browser unit :=
  (when (storeType_is params "cookie")
     (modify (set_cookieJar
                (jar_put (encodeURIComponent name)
                         (encodeURIComponent (ToString val))))) ;;
   let val := if jsval_eqb val (JStr "false") then JBool false
              else if jsval_eqb val (JStr "true") then JBool true
              else val in
   when (storeType_is params "local_storage")
     (localStorage_setItem (prefixed params name) (ToString val)))%js.

(** getBestAvailableStorageAPI: the test key and the test cookie are written
    and removed again. *)
Definition getBestAvailableStorageAPI : M Browser string :=
  (b <- get_state ;;
   let localStorageTest := localStorageAvailable b in
   when localStorageTest
     (modify (set_localStorageItems (delete "tempKiwixStorageTest"))) ;;
   modify (set_cookieJar (jar_put "tempKiwixCookieTest" "working")) ;;
   b1 <- get_state ;;
   let kiwixCookieTest :=
     search_lit "tempKiwixCookieTest=working" (document_cookie b1) in
   modify (set_cookieJar (jar_expire "tempKiwixCookieTest")) ;;
   b2 <- get_state ;;
   let type := if kiwixCookieTest then "cookie" else "none" in
   let type :=
     if localStorageTest &&
        negb (search_lit "contentInjectionMode=jquery" (document_cookie b2)
              || search_lit "contentInjectionMode=serviceworker" (document_cookie b2))
     then "local_storage" else type in
   ret type)%js.

(** ** [init.js]: the resolution of the parameters *)

(** The state of the script: the stores of the browser, the global [params],
    and the [src] of the iframe [kiwixComm] when it has been added. *)
Record Init : Type := {
  browser : Browser;
  params : gmap string jsval;
  kiwixComm : option string
}.

(** What the script reads from the page it runs in. *)
Record Location : Type := {
  (** ['serviceWorker' in navigator] *)
  hasServiceWorker : bool;
  (** [window.location.search] and [window.location.href] *)
  search : string;
  href : string
}.

(** [params[key] = v].  [params] is a plain object: an assignment to the key
    ['__proto__'] runs the setter of [Object.prototype], which creates no
    property, and which does nothing at all with a value that is not an
    object (the script assigns strings and booleans under the keys of the
    querystring). *)
Definition set_param (key : string) (v : jsval) : M Init unit :=
  if String.eqb key "__proto__" then ret tt
  else modify (fun st => {| browser := browser st;
                            params := <[key := v]> (params st);
                            kiwixComm := kiwixComm st |}).

Definition set_kiwixComm (src : string) : M Init unit :=
  modify (fun st => {| browser := browser st;
                       params := params st;
                       kiwixComm := Some src |}).

(** A function on the stores, run by the script. *)
Definition on_browser {A} (m : M Browser A) : M Init A :=
  fun st =>
    let (b, r) := m (browser st) in
    ({| browser := b; params := params st; kiwixComm := kiwixComm st |}, r).

Definition get_setting (name : string) : M Init jsval :=
  fun st => (st, getSetting (params st) name (browser st)).

Definition set_setting (name : string) (val : jsval) : M Init unit :=
  fun st => on_browser (setSetting (params st) name val) st.

Definition decode (s : string) : M Init string :=
  match decodeURIComponent s with
  | Some t => ret t
  | None => throw URIError
  end.

(** [params[key] = getSetting(name) === true], and the like. *)
Definition is_true (v : jsval) : jsval := JBool (jsval_eqb v (JBool true)).
Definition is_not_false (v : jsval) : jsval := JBool (negb (jsval_eqb v (JBool false))).

(** The assignments of lines 42 to 79. *)
Definition defaultParams (loc : Location) : M Init unit :=
  (set_param "appVersion" (JStr "3.10.0") ;;
   set_param "PWAServer" (JStr "https://browser-extension.kiwix.org/current/") ;;
   t <- on_browser getBestAvailableStorageAPI ;;
   set_param "storeType" (JStr t) ;;
   set_param "keyPrefix" (JStr "kiwixjs-") ;;
   v <- get_setting "hideActiveContentWarning" ;;
   set_param "hideActiveContentWarning" (is_true v) ;;
   v <- get_setting "showUIAnimations" ;;
   set_param "showUIAnimations" (is_not_false v) ;;
   v <- get_setting "maxSearchResultsSize" ;;
   set_param "maxSearchResultsSize" (js_or v (JNum Byte.x19)) ;;
   v <- get_setting "assetsCache" ;;
   set_param "assetsCache" (is_not_false v) ;;
   v <- get_setting "appCache" ;;
   set_param "appCache" (is_not_false v) ;;
   v <- get_setting "appTheme" ;;
   set_param "appTheme" (js_or v (JStr "light")) ;;
   v <- get_setting "useHomeKeyToFocusSearchBar" ;;
   set_param "useHomeKeyToFocusSearchBar" (is_true v) ;;
   v <- get_setting "openExternalLinksInNewTabs" ;;
   set_param "openExternalLinksInNewTabs" (is_not_false v) ;;
   v <- get_setting "languageOverride" ;;
   set_param "overrideBrowserLanguage" v ;;
   v <- get_setting "disableDragAndDrop" ;;
   set_param "disableDragAndDrop" (is_true v) ;;
   v <- get_setting "referrerExtensionURL" ;;
   set_param "referrerExtensionURL" v ;;
   v <- get_setting "defaultModeChangeAlertDisplayed" ;;
   set_param "defaultModeChangeAlertDisplayed" v ;;
   v <- get_setting "contentInjectionMode" ;;
   set_param "contentInjectionMode"
     (js_or v (JStr (if hasServiceWorker loc then "serviceworker" else "jquery"))) ;;
   set_param "useCanvasElementsForWebpTranscoding" JNull)%js.

(** ['true'] and ['false'] become the booleans:
    [paramVal === 'true' || (paramVal === 'false' ? false : paramVal)]. *)
Definition boolean_if_literal (paramVal : string) : jsval :=
  if String.eqb paramVal "true" then JBool true
  else if String.eqb paramVal "false" then JBool false
  else JStr paramVal.

(** The body of the loop of overrideParams for one match. *)
Definition override_one (m : string * string) : M Init unit :=
  (when (nonempty (fst m) && nonempty (snd m))
     (paramKey <- decode (fst m) ;;
      paramVal <- decode (snd m) ;;
      when (negb (String.eqb paramKey "title"))
        (let paramVal := boolean_if_literal paramVal in
         set_setting paramKey paramVal ;;
         set_param paramKey paramVal)))%js.

Fixpoint override_loop (matches : list (string * string)) : M Init unit :=
  match matches with
  | [] => ret tt
  | m :: rest => (override_one m ;; override_loop rest)%js
  end.

(** overrideParams: the loop over the key pairs of the querystring, then the
    message to the extension that launched the PWA. *)
Definition overrideParams (loc : Location) : M Init unit :=
  (override_loop (key_pairs (search loc)) ;;
   st <- get_state ;;
   when (truthy (param (params st) "referrerExtensionURL") &&
         search_lit (ToString (param (params st) "PWAServer")) (href loc))
     (set_kiwixComm (ToString (param (params st) "referrerExtensionURL")
                     +:+ "/www/index.html" +:+ "?PWA_launch=success")))%js.

(** Line 126. *)
Definition forceAppCache : M Init unit :=
  (st <- get_state ;;
   set_param "appCache"
     (if jsval_eqb (param (params st) "contentInjectionMode") (JStr "jquery")
      then JBool true else param (params st) "appCache"))%js.

(** The script from [var params = {}] to line 126.  The lines that follow copy
    the parameters to the controls of the page, record a [PWA_launch] message
    of the querystring in [localStorage] and load the WebP polyfill; they do
    not assign [params]. *)
Definition resolveParams (loc : Location) : M Init unit :=
  (defaultParams loc ;;
   overrideParams loc ;;
   forceAppCache)%js.

(** The state in which the script starts. *)
Definition at_script_start (b : Browser) : Init :=
  {| browser := b; params := ∅; kiwixComm := None |}.

(** ** The settings store, read as a table

    The cookies that a browser hands out have a name made of visible ASCII
    characters other than the semicolon and the equals sign, a value without a
    semicolon, and names that differ from one another. *)

Definition cookie_name_char (c : ascii) : bool :=
  ((33 <=? code c) && (code c <=? 126))%N
  && negb (is_char ";" c) && negb (is_char "=" c).

Definition wf_cookie (c : string * string) : bool :=
  nonempty (fst c) && string_forallb cookie_name_char (fst c)
  && string_forallb (fun x => negb (is_char ";" x)) (snd c).

Fixpoint wf_jar (jar : list (string * string)) : bool :=
  match jar with
  | [] => true
  | c :: rest =>
      wf_cookie c
      && negb (List.existsb (fun c' => String.eqb (fst c) (fst c')) rest)
      && wf_jar rest
  end.

(** The value of the cookie [name], when it has one that is not empty. *)
Fixpoint jar_find (name : string) (jar : list (string * string)) : option string :=
  match jar with
  | [] => None
  | (n, v) :: rest =>
      if String.eqb n name && nonempty v then Some v else jar_find name rest
  end.

(** The names of the settings of the application are identifiers: letters,
    digits and a few marks that are neither special in a regular expression
    nor escaped by [encodeURIComponent]. *)
Definition setting_name_char (c : ascii) : bool :=
  uri_unreserved c && negb (regexp_special c).

Definition plain_name (name : string) : bool :=
  nonempty name && string_forallb setting_name_char name.

(** The values that the settings store hands out. *)
Definition is_setting_value (v : jsval) : bool :=
  match v with
  | JNull | JBool _ | JStr _ => true
  | JUndefined | JNum _ => false
  end.

(** What getSetting makes of a stored text. *)
Definition value_of_text (stored : option string) : jsval :=
  match stored with
  | None => JNull
  | Some text =>
      if String.eqb text "undefined" then JNull
      else if String.eqb text "true" then JBool true
      else if String.eqb text "false" then JBool false
      else JStr text
  end.

(** ** The override loop, read as a table *)

(** The matches of the querystring with both captures decoded, when every
    capture can be decoded. *)
Fixpoint decode_pairs (matches : list (string * string))
  : option (list (string * string)) :=
  match matches with
  | [] => Some []
  | (k, v) :: rest =>
      match decodeURIComponent k, decodeURIComponent v, decode_pairs rest with
      | Some key, Some text, Some l => Some ((key, text) :: l)
      | _, _, _ => None
      end
  end.

(** The value of the last pair of the list whose key is [key]. *)
Fixpoint last_value (key : string) (pairs : list (string * string)) : option string :=
  match pairs with
  | [] => None
  | (k, v) :: rest =>
      match last_value key rest with
      | Some text => Some text
      | None => if String.eqb k key then Some v else None
      end
  end.

Definition overrides (key : string) (pairs : list (string * string)) : bool :=
  List.existsb (fun p => String.eqb (fst p) key) pairs.

(** The value of the first cookie of that name. *)
Fixpoint jar_get (n : string) (jar : list (string * string)) : option string :=
  match jar with
  | [] => None
  | (n', v) :: rest => if String.eqb n n' then Some v else jar_get n rest
  end.

(** The cookies of that name. *)
Definition cookies_named (n : string) (jar : list (string * string))
  : list (string * string) :=
  List.filter (fun c => String.eqb n (fst c)) jar.

(** A store is in use and available. *)
Definition store_ready (ps : gmap string jsval) (b : Browser) : bool :=
  (storeType_is ps "cookie" && cookiesEnabled b)
  || (storeType_is ps "local_storage" && localStorageAvailable b).

(** What the store in use holds for the setting [key]: the value of the
    cookie of the encoded name, or the entry of [localStorage] under the
    prefixed key. *)
Definition store_entry (ps : gmap string jsval) (key : string) (b : Browser)
  : option string :=
  if storeType_is ps "cookie" then jar_get (encodeURIComponent key) (cookieJar b)
  else if storeType_is ps "local_storage" then localStorageItems b !! prefixed ps key
  else None.

(** The form in which the store in use holds a text. *)
Definition stored_form (ps : gmap string jsval) (text : string) : string :=
  if storeType_is ps "cookie" then encodeURIComponent text else text.

(** ** Definitions used in the statements *)

(** The states of the examples. *)
Definition cookie_params : gmap string jsval :=
  {[ "storeType" := JStr "cookie"; "keyPrefix" := JStr "kiwixjs-" ]}.

Definition local_storage_params : gmap string jsval :=
  {[ "storeType" := JStr "local_storage"; "keyPrefix" := JStr "kiwixjs-" ]}.

Definition empty_browser : Browser :=
  {| cookiesEnabled := true; cookieJar := [];
     localStorageAvailable := true; localStorageItems := ∅;
     cookiesReadable := true |}.

(** What follows a cookie in [document.cookie]. *)
Definition cookie_tail (rest : list (string * string)) : string :=
  match rest with
  | [] => ""
  | _ :: _ => "; " +:+ cookie_string rest
  end.

(** What the first pass of the decoding makes of the encoding of a byte. *)
Definition escaped_token (c : ascii) : bool * ascii := (negb (uri_unreserved c), c).

Definition escaped_tokens (s : string) : list (bool * ascii) :=
  List.map escaped_token (list_ascii_of_string s).

(** Two states of [params] that select the same store and the same prefix. *)
Definition same_store (ps ps' : gmap string jsval) : Prop :=
  param ps' "storeType" = param ps "storeType"
  /\ param ps' "keyPrefix" = param ps "keyPrefix".

(** A weakest-precondition reading of [M]: the postcondition holds of the state
    and of the completion that the computation reaches. *)
Definition wp {S A} (m : M S A) (Q : S -> completion A -> Prop) (s : S) : Prop :=
  Q (fst (m s)) (snd (m s)).

(** The theme that an earlier call left in [dataset.theme] is a valid pair of
    class tokens when it has no ASCII whitespace. *)
Definition old_theme_valid (p : Page) : Prop :=
  string_existsb ascii_whitespace (default "" (htmlDatasetTheme p)) = false.

(** A computation that leaves the classes of the root and of the footer and
    the recorded theme as they are. *)
Definition keeps_theme {A} (m : M Page A) : Prop :=
  forall q, htmlClassList (fst (m q)) = htmlClassList q
            /\ footerClassList (fst (m q)) = footerClassList q
            /\ htmlDatasetTheme (fst (m q)) = htmlDatasetTheme q.

(** The page carries the two classes of a theme and records the theme. *)
Definition theme_applied (app content : string) (p : Page) : Prop :=
  In app (htmlClassList p) /\ In content (footerClassList p)
  /\ htmlDatasetTheme p = Some (app +:+ content).

(** The set-up flags say whether the listeners are attached, and they are
    attached once: [ac] and [dl] tell whether the two functions have been
    called. *)
Definition alerts_inv (ac dl : bool) (s : Alerts) : Prop :=
  activeContentWarningSetup s = ac /\ downloadAlertSetup s = dl
  /\ activeContentDismissListeners s = (if ac then 1 else 0)%nat
  /\ swModeLinkListeners s = (if ac then 1 else 0)%nat
  /\ stopListeners s = (if ac then 1 else 0)%nat
  /\ downloadDismissListeners s = (if dl then 1 else 0)%nat.

(** Total correctness: from every state where [P] holds the computation
    returns, with a value and a state that satisfy [Q]. *)
Definition hoare {S A} (P : S -> Prop) (m : M S A) (Q : A -> S -> Prop) : Prop :=
  forall s, P s -> exists s' a, m s = (s', Returned a) /\ Q a s'.

(** [localStorage] is the store in use, and it is available. *)
Definition local_storage_in_use (st : Init) : Prop :=
  storeType_is (params st) "local_storage" = true
  /\ localStorageAvailable (browser st) = true.

Definition storage_available (st : Init) : Prop :=
  localStorageAvailable (browser st) = true.

(** [localStorage] is available and the page has no cookie. *)
Definition fresh_profile (st : Init) : Prop :=
  localStorageAvailable (browser st) = true /\ cookieJar (browser st) = [].
From Stdlib Require QArith.


(** * More of [init.js] and [uiUtil.js] *)

(** ** applyAppTheme: the parts of a theme *)

(** The theme of the application shell that applyAppTheme resolves from the
    theme string and from the preference of the system. *)
Definition resolved_app_theme (theme : string) (p : Page) : string :=
  if starts_with "auto" theme then (if prefersDark p then "dark" else "light")
  else strip_content_theme theme.

(** The two parts of the theme that the page records. *)
Definition old_app_theme (p : Page) : string :=
  strip_content_theme (str_or (default "" (htmlDatasetTheme p)) "").

Definition old_content_theme (p : Page) : string :=
  strip_app_theme (str_or (default "" (htmlDatasetTheme p)) "").

(** ** [uiUtil.js]: warnAndOpenExternalLinkInNewTab *)

(** The anchor that was clicked: its [href] and its [target] (the empty string
    when the attribute is absent). *)
Record Anchor : Type := {
  anchor_href : string;
  anchor_target : string
}.

(** [promise.then(onFulfilled)]: what [onFulfilled] has returned, once the
    promise is fulfilled. *)
Definition promise_then {A} (p : option promise) (onFulfilled : bool -> A) : option A :=
  match p with
  | Some (Fulfilled v) => Some (onFulfilled v)
  | _ => None
  end.

(** The message of the dialog. *)
Definition external_link_message (clickedAnchor : Anchor) : string :=
  let target := anchor_target clickedAnchor in
  "<p>Do you want to open this external link?"
  +:+ (if negb (nonempty target) || String.eqb target "_blank"
       then " (in a new tab)" else "")
  +:+ "</p><p style=" +:+ String "034" "word-break:break-all;"
  +:+ String "034" ">" +:+ anchor_href clickedAnchor +:+ "</p>".

(** The function returns the page with the dialog shown, the index of the
    promise of systemAlert, and the callback given to [then]: the call of
    [window.open] that it makes, if any, as the pair of its arguments. *)
Definition warnAndOpenExternalLinkInNewTab
    (eventTarget : Anchor) (clickedAnchor : option Anchor) (m : Modal)
  : Modal * nat * (bool -> option (string * string)) :=
  let clickedAnchor := default eventTarget clickedAnchor in
  let target := anchor_target clickedAnchor in
  let message := external_link_message clickedAnchor in
  let (m', this) :=
    systemAlert (JStr message) (JStr "Opening external link") true
      JUndefined JUndefined JUndefined m in
  (m', this,
   fun response : bool =>
     if response then
       Some (anchor_href clickedAnchor, if nonempty target then target else "_blank")
     else None).

(** ** [uiUtil.js]: removeAnimationClasses and applyAnimationToSection *)

(** The three sections of the page. *)
Inductive section_el : Type := configuration | about | articleContent.

Definition section_el_eqb (a b : section_el) : bool :=
  match a, b with
  | configuration, configuration | about, about | articleContent, articleContent => true
  | _, _ => false
  end.

(** Their classes and their [style.display], and the callbacks that
    [setTimeout] holds: each sets the [style.display] of a section. *)
Record Sections : Type := {
  classList : section_el -> list string;
  styleDisplay : section_el -> string;
  timeouts : list (section_el * string)
}.

Definition classList_add (el : section_el) (t : string) (s : Sections) : Sections :=
  {| classList := fun e => if section_el_eqb e el then token_add t (classList s e)
                           else classList s e;
     styleDisplay := styleDisplay s;
     timeouts := timeouts s |}.

Definition classList_remove (el : section_el) (t : string) (s : Sections) : Sections :=
  {| classList := fun e => if section_el_eqb e el then token_remove t (classList s e)
                           else classList s e;
     styleDisplay := styleDisplay s;
     timeouts := timeouts s |}.

Definition set_styleDisplay (el : section_el) (v : string) (s : Sections) : Sections :=
  {| classList := classList s;
     styleDisplay := fun e => if section_el_eqb e el then v else styleDisplay s e;
     timeouts := timeouts s |}.

(** [setTimeout(function () { el.style.display = v; }, 300)] *)
Definition setTimeout (el : section_el) (v : string) (s : Sections) : Sections :=
  {| classList := classList s;
     styleDisplay := styleDisplay s;
     timeouts := timeouts s ++ [(el, v)] |}.

Definition removeAnimationClasses (s : Sections) : Sections :=
  let s := classList_remove configuration "slideIn_L" s in
  let s := classList_remove configuration "slideIn_R" s in
  let s := classList_remove configuration "slideOut_L" s in
  let s := classList_remove configuration "slideOut_R" s in
  let s := classList_remove about "slideIn_L" s in
  let s := classList_remove about "slideOut_R" s in
  let s := classList_remove articleContent "slideIn_R" s in
  let s := classList_remove articleContent "slideOut_L" s in
  s.

(** [hidden] is what [$(el).is(':hidden')] answers during the call: the call
    changes classes only, and the displays change when the timeouts run. *)
Definition applyAnimationToSection (section : string) (hidden : section_el -> bool)
    (s : Sections) : Sections :=
  if String.eqb section "home" then
    let s := if negb (hidden configuration)
             then setTimeout configuration "none"
                    (classList_add configuration "slideOut_R" s)
             else s in
    let s := if negb (hidden about)
             then setTimeout about "none" (classList_add about "slideOut_R" s)
             else s in
    let s := classList_add articleContent "slideIn_R" s in
    setTimeout articleContent "" s
  else if String.eqb section "config" then
    let s := if negb (hidden about)
             then setTimeout about "none"
                    (classList_add configuration "slideIn_R"
                       (classList_add about "slideOut_R" s))
             else if negb (hidden articleContent)
             then setTimeout articleContent "none"
                    (classList_add articleContent "slideOut_L"
                       (classList_add configuration "slideIn_L" s))
             else s in
    setTimeout configuration "" s
  else if String.eqb section "about" then
    let s := if negb (hidden configuration)
             then setTimeout configuration "none"
                    (classList_add configuration "slideOut_L" s)
             else s in
    let s := if negb (hidden articleContent)
             then setTimeout articleContent "none"
                    (classList_add articleContent "slideOut_L" s)
             else s in
    let s := classList_add about "slideIn_L" s in
    setTimeout about "" s
  else s.

(** The timeouts run, in the order in which they were set (they have the same
    delay). *)
Definition run_timeouts (s : Sections) : Sections :=
  fold_left (fun s t => set_styleDisplay (fst t) (snd t) s) (timeouts s)
    {| classList := classList s; styleDisplay := styleDisplay s; timeouts := [] |}.

(** ** [uiUtil.js]: isElementInView *)

(** The rectangle of [getBoundingClientRect] and the size of the window, in
    CSS pixels: finite numbers, compared exactly. *)
Record DOMRect : Type := {
  rect_top : QArith_base.Q;
  rect_bottom : QArith_base.Q;
  rect_left : QArith_base.Q;
  rect_right : QArith_base.Q
}.

(** [x < y] *)
Definition Qltb (x y : QArith_base.Q) : bool := negb (QArith_base.Qle_bool y x).

Definition isElementInView (rect : DOMRect) (innerWidth innerHeight : QArith_base.Q)
    (fully : bool) : bool :=
  let zero := QArith_base.Qmake 0 1 in
  if fully then
    Qltb zero (rect_top rect) && Qltb (rect_bottom rect) innerHeight
    && Qltb zero (rect_left rect) && Qltb (rect_right rect) innerWidth
  else
    Qltb (rect_top rect) innerHeight && Qltb zero (rect_bottom rect)
    && Qltb (rect_left rect) innerWidth && Qltb zero (rect_right rect).

(** ** [uiUtil.js]: the return link of applyAppTheme *)

(** What applyAppTheme leaves alone until it shows the return link: whether
    the configuration tab is active, the title of the article, the listeners
    of the return link, and whether the page has the return link. *)
Definition shell_of (p : Page) : bool * option string * nat * bool :=
  (configureNavActive p, option_map docTitle (contentDocument p),
   viewArticleListeners p, bool_decide (is_Some (displays p !! "viewArticle"))).

(** A computation that returns and leaves these alone. *)
Definition quiet (m : M Page unit) : Prop :=
  forall q, snd (m q) = Returned tt /\ shell_of (fst (m q)) = shell_of q.

(** The user is on the configuration page, an article is loaded in the
    iframe, and [n] click listeners are attached to the return link. *)
Definition return_link_ready (n : nat) (p : Page) : Prop :=
  old_theme_valid p
  /\ configureNavActive p = true
  /\ (exists title, option_map docTitle (contentDocument p) = Some title
        /\ title <> "Placeholder for injecting an article into the iframe")
  /\ is_Some (displays p !! "viewArticle")
  /\ viewArticleListeners p = n.

(** The themes that the user selects one after the other. *)
Fixpoint applyAppThemes (themes : list string) : M Page unit :=
  match themes with
  | [] => ret tt
  | theme :: rest => (applyAppTheme theme ;; applyAppThemes rest)%js
  end.

(** ** [uiUtil.js]: the hyperlinks of the active content warning *)

(** The clicks on one of the two hyperlinks that come after the first call of
    displayActiveContentWarning ([setup] tells whether it has been called). *)
Fixpoint hyperlink_clicks (setup : bool) (evs : list alert_event) : nat :=
  match evs with
  | [] => 0
  | CallActiveContentWarning :: rest => hyperlink_clicks true rest
  | ClickHyperlink id :: rest =>
      (if setup && (String.eqb id "stop" || String.eqb id "swModeLink") then 1 else 0)
      + hyperlink_clicks setup rest
  | _ :: rest => hyperlink_clicks setup rest
  end.

(** ** [init.js]: the parameters that are read back from the store *)

(** The parameters that lines 50 to 76 read from the setting of the same
    name, with what they make of the value that getSetting returns. *)
Definition stored_params (loc : Location) : list (string * (jsval -> jsval)) :=
  [ ("hideActiveContentWarning", is_true);
    ("showUIAnimations", is_not_false);
    ("maxSearchResultsSize", fun v => js_or v (JNum Byte.x19));
    ("assetsCache", is_not_false);
    ("appTheme", fun v => js_or v (JStr "light"));
    ("useHomeKeyToFocusSearchBar", is_true);
    ("openExternalLinksInNewTabs", is_not_false);
    ("disableDragAndDrop", is_true);
    ("referrerExtensionURL", fun v => v);
    ("defaultModeChangeAlertDisplayed", fun v => v);
    ("contentInjectionMode",
     fun v => js_or v (JStr (if hasServiceWorker loc then "serviceworker"
                             else "jquery"))) ].

(** ** [init.js]: the message of the PWA (lines 196 to 201) *)

(** [/PWA_launch=([^&]+)/.exec(s)]: the capture of the leftmost match. *)
Fixpoint PWA_launch_exec (s : string) : option string :=
  match s with
  | EmptyString => None
  | String _ r =>
      match strip_prefix "PWA_launch=" s with
      | Some rest =>
          let v := fst (span (fun x => negb (is_char "&" x)) rest) in
          if nonempty v then Some v else PWA_launch_exec r
      | None => PWA_launch_exec r
      end
  end.

(** The branch that records the message; the result tells whether it was
    taken (the other branch tests the support of WebP). *)
Definition registerPWALaunch (loc : Location) : M Init bool :=
  if search_lit "PWA_launch=" (search loc) then
    match PWA_launch_exec (search loc) with
    | None => throw TypeError
    | Some v =>
        (st <- get_state ;;
         on_browser (localStorage_setItem (prefixed (params st) "PWA_launch") v) ;;
         when (String.eqb v "success")
           (on_browser
              (localStorage_setItem
                 (prefixed (params st) "defaultModeChangeAlertDisplayed") "true")) ;;
         ret true)%js
    end
  else ret false.

(** ** [init.js]: the script at a launch *)


(** ** [uiUtil.js]: the click listener of the return link *)

(** What the listener that showReturnLink attaches does to the three
    sections: [params.showUIAnimations] selects the animation. *)
Definition viewArticle_click (showUIAnimations : bool) (hidden : section_el -> bool)
    (s : Sections) : Sections :=
  let s := removeAnimationClasses s in
  if showUIAnimations then applyAnimationToSection "home" hidden s
  else set_styleDisplay articleContent "block"
         (set_styleDisplay configuration "none" s).

(** * Properties *)

(** ** Strings *)

Lemma replace_tail_split (m : ascii -> string -> bool) (s : string) :
  replace_tail m s = s \/
  exists c r, s = replace_tail m s +:+ String c r /\ m c r = true.
Proof.
  induction s as [|a s IH]; simpl.
  - now left.
  - destruct (m a s) eqn:E.
    + right. exists a, s. now split.
    + destruct IH as [IH | (c & r & IH & Hm)].
      * left. now rewrite IH.
      * right. exists c, r. split; [|exact Hm].
        change (String a s = String a (replace_tail m s +:+ String c r)).
        now rewrite <- IH.
Qed.

Lemma replace_tail_id (m : ascii -> string -> bool) (p : ascii -> bool) (s : string) :
  (forall c r, m c r = true -> p c = true) ->
  string_existsb p s = false -> replace_tail m s = s.
Proof.
  intros Hm. induction s as [|a s IH]; simpl; [reflexivity|].
  intros H. apply orb_false_iff in H as [Ha Hs].
  destruct (m a s) eqn:E.
  - apply Hm in E. congruence.
  - now rewrite IH.
Qed.

Lemma append_empty_r (s : string) : s +:+ "" = s.
Proof. induction s; simpl; congruence. Qed.

Lemma append_assoc (a b c : string) : (a +:+ b) +:+ c = a +:+ (b +:+ c).
Proof. induction a; simpl; congruence. Qed.

Lemma existsb_app (p : ascii -> bool) (a b : string) :
  string_existsb p (a +:+ b) = string_existsb p a || string_existsb p b.
Proof.
  induction a as [|c a IH]; simpl; [reflexivity|].
  now rewrite IH, orb_assoc.
Qed.

(** ** removeUrlParameters *)

(** C10. For every [url], [removeUrlParameters url] is a prefix of [url]: what
    is removed is at most one anchor segment (a ['#'] followed by characters
    other than ['#'] and [';']) followed by at most one querystring segment (a
    ['?'] followed by characters other than ['?']).  A [url] without ['?'] and
    without ['#'] is returned as it is. *)
Theorem removeUrlParameters_prefix (url : string) :
  (exists anchor query,
      url = removeUrlParameters url +:+ anchor +:+ query
      /\ (query = "" \/ exists r, query = String "?" r
            /\ string_existsb (is_char "?") r = false)
      /\ (anchor = "" \/ exists r, anchor = String "#" r
            /\ string_existsb (fun x => is_char "#" x || is_char ";" x) r = false))
  /\ (string_existsb (fun x => is_char "?" x || is_char "#" x) url = false ->
      removeUrlParameters url = url).
Proof.
  assert (Hall : forall (p : ascii -> bool) r,
             string_forallb (fun x => negb (p x)) r = true ->
             string_existsb p r = false).
  { intros p r. induction r as [|a r IH]; simpl; [reflexivity|].
    intros H. apply andb_true_iff in H as [Ha Hr].
    apply negb_true_iff in Ha. rewrite Ha. now apply IH. }
  split.
  - unfold removeUrlParameters.
    set (u1 := replace_tail re_querystring url).
    assert (Hq : exists query, url = u1 +:+ query /\
               (query = "" \/ exists r, query = String "?" r
                  /\ string_existsb (is_char "?") r = false)).
    { destruct (replace_tail_split re_querystring url) as [E | (c & r & E & Hm)].
      - exists ""%string. fold u1 in E. rewrite E, append_empty_r. auto.
      - exists (String c r). split; [exact E|]. right.
        unfold re_querystring in Hm. apply andb_true_iff in Hm as [Hc Hr].
        unfold is_char in Hc. apply Ascii.eqb_eq in Hc. subst c.
        exists r. split; [reflexivity|]. now apply Hall. }
    destruct Hq as (query & Eq & Hquery).
    destruct (replace_tail_split re_anchor u1) as [E | (c & r & E & Hm)].
    + exists ""%string, query. rewrite E. simpl. auto.
    + exists (String c r), query. rewrite <- append_assoc, <- E.
      split; [exact Eq|]. split; [exact Hquery|]. right.
      unfold re_anchor in Hm. apply andb_true_iff in Hm as [Hc Hr].
      unfold is_char in Hc. apply Ascii.eqb_eq in Hc. subst c.
      exists r. split; [reflexivity|]. now apply Hall.
  - intros H. unfold removeUrlParameters.
    assert (E1 : replace_tail re_querystring url = url).
    { apply replace_tail_id with (p := fun x => is_char "?" x || is_char "#" x); [|exact H].
      intros c r Hm. unfold re_querystring in Hm.
      apply andb_true_iff in Hm as [Hc _]. now rewrite Hc. }
    rewrite E1.
    apply replace_tail_id with (p := fun x => is_char "?" x || is_char "#" x); [|exact H].
    intros c r Hm. unfold re_anchor in Hm.
    apply andb_true_iff in Hm as [Hc _]. rewrite Hc. apply orb_true_r.
Qed.

Lemma removeUrlParameters_prefix_witness :
  removeUrlParameters "A/Einstein.html" = "A/Einstein.html".
Proof.
  apply (proj2 (removeUrlParameters_prefix "A/Einstein.html")). reflexivity.
Defined.

Example removeUrlParameters_ex1 :
  removeUrlParameters "A/Einstein.html?x=1#top" = "A/Einstein.html".
Proof. reflexivity. Qed.

Example removeUrlParameters_ex2 :
  removeUrlParameters "A/Tom&#39;s" = "A/Tom&#39;s".
Proof. reflexivity. Qed.

(** ** Effects: a weakest-precondition reading of [M] *)


Lemma wp_get_state {S} (Q : S -> completion S -> Prop) s :
  Q s (Returned s) -> wp get_state Q s.
Proof. exact (fun H => H). Qed.

Lemma wp_bind {S A B} (m : M S A) (k : A -> M S B) (Q : S -> completion B -> Prop) s :
  wp m (fun s' c => match c with
                    | Returned a => wp (k a) Q s'
                    | Thrown e => Q s' (Thrown e)
                    end) s ->
  wp (bind m k) Q s.
Proof.
  unfold wp, bind. destruct (m s) as [s' [a|e]]; simpl; auto.
Qed.

(** ** applyAppTheme *)

Lemma contains_In (t : string) (l : list string) :
  contains t l = true <-> In t l.
Proof.
  unfold contains. rewrite List.existsb_exists. split.
  - intros (x & Hx & E). apply String.eqb_eq in E. now subst.
  - intros H. exists t. split; [exact H | apply String.eqb_refl].
Qed.

Lemma token_add_In (t : string) (l : list string) : In t (token_add t l).
Proof.
  unfold token_add. destruct (contains t l) eqn:E.
  - now apply contains_In.
  - apply in_or_app. right. now left.
Qed.

Lemma token_add_keeps (t u : string) (l : list string) :
  In u l -> In u (token_add t l).
Proof.
  unfold token_add. destruct (contains t l); [auto|].
  intros H. apply in_or_app. now left.
Qed.

Lemma token_remove_spec (t u : string) (l : list string) :
  In u (token_remove t l) <-> In u l /\ u <> t.
Proof.
  unfold token_remove. rewrite List.filter_In, negb_true_iff, String.eqb_neq.
  intuition congruence.
Qed.

Lemma replace_tail_existsb (m : ascii -> string -> bool) (p : ascii -> bool) s :
  string_existsb p s = false -> string_existsb p (replace_tail m s) = false.
Proof.
  induction s as [|a s IH]; simpl; [auto|].
  intros H. apply orb_false_iff in H as [Ha Hs].
  destruct (m a s); simpl; [reflexivity|]. rewrite Ha. now apply IH.
Qed.

Lemma span_snd_existsb (q p : ascii -> bool) s :
  string_existsb p s = false -> string_existsb p (snd (span q s)) = false.
Proof.
  induction s as [|a s IH]; simpl; [auto|].
  intros H. destruct (q a).
  - apply orb_false_iff in H as [Ha Hs]. specialize (IH Hs).
    destruct (span q s). exact IH.
  - exact H.
Qed.

Lemma token_error_ok (t : string) :
  nonempty t = true -> string_existsb ascii_whitespace t = false ->
  token_error t = None.
Proof.
  unfold token_error, nonempty. intros H1 H2.
  apply negb_true_iff in H1. now rewrite H1, H2.
Qed.

Lemma str_or_nonempty (a b : string) : nonempty b = true -> nonempty (str_or a b) = true.
Proof.
  unfold str_or, nonempty. destruct (String.eqb a "") eqn:E; [auto|].
  intros _. now rewrite E.
Qed.

Lemma str_or_existsb (p : ascii -> bool) (a b : string) :
  string_existsb p a = false -> string_existsb p b = false ->
  string_existsb p (str_or a b) = false.
Proof. unfold str_or. destruct (String.eqb a ""); auto. Qed.





Lemma keeps_theme_ret {A} (a : A) : keeps_theme (ret a).
Proof. intros q. auto. Qed.

Lemma keeps_theme_bind {A B} (m : M Page A) (k : A -> M Page B) :
  keeps_theme m -> (forall a, keeps_theme (k a)) -> keeps_theme (bind m k).
Proof.
  intros Hm Hk q. unfold bind. specialize (Hm q).
  destruct (m q) as [q' [a|e]]; simpl in *; [|exact Hm].
  destruct (Hk a q') as (H1 & H2 & H3), Hm as (G1 & G2 & G3).
  repeat split; congruence.
Qed.

Lemma keeps_theme_when (b : bool) (m : M Page unit) :
  keeps_theme m -> keeps_theme (when b m).
Proof. destruct b; simpl; auto using @keeps_theme_ret. Qed.

Lemma keeps_theme_modify (f : Page -> Page) :
  (forall q, htmlClassList (f q) = htmlClassList q
             /\ footerClassList (f q) = footerClassList q
             /\ htmlDatasetTheme (f q) = htmlDatasetTheme q) ->
  keeps_theme (modify f).
Proof. intros H q. apply H. Qed.

Lemma keeps_theme_display_if_present id v : keeps_theme (display_if_present id v).
Proof. apply keeps_theme_modify. intros q. auto. Qed.

Lemma keeps_theme_iframe op t : keeps_theme (classList_op op set_iframeClassList t).
Proof.
  unfold classList_op. destruct (token_error t).
  - intros q. auto.
  - apply keeps_theme_modify. intros q. auto.
Qed.

Lemma keeps_theme_showReturnLink : keeps_theme showReturnLink.
Proof.
  unfold showReturnLink. apply keeps_theme_bind.
  - intros q. unfold display_set. destruct (displays q !! "viewArticle"); simpl; auto.
  - intros _. apply keeps_theme_modify. intros q. auto.
Qed.


Lemma wp_keeps_theme {A} (m : M Page A) app content p :
  keeps_theme m -> theme_applied app content p ->
  wp m (fun p' _ => theme_applied app content p') p.
Proof.
  intros Hm (H1 & H2 & H3). unfold wp, theme_applied.
  destruct (Hm p) as (G1 & G2 & G3). rewrite G1, G2, G3. auto.
Qed.


Lemma wp_seq {S A B} (m : M S A) (k : A -> M S B) (Q : S -> completion B -> Prop) s a :
  snd (m s) = Returned a -> wp (k a) Q (fst (m s)) -> wp (bind m k) Q s.
Proof.
  unfold wp, bind. destruct (m s) as [s' c]; simpl. intros ->. auto.
Qed.

Lemma classList_op_returns op setter t q :
  token_error t = None -> snd (classList_op op setter t q) = Returned tt.
Proof. unfold classList_op. now intros ->. Qed.

Lemma when_classList_op_returns b op setter t q :
  (b = true -> token_error t = None) ->
  snd (when b (classList_op op setter t) q) = Returned tt.
Proof.
  destruct b; simpl; [|reflexivity].
  intros H. apply classList_op_returns. now apply H.
Qed.

Lemma keeps_theme_stateless {A} (m : M Page A) :
  (forall q, fst (m q) = q) -> keeps_theme m.
Proof. intros H q. rewrite H. auto. Qed.

Ltac keeps_theme_solve :=
  repeat first
    [ apply keeps_theme_showReturnLink
    | apply keeps_theme_display_if_present
    | apply keeps_theme_iframe
    | apply keeps_theme_when
    | apply keeps_theme_bind; [|intros ?]
    | apply keeps_theme_ret
    | (apply keeps_theme_modify; intros ?; repeat split; reflexivity)
    | (apply keeps_theme_stateless; intros ?; repeat case_match; reflexivity) ].

(** C1. After [applyAppTheme('dark_invert')] the root element carries the
    class ['dark'] and the footer carries the class ['_invert'], and the theme
    recorded in [dataset.theme] is the two parts joined again: the theme string
    is split at its underscore.  The page is any page whose recorded old
    theme is free of white space, so that its two parts are class tokens that
    [classList.remove] accepts. *)
Theorem applyAppTheme_dark_invert (p : Page) :
  old_theme_valid p ->
  theme_applied "dark" "_invert" (fst (applyAppTheme "dark_invert" p)).
Proof.
  intros Hv.
  change (wp (applyAppTheme "dark_invert")
            (fun p' _ => theme_applied "dark" "_invert" p') p).
  unfold applyAppTheme.
  apply wp_bind, wp_get_state.
  change (starts_with "auto" "dark_invert") with false. cbv iota.
  change (strip_content_theme "dark_invert") with "dark".
  change (strip_app_theme "dark_invert") with "_invert".
  set (oldTheme := str_or (default "" (htmlDatasetTheme p)) "").
  assert (Hold : string_existsb ascii_whitespace oldTheme = false).
  { apply str_or_existsb; [exact Hv | reflexivity]. }
  (* the tokens of the old theme are removed without an exception *)
  eapply wp_seq.
  { apply when_classList_op_returns. intros Hne.
    apply token_error_ok; [exact Hne|].
    now apply replace_tail_existsb. }
  generalize (fst (when (nonempty (strip_content_theme oldTheme))
       (classList_op token_remove set_htmlClassList
          (strip_content_theme oldTheme)) p)).
  intros q1.
  eapply wp_seq.
  { apply classList_op_returns. apply token_error_ok.
    - now apply str_or_nonempty.
    - apply str_or_existsb; [|reflexivity]. now apply span_snd_existsb. }
  generalize (fst (classList_op token_remove set_footerClassList
          (str_or (strip_app_theme oldTheme) "_light") q1)).
  intros q2.
  (* the tokens of the new theme are added *)
  eapply wp_seq; [reflexivity|].
  eapply wp_seq; [reflexivity|].
  eapply wp_seq; [reflexivity|].
  apply wp_keeps_theme.
  - simpl. keeps_theme_solve.
  - simpl. unfold theme_applied; simpl.
    split; [apply token_add_In|]. split; [apply token_add_In | reflexivity].
Qed.

Lemma applyAppTheme_dark_invert_witness :
  theme_applied "dark" "_invert"
    (fst (applyAppTheme "dark_invert"
            {| prefersDark := false; htmlClassList := ["light"];
               htmlDatasetTheme := Some "light"; footerClassList := ["_light"];
               iframeClassList := []; contentDocument := None;
               displays := ∅; configureNavActive := false;
               locationBase := "https://kiwix.example/www/index.html";
               viewArticleListeners := 0;
               regexpSearch := fun _ _ => None |})).
Proof. apply applyAppTheme_dark_invert. reflexivity. Defined.

Lemma wp_classList_op op setter t (Q : Page -> completion unit -> Prop) p :
  (forall e, token_error t = Some e -> Q p (Thrown e)) ->
  (token_error t = None -> Q (setter (op t) p) (Returned tt)) ->
  wp (classList_op op setter t) Q p.
Proof.
  unfold classList_op. destruct (token_error t); intros H1 H2.
  - now apply H1.
  - now apply H2.
Qed.

Lemma wp_when {S} (b : bool) (m : M S unit) (Q : S -> completion unit -> Prop) s :
  (b = true -> wp m Q s) -> (b = false -> Q s (Returned tt)) -> wp (when b m) Q s.
Proof. intros H1 H2. destruct b; [apply H1 | apply H2]; reflexivity. Qed.

Lemma token_error_none (t : string) :
  token_error t = None -> string_existsb ascii_whitespace t = false.
Proof.
  unfold token_error. destruct (String.eqb t ""); [discriminate|].
  now destruct (string_existsb ascii_whitespace t).
Qed.

Lemma str_or_empty_r (a : string) : str_or a "" = a.
Proof. unfold str_or. destruct (String.eqb_spec a ""); congruence. Qed.

Lemma token_error_str_or (c : string) :
  token_error (str_or c "_light") = None -> string_existsb ascii_whitespace c = false.
Proof.
  unfold str_or. destruct (String.eqb_spec c "") as [->|_]; [reflexivity|].
  apply token_error_none.
Qed.

Lemma nonempty_false (s : string) : nonempty s = false -> s = "".
Proof. unfold nonempty. intros H. apply negb_false_iff in H. now apply String.eqb_eq. Qed.

Lemma wp_keeps_valid {A} (m : M Page A) (p : Page) :
  keeps_theme m -> old_theme_valid p -> wp m (fun p' _ => old_theme_valid p') p.
Proof.
  intros Hm Hv. unfold wp, old_theme_valid. destruct (Hm p) as (_ & _ & E).
  now rewrite E.
Qed.

(** The precondition of C1 is an invariant of applyAppTheme: whatever the
    theme, and whether the call returns or throws, the theme that it leaves
    in [dataset.theme] is free of white space when the one it found was.  A
    page that has no recorded theme satisfies it. *)
Lemma applyAppTheme_old_theme_valid (theme : string) (p : Page) :
  old_theme_valid p -> old_theme_valid (fst (applyAppTheme theme p)).
Proof.
  intros Hv.
  change (wp (applyAppTheme theme) (fun p' _ => old_theme_valid p') p).
  unfold applyAppTheme. apply wp_bind, wp_get_state. cbv zeta.
  set (appTheme := if starts_with "auto" theme then _ else _).
  set (contentTheme := strip_app_theme theme).
  set (oldTheme := str_or (default "" (htmlDatasetTheme p)) "").
  match goal with
  | |- wp ?m ?Q p => enough (H : forall q, old_theme_valid q -> wp m Q q) by now apply H
  end.
  clear Hv. intros q Hv.
  (* the old tokens are removed and the new ones added: the recorded theme
     stays as it is *)
  apply wp_bind, wp_when;
    [intros _; apply wp_classList_op; [intros e _; exact Hv | intros _] | intros _];
    (apply wp_bind, wp_classList_op; [intros e _; exact Hv | intros _]);
    (apply wp_bind, wp_when;
     [intros Happ; apply wp_classList_op; [intros e _; exact Hv | intros Htok]
     | intros Happ]);
    (apply wp_bind, wp_classList_op; [intros e _; exact Hv | intros Hcontent]);
    (apply wp_bind; unfold wp at 1; cbn [modify fst snd]);
    (apply wp_keeps_valid;
     [ destruct (starts_with "auto" theme && String.eqb appTheme "light");
       keeps_theme_solve
     | unfold old_theme_valid; simpl;
       rewrite existsb_app; apply orb_false_iff; split;
       [ first [ now apply token_error_none
               | apply nonempty_false in Happ; now rewrite Happ ]
       | now apply token_error_str_or ] ]).
Qed.

Lemma page_without_theme_valid (p : Page) :
  htmlDatasetTheme p = None -> old_theme_valid p.
Proof. unfold old_theme_valid. now intros ->. Qed.

(** ** systemAlert *)

Lemma resolve_idem v p : resolve v (resolve v p) = resolve v p.
Proof. now destruct p. Qed.

Lemma on_hide_fold_lookup (activeId : string) (l : list nat) (ps : list promise) (i : nat) :
  fold_left (fun ps j => on_hide activeId j ps) l ps !! i
  = (if bool_decide (i ∈ l)
     then resolve (String.eqb activeId "approveConfirm") <$> ps !! i
     else ps !! i).
Proof.
  revert ps. induction l as [|j l IH]; intros ps; simpl.
  - reflexivity.
  - rewrite IH. unfold on_hide.
    destruct (decide (j = i)) as [->|Hne].
    + rewrite list_lookup_alter_eq.
      rewrite (bool_decide_eq_true_2 (i ∈ i :: l)) by set_solver.
      destruct (bool_decide (i ∈ l)); [|reflexivity].
      destruct (ps !! i); simpl; [|reflexivity]. now rewrite resolve_idem.
    + rewrite list_lookup_alter_ne by exact Hne.
      destruct (decide (i ∈ l)) as [Hin|Hnin].
      * rewrite (bool_decide_eq_true_2 (i ∈ l) Hin).
        rewrite (bool_decide_eq_true_2 (i ∈ j :: l)); [reflexivity|].
        now apply list_elem_of_further.
      * rewrite (bool_decide_eq_false_2 (i ∈ l) Hnin).
        rewrite (bool_decide_eq_false_2 (i ∈ j :: l)); [reflexivity|].
        intros [E|H]%elem_of_cons; [congruence | contradiction].
Qed.

Lemma hide_modal_promise activeId m i :
  promise_state i (hide_modal activeId m)
  = (if bool_decide (i ∈ hideListeners m)
     then resolve (String.eqb activeId "approveConfirm") <$> promise_state i m
     else promise_state i m).
Proof. unfold promise_state, hide_modal; simpl. apply on_hide_fold_lookup. Qed.

(** Once the promise [i] is settled, no event changes it; while it is pending
    and its listener is attached, the first hiding of the modal fulfils it. *)
Lemma modal_run_settled evs m i p :
  promise_state i m = Some p -> p <> Pending ->
  promise_state i (modal_run evs m) = Some p.
Proof.
  revert m. induction evs as [|ev evs IH]; intros m Hp Hs; simpl; [exact Hp|].
  apply IH; [|exact Hs]. destruct ev as [activeId|msg lbl c d a cl]; simpl.
  - rewrite hide_modal_promise, Hp. destruct (bool_decide _); [|reflexivity].
    simpl. now destruct p.
  - unfold promise_state in *; simpl. now apply lookup_app_l_Some.
Qed.

Lemma modal_run_pending evs m i :
  promise_state i m = Some Pending -> i ∈ hideListeners m ->
  promise_state i (modal_run evs m)
  = Some match first_hide evs with
         | None => Pending
         | Some activeId => Fulfilled (String.eqb activeId "approveConfirm")
         end.
Proof.
  revert m. induction evs as [|ev evs IH]; intros m Hp Hin; simpl; [exact Hp|].
  destruct ev as [activeId|msg lbl c d a cl]; simpl.
  - apply modal_run_settled; [|discriminate].
    rewrite hide_modal_promise, Hp. now rewrite bool_decide_eq_true_2.
  - apply IH.
    + unfold promise_state in *; simpl. now apply lookup_app_l_Some.
    + simpl. set_solver.
Qed.

(** C2. The promise that systemAlert returns is rejected exactly when the
    message is missing (falsy), and then with the reason
    ['Missing body message'], whatever happens to the modal afterwards.  With
    a message the promise is never rejected: it is pending until the modal is
    hidden for the first time, and from then on it is fulfilled with [true]
    when the focused element that closed it was the approve button and with
    [false] for every other close source. *)
Theorem systemAlert_promise
    (message label : jsval) (isConfirm : bool) (d a c : jsval)
    (m : Modal) (evs : list modal_event) :
  let (m1, this) := systemAlert message label isConfirm d a c m in
  promise_state this (modal_run evs m1)
  = Some (if truthy message then
            match first_hide evs with
            | None => Pending
            | Some activeId => Fulfilled (String.eqb activeId "approveConfirm")
            end
          else Rejected "Missing body message").
Proof.
  unfold systemAlert.
  set (m1 := {| approveConfirmText := _ |}).
  assert (Hthis : promise_state (length (promises m)) m1
                  = Some (if negb (truthy message)
                          then reject "Missing body message" Pending else Pending)).
  { unfold promise_state, m1; simpl. apply list_lookup_middle. reflexivity. }
  destruct (truthy message); simpl in Hthis.
  - apply modal_run_pending; [exact Hthis|]. unfold m1; simpl. set_solver.
  - apply modal_run_settled; [exact Hthis | discriminate].
Qed.

Example systemAlert_confirmed :
  promise_state 0
    (modal_run [EvHide "approveConfirm"; EvHide "closeMessage"]
       (fst (systemAlert (JStr "<p>Open?</p>") (JStr "Opening external link") true
               JUndefined JUndefined JUndefined
               {| approveConfirmText := ""; declineConfirmText := "";
                  closeMessageText := ""; modalLabelText := ""; modalTextHTML := "";
                  approveConfirmDisplay := ""; declineConfirmDisplay := "";
                  closeMessageDisplay := ""; modalShown := false;
                  hideListeners := []; keyupListeners := []; promises := [] |})))
  = Some (Fulfilled true).
Proof. reflexivity. Qed.

(** ** displayActiveContentWarning and displayFileDownloadAlert *)


Lemma displayFileDownloadAlert_setup title download contentType s :
  let s' := fst (displayFileDownloadAlert title download contentType s) in
  downloadAlertDisplay s' = "block"
  /\ downloadAlertSetup s' = true
  /\ downloadDismissListeners s'
     = (if downloadAlertSetup s then downloadDismissListeners s
        else S (downloadDismissListeners s))
  /\ activeContentWarningSetup s' = activeContentWarningSetup s
  /\ activeContentDismissListeners s' = activeContentDismissListeners s
  /\ swModeLinkListeners s' = swModeLinkListeners s
  /\ stopListeners s' = stopListeners s.
Proof.
  unfold displayFileDownloadAlert, bind, modify; simpl.
  destruct download as [| |[|]| |]; simpl; repeat split; reflexivity.
Qed.

Lemma alerts_inv_step ac dl s ev :
  alerts_inv ac dl s ->
  alerts_inv (ac || is_active_content_call ev) (dl || is_download_call ev)
    (alert_step s ev).
Proof.
  intros (H1 & H2 & H3 & H4 & H5 & H6).
  destruct ev as [|title download contentType| |id|]; simpl;
    rewrite ?orb_false_r, ?orb_true_r.
  - unfold alerts_inv; simpl. rewrite H1, H3, H4, H5.
    destruct ac; repeat split; assumption.
  - destruct (displayFileDownloadAlert_setup title download contentType s)
      as (_ & G2 & G3 & G4 & G5 & G6 & G7).
    unfold alerts_inv. rewrite G2, G3, G4, G5, G6, G7, H2, H6.
    destruct dl; repeat split; assumption.
  - repeat split; assumption.
  - repeat split; assumption.
  - repeat split; assumption.
Qed.

Lemma alerts_inv_run evs : forall ac dl s,
  alerts_inv ac dl s ->
  alerts_inv (ac || List.existsb is_active_content_call evs)
    (dl || List.existsb is_download_call evs) (alert_run evs s).
Proof.
  induction evs as [|ev evs IH]; intros ac dl s H; simpl.
  - now rewrite !orb_false_r.
  - rewrite !orb_assoc. apply IH. now apply alerts_inv_step.
Qed.

(** C6. From the load of the module on, whatever the sequence of calls of
    the two functions and of clicks: the dismiss listener of the active content
    warning and the listeners of its two hyperlinks are attached once when
    displayActiveContentWarning has been called and not at all before; the
    same holds for the dismiss listener of the download alert and
    displayFileDownloadAlert; the set-up flags say so; and a call made when
    the flag is set shows the alert again and attaches nothing. *)
Theorem alert_listeners_attached_once (s0 : Alerts) (evs : list alert_event) :
  alerts_at_load s0 ->
  let s := alert_run evs s0 in
  let ac := List.existsb is_active_content_call evs in
  let dl := List.existsb is_download_call evs in
  (activeContentWarningSetup s = ac
   /\ activeContentDismissListeners s = (if ac then 1 else 0)%nat
   /\ swModeLinkListeners s = (if ac then 1 else 0)%nat
   /\ stopListeners s = (if ac then 1 else 0)%nat)
  /\ (downloadAlertSetup s = dl
      /\ downloadDismissListeners s = (if dl then 1 else 0)%nat)
  /\ (ac = true ->
      let s' := displayActiveContentWarning s in
      activeContentDisplay s' = ""
      /\ activeContentDismissListeners s' = 1%nat
      /\ swModeLinkListeners s' = 1%nat /\ stopListeners s' = 1%nat)
  /\ (dl = true ->
      forall title download contentType,
        let s' := fst (displayFileDownloadAlert title download contentType s) in
        downloadAlertDisplay s' = "block" /\ downloadDismissListeners s' = 1%nat).
Proof.
  intros (L1 & L2 & L3 & L4 & L5 & L6) s ac dl.
  assert (Hinv : alerts_inv ac dl s).
  { apply (alerts_inv_run evs false false s0). repeat split; assumption. }
  destruct Hinv as (H1 & H2 & H3 & H4 & H5 & H6).
  split; [auto|]. split; [auto|]. split.
  - intros Hac. simpl. rewrite H1, H3, H4, H5, Hac. auto.
  - intros Hdl title download contentType.
    destruct (displayFileDownloadAlert_setup title download contentType s)
      as (G1 & G2 & G3 & _).
    simpl. rewrite G1, G3, H2, H6, Hdl. auto.
Qed.

Lemma alert_listeners_attached_once_witness :
  let s0 := {| activeContentDisplay := "none"; activeContentWarningSetup := false;
               activeContentDismissListeners := 0; swModeLinkListeners := 0;
               stopListeners := 0; highlighted := None;
               cancelHighlightListeners := 0; btnConfigureClicks := 0;
               downloadAlertDisplay := "none"; downloadAlertSetup := false;
               downloadDismissListeners := 0; downloadLink := None;
               searchingArticlesDisplay := ""; anchorClickThrows := false;
               hasMsSaveBlob := false |} in
  let evs := [CallActiveContentWarning; ClickActiveContentDismiss;
              CallActiveContentWarning;
              CallFileDownloadAlert "I/map.pdf" (JBool true) JUndefined;
              CallFileDownloadAlert "I/map.pdf" (JBool false) JUndefined] in
  activeContentDismissListeners (alert_run evs s0) = 1%nat
  /\ downloadDismissListeners (alert_run evs s0) = 1%nat.
Proof.
  intros s0 evs.
  assert (H0 : alerts_at_load s0) by (repeat split; reflexivity).
  destruct (alert_listeners_attached_once s0 evs H0)
    as ((_ & H1 & _) & (_ & H2) & _).
  split; [exact H1 | exact H2].
Defined.

(** ** feedNodeWithDataURI *)

(** C7. When the decoding of a WebP image fails (the promise of
    [decodeToCanvas] is rejected), the call logs one error to the console and
    still calls the callback, once, when one was given; the decoder was
    called once and is not called again; the attributes of the node, the
    target attribute among them, and the node itself are left as they were. *)
Theorem feedNodeWithDataURI_decode_failure
    (env : FeedEnv) (nodeAttribute : string) (c : content) (mimeType : string)
    (callback : bool) (s : FeedState) :
  webpMachinePresent env = true ->
  search_ci "image/webp" mimeType = true ->
  (is_data_uri c = true -> dataURIConverts env = true) ->
  decodeSucceeds env = false ->
  let (s', r) := feedNodeWithDataURI env nodeAttribute c mimeType callback s in
  r = Returned tt
  /\ consoleErrors s'
     = consoleErrors s ++ ["There was an error decoding image in WebpMachine"]
  /\ callbackCalls s' = (if callback then S (callbackCalls s) else callbackCalls s)
  /\ decodeCalls s' = S (decodeCalls s)
  /\ nodeAttributes s' = nodeAttributes s
  /\ nodeAttributes s' !! nodeAttribute = nodeAttributes s !! nodeAttribute
  /\ nodeReplacedByCanvas s' = nodeReplacedByCanvas s.
Proof.
  intros Hw Hm Hc Hd. unfold feedNodeWithDataURI. rewrite Hw, Hm. simpl.
  unfold bind, when, then_catch. rewrite Hd.
  destruct (is_data_uri c).
  - rewrite Hc by reflexivity. simpl. repeat split; reflexivity.
  - simpl. repeat split; reflexivity.
Qed.

Lemma feedNodeWithDataURI_decode_failure_witness :
  let env := {| webpMachinePresent := true; dataURIConverts := true;
                decodeSucceeds := false;
                useCanvasElementsForWebpTranscoding := false;
                canvasDataURL := Some "data:image/png;base64,AAAA";
                readerResult := "" |} in
  let s := {| nodeAttributes := {[ "src" := "../I/m/logo.webp" ]};
              nodeReplacedByCanvas := false; consoleErrors := [];
              callbackCalls := 0; decodeCalls := 0 |} in
  let s' := fst (feedNodeWithDataURI env "src" (Binary [82; 73; 70; 70]%N)
                   "image/WebP" true s) in
  callbackCalls s' = 1%nat /\ nodeAttributes s' !! "src" = Some "../I/m/logo.webp".
Proof.
  intros env s.
  pose proof (feedNodeWithDataURI_decode_failure env "src" (Binary [82; 73; 70; 70]%N)
                "image/WebP" true s eq_refl eq_refl (fun _ => eq_refl) eq_refl) as H.
  destruct (feedNodeWithDataURI env "src" (Binary [82; 73; 70; 70]%N)
              "image/WebP" true s) as [s' r].
  destruct H as (_ & _ & H3 & _ & _ & H6 & _).
  simpl. split; [exact H3 | rewrite H6; reflexivity].
Defined.

(** ** [init.js]: the resolution of the parameters *)

Lemma bind_returned {S A B} (m : M S A) (k : A -> M S B) s s' b :
  bind m k s = (s', Returned b) ->
  exists s1 a, m s = (s1, Returned a) /\ k a s1 = (s', Returned b).
Proof.
  unfold bind. destruct (m s) as [s1 [a|e]]; intros H.
  - exists s1, a. now split.
  - discriminate.
Qed.

Lemma param_insert_eq (ps : gmap string jsval) k v : param (<[k := v]> ps) k = v.
Proof. unfold param. now rewrite lookup_insert_eq. Qed.

Lemma param_insert_ne (ps : gmap string jsval) k k' v :
  k <> k' -> param (<[k := v]> ps) k' = param ps k'.
Proof. intros H. unfold param. now rewrite lookup_insert_ne. Qed.

(** C8. When the resolution of the parameters has completed (defaults,
    stored settings and querystring overrides applied, then line 126), a
    [params.contentInjectionMode] equal to ['jquery'] comes with a
    [params.appCache] equal to [true], whatever the stores held and whatever
    the querystring set. *)
Theorem appCache_forced_in_jquery_mode (loc : Location) (st0 st : Init) :
  resolveParams loc st0 = (st, Returned tt) ->
  param (params st) "contentInjectionMode" = JStr "jquery" ->
  param (params st) "appCache" = JBool true.
Proof.
  unfold resolveParams. intros H Hmode.
  apply bind_returned in H as (s1 & [] & _ & H).
  apply bind_returned in H as (s2 & [] & _ & H).
  unfold forceAppCache, bind, get_state, set_param, modify in H.
  injection H as <-. simpl in *.
  rewrite param_insert_ne in Hmode by discriminate.
  rewrite param_insert_eq.
  now rewrite Hmode.
Qed.

Lemma appCache_forced_in_jquery_mode_witness :
  let b := {| cookiesEnabled := true; cookieJar := [];
              localStorageAvailable := true;
              localStorageItems := {[ "kiwixjs-appCache" := "false" ]};
              cookiesReadable := true |} in
  let loc := {| hasServiceWorker := true;
                search := "?contentInjectionMode=jquery&appCache=false";
                href := "https://browser-extension.kiwix.org/current/www/index.html" |} in
  param (params (fst (resolveParams loc (at_script_start b)))) "appCache" = JBool true.
Proof.
  intros b loc.
  apply (appCache_forced_in_jquery_mode loc (at_script_start b)).
  - vm_compute. reflexivity.
  - vm_compute. reflexivity.
Defined.

(** ** Strings and the regular expression of getSetting *)

Lemma strip_prefix_sep (name n r : string) :
  string_existsb (is_char "=") name = false ->
  string_existsb (is_char "=") n = false ->
  strip_prefix (name +:+ "=") (n +:+ String "=" r)
  = if String.eqb n name then Some r else None.
Proof.
  revert n. induction name as [|a name IH]; intros n Hname Hn.
  - destruct n as [|c n]; simpl; [reflexivity|].
    simpl in Hn. apply orb_false_iff in Hn as [Hc _].
    unfold is_char in Hc. now rewrite Hc.
  - simpl in Hname. apply orb_false_iff in Hname as [Ha Hname].
    destruct n as [|c n]; simpl.
    + unfold is_char in Ha. rewrite Ascii.eqb_sym. now rewrite Ha.
    + simpl in Hn. apply orb_false_iff in Hn as [_ Hn].
      rewrite (Ascii.eqb_sym c a).
      destruct (Ascii.eqb a c); [now apply IH | reflexivity].
Qed.

Lemma span_app (p : ascii -> bool) (v tail : string) :
  string_forallb p v = true ->
  (match tail with EmptyString => true | String c _ => negb (p c) end) = true ->
  span p (v +:+ tail) = (v, tail).
Proof.
  intros Hv Ht. induction v as [|a v IH]; simpl.
  - destruct tail as [|c t]; simpl; [reflexivity|].
    apply negb_true_iff in Ht. now rewrite Ht.
  - simpl in Hv. apply andb_true_iff in Hv as [Ha Hv].
    now rewrite Ha, IH.
Qed.

Lemma cookie_name_char_not_ws (c : ascii) :
  cookie_name_char c = true ->
  ws1 c = false /\ (code c =? 194)%N = false /\ (code c <? 128)%N = true.
Proof.
  unfold cookie_name_char, ws1. intros H.
  apply andb_true_iff in H as [H _]. apply andb_true_iff in H as [H _].
  apply andb_true_iff in H as [H1 H2].
  apply N.leb_le in H1, H2.
  repeat split.
  - apply orb_false_iff. split.
    + apply andb_false_iff. right. apply N.leb_gt. lia.
    + apply N.eqb_neq. lia.
  - apply N.eqb_neq. lia.
  - apply N.ltb_lt. lia.
Qed.

Lemma ws3_high (c1 c2 c3 : ascii) : (code c1 <? 128)%N = true -> ws3 c1 c2 c3 = false.
Proof.
  intros H. apply N.ltb_lt in H. unfold ws3; cbv zeta.
  assert (E : forall n, (128 <= n)%N -> (code c1 =? n)%N = false).
  { intros n Hn. apply N.eqb_neq. lia. }
  rewrite !E by lia. reflexivity.
Qed.

Lemma skip_ws_name_char {A} (k : string -> option A) (c : ascii) (r : string) :
  cookie_name_char c = true -> skip_ws k (String c r) = k (String c r).
Proof.
  intros H. destruct (cookie_name_char_not_ws c H) as (H1 & H2 & H3).
  simpl. rewrite H1.
  destruct r as [|c2 r2]; [reflexivity|].
  unfold ws2. rewrite H2. simpl.
  destruct r2 as [|c3 r3]; [reflexivity|].
  now rewrite ws3_high.
Qed.

Lemma cookie_regexp_from_skip (name : string) (c : ascii) (r : string) :
  is_char ";" c = false ->
  cookie_regexp_from false name (String c r) = cookie_regexp_from false name r.
Proof. intros H. simpl. now rewrite H. Qed.

Lemma cookie_regexp_from_scan (name p r : string) :
  string_existsb (is_char ";") p = false ->
  cookie_regexp_from false name (p +:+ r) = cookie_regexp_from false name r.
Proof.
  induction p as [|c p IH]; intros H; [reflexivity|].
  simpl in H. apply orb_false_iff in H as [Hc Hp].
  change (String c p +:+ r) with (String c (p +:+ r)).
  rewrite cookie_regexp_from_skip by exact Hc. now apply IH.
Qed.

Lemma cookie_string_cons c rest :
  cookie_string (c :: rest) = cookie_pair c +:+ cookie_tail rest.
Proof. reflexivity. Qed.

Lemma forallb_existsb_neg (p : ascii -> bool) (s : string) :
  string_forallb (fun x => negb (p x)) s = true -> string_existsb p s = false.
Proof.
  induction s as [|a s IH]; simpl; [reflexivity|].
  intros H. apply andb_true_iff in H as [Ha Hs].
  apply negb_true_iff in Ha. rewrite Ha. now apply IH.
Qed.

Lemma forallb_weaken (p q : ascii -> bool) (s : string) :
  (forall c, p c = true -> q c = true) ->
  string_forallb p s = true -> string_forallb q s = true.
Proof.
  intros Hpq. induction s as [|a s IH]; simpl; [reflexivity|].
  intros H. apply andb_true_iff in H as [Ha Hs].
  rewrite (Hpq a Ha). now apply IH.
Qed.

Lemma setting_name_char_cookie (c : ascii) :
  setting_name_char c = true -> cookie_name_char c = true.
Proof.
  destruct c as [[] [] [] [] [] [] [] []]; vm_compute; congruence.
Qed.

Lemma cookie_name_no_sep (n : string) :
  string_forallb cookie_name_char n = true ->
  string_existsb (is_char "=") n = false /\ string_existsb (is_char ";") n = false.
Proof.
  intros H. split; apply forallb_existsb_neg; revert H; apply forallb_weaken;
    intros c Hc; unfold cookie_name_char in Hc;
    apply andb_true_iff in Hc as [Hc H2]; apply andb_true_iff in Hc as [_ H1];
    assumption.
Qed.

(** The match of the pattern at the start of a cookie. *)
Lemma cookie_value_here_pair (name n v : string) (rest : list (string * string)) :
  string_forallb cookie_name_char name = true ->
  wf_cookie (n, v) = true ->
  cookie_value_here name (cookie_pair (n, v) +:+ cookie_tail rest)
  = if String.eqb n name && nonempty v then Some v else None.
Proof.
  intros Hname Hwf. unfold wf_cookie in Hwf; simpl in Hwf.
  apply andb_true_iff in Hwf as [Hwf Hv]. apply andb_true_iff in Hwf as [Hne Hn].
  unfold cookie_pair; simpl. unfold nonempty in Hne.
  apply negb_true_iff in Hne. rewrite Hne.
  unfold cookie_value_here.
  rewrite !append_assoc. simpl.
  rewrite strip_prefix_sep
    by (apply cookie_name_no_sep; assumption).
  destruct (String.eqb n name); [|reflexivity]. simpl.
  rewrite span_app; [reflexivity | exact Hv |].
  destruct rest; reflexivity.
Qed.

Lemma cookie_pair_wf (n v : string) :
  wf_cookie (n, v) = true ->
  string_existsb (is_char ";") (cookie_pair (n, v)) = false
  /\ exists c r, cookie_pair (n, v) = String c r /\ cookie_name_char c = true.
Proof.
  unfold wf_cookie; simpl. intros Hwf.
  apply andb_true_iff in Hwf as [Hwf Hv]. apply andb_true_iff in Hwf as [Hne Hn].
  destruct (cookie_name_no_sep n Hn) as [_ Hsemi].
  destruct n as [|c n]; [discriminate|].
  unfold cookie_pair; simpl. split.
  - simpl in Hsemi. apply orb_false_iff in Hsemi as [Hc Hsemi]. rewrite Hc. simpl.
    rewrite existsb_app, Hsemi. simpl.
    now apply forallb_existsb_neg.
  - exists c, (n +:+ String "=" v). split; [reflexivity|].
    simpl in Hn. now apply andb_true_iff in Hn as [Hc _].
Qed.

Lemma cookie_value_here_space (name r : string) :
  string_forallb cookie_name_char name = true ->
  cookie_value_here name (String " " r) = None.
Proof.
  intros Hname. unfold cookie_value_here.
  destruct name as [|a name]; simpl; [reflexivity|].
  simpl in Hname. apply andb_true_iff in Hname as [Ha _].
  destruct (Ascii.eqb_spec a " ") as [->|Hne]; [discriminate Ha | reflexivity].
Qed.

Lemma cookie_regexp_tail (name : string) (rest : list (string * string)) :
  string_forallb cookie_name_char name = true ->
  wf_jar rest = true ->
  cookie_regexp_from false name (cookie_tail rest) = jar_find name rest.
Proof.
  intros Hname. induction rest as [|[n v] rest IH]; intros Hwf; [reflexivity|].
  simpl in Hwf. apply andb_true_iff in Hwf as [Hwf Hrest].
  apply andb_true_iff in Hwf as [Hc _].
  destruct (cookie_pair_wf n v Hc) as (Hsemi & c0 & r0 & Epair & Hc0).
  unfold cookie_tail. rewrite cookie_string_cons.
  change ("; " +:+ cookie_pair (n, v) +:+ cookie_tail rest)
    with (String ";" (String " " (cookie_pair (n, v) +:+ cookie_tail rest))).
  set (Y := cookie_pair (n, v) +:+ cookie_tail rest).
  assert (EY : skip_ws (cookie_value_here name) Y
               = if String.eqb n name && nonempty v then Some v else None).
  { unfold Y. rewrite Epair.
    change (String c0 r0 +:+ cookie_tail rest) with (String c0 (r0 +:+ cookie_tail rest)).
    rewrite skip_ws_name_char by exact Hc0.
    change (String c0 (r0 +:+ cookie_tail rest)) with (String c0 r0 +:+ cookie_tail rest).
    rewrite <- Epair. now apply cookie_value_here_pair. }
  assert (Escan : cookie_regexp_from false name (String " " Y) = jar_find name rest).
  { rewrite cookie_regexp_from_skip by reflexivity.
    unfold Y. rewrite cookie_regexp_from_scan by exact Hsemi. now apply IH. }
  cbn [cookie_regexp_from or_else].
  change (is_char ";" ";") with true. cbv iota.
  change (skip_ws (cookie_value_here name) (String " " Y))
    with (or_else (skip_ws (cookie_value_here name) Y)
                  (cookie_value_here name (String " " Y))).
  rewrite EY, cookie_value_here_space by exact Hname.
  cbn [jar_find].
  destruct (String.eqb n name && nonempty v); [reflexivity|].
  simpl or_else. exact Escan.
Qed.

(** The regular expression of getSetting finds the cookie of that name. *)
Lemma cookie_regexp_match_jar (name : string) (jar : list (string * string)) :
  string_forallb cookie_name_char name = true ->
  wf_jar jar = true ->
  cookie_regexp_match name (cookie_string jar) = jar_find name jar.
Proof.
  intros Hname Hwf. unfold cookie_regexp_match.
  destruct jar as [|[n v] rest].
  - simpl. unfold cookie_value_here.
    destruct name; reflexivity.
  - pose proof Hwf as Hwf'. simpl in Hwf'.
    apply andb_true_iff in Hwf' as [Hwf' Hrest].
    apply andb_true_iff in Hwf' as [Hc _].
    destruct (cookie_pair_wf n v Hc) as (Hsemi & c0 & r0 & Epair & Hc0).
    rewrite cookie_string_cons.
    assert (Ehere : skip_ws (cookie_value_here name) (cookie_pair (n, v) +:+ cookie_tail rest)
                    = if String.eqb n name && nonempty v then Some v else None).
    { rewrite Epair.
      change (String c0 r0 +:+ cookie_tail rest) with (String c0 (r0 +:+ cookie_tail rest)).
      rewrite skip_ws_name_char by exact Hc0.
      change (String c0 (r0 +:+ cookie_tail rest)) with (String c0 r0 +:+ cookie_tail rest).
      rewrite <- Epair. now apply cookie_value_here_pair. }
    assert (Escan : cookie_regexp_from false name (cookie_pair (n, v) +:+ cookie_tail rest)
                    = jar_find name rest).
    { rewrite cookie_regexp_from_scan by exact Hsemi. now apply cookie_regexp_tail. }
    cbn [jar_find]. revert Ehere Escan.
    rewrite Epair. rewrite Epair in Hsemi.
    change (String c0 r0 +:+ cookie_tail rest) with (String c0 (r0 +:+ cookie_tail rest)).
    intros Ehere Escan.
    rewrite cookie_regexp_from_skip in Escan
      by (simpl in Hsemi; now apply orb_false_iff in Hsemi as [Hc0s _]).
    cbn [cookie_regexp_from]. rewrite Ehere, Escan.
    simpl in Hsemi. apply orb_false_iff in Hsemi as [Hc0s _]. rewrite Hc0s.
    destruct (String.eqb n name && nonempty v); reflexivity.
Qed.

(** ** Percent-encoding *)

Lemma unreserved_facts (c : ascii) :
  uri_unreserved c = true ->
  is_char "%" c = false /\ (code c <? 128)%N = true
  /\ cookie_name_char c = true.
Proof. destruct c as [[] [] [] [] [] [] [] []]; vm_compute; intuition congruence. Qed.

Lemma hex_digits_of_byte (c : ascii) :
  hex_value (hex_digit (code c / 16)) = Some (code c / 16)%N
  /\ hex_value (hex_digit (code c mod 16)) = Some (code c mod 16)%N
  /\ ascii_of_N (16 * (code c / 16) + code c mod 16) = c
  /\ cookie_name_char (hex_digit (code c / 16)) = true
  /\ cookie_name_char (hex_digit (code c mod 16)) = true.
Proof. destruct c as [[] [] [] [] [] [] [] []]; vm_compute; intuition congruence. Qed.

Lemma unescape_percent_escape (c : ascii) (r : string) :
  unescape (percent_escape c r) = option_map (cons (true, c)) (unescape r).
Proof.
  destruct (hex_digits_of_byte c) as (H1 & H2 & H3 & _).
  unfold percent_escape.
  change (unescape (String "%" (String (hex_digit (code c / 16))
                                  (String (hex_digit (code c mod 16)) r))))
    with (match hex_value (hex_digit (code c / 16)),
                hex_value (hex_digit (code c mod 16)) with
          | Some a, Some b =>
              option_map (cons (true, ascii_of_N (16 * a + b))) (unescape r)
          | _, _ => None
          end).
  now rewrite H1, H2, H3.
Qed.

Lemma unescape_encode (s : string) :
  unescape (encodeURIComponent s) = Some (escaped_tokens s).
Proof.
  induction s as [|c s IH]; [reflexivity|].
  unfold escaped_tokens in *. cbn [encodeURIComponent list_ascii_of_string List.map].
  unfold escaped_token at 1.
  destruct (uri_unreserved c) eqn:E.
  - destruct (unreserved_facts c E) as (Hp & _).
    cbn [unescape]. rewrite Hp, IH. reflexivity.
  - rewrite unescape_percent_escape, IH. reflexivity.
Qed.








Lemma encode_inj (s t : string) :
  encodeURIComponent s = encodeURIComponent t -> s = t.
Proof.
  intros H. apply (f_equal unescape) in H. rewrite !unescape_encode in H.
  injection H as H. unfold escaped_tokens in H.
  apply (f_equal (List.map snd)) in H. rewrite !List.map_map in H.
  simpl in H. rewrite !List.map_id in H.
  apply (f_equal string_of_list_ascii) in H.
  now rewrite !string_of_list_ascii_of_string in H.
Qed.

Lemma encode_plain (s : string) :
  string_forallb uri_unreserved s = true -> encodeURIComponent s = s.
Proof.
  induction s as [|c s IH]; [reflexivity|]. simpl.
  intros H. apply andb_true_iff in H as [Hc Hs]. now rewrite Hc, IH.
Qed.



(** ** The cookies as a table *)

Lemma jar_find_absent (name : string) (jar : list (string * string)) :
  List.existsb (fun c => String.eqb name (fst c)) jar = false ->
  jar_find name jar = None.
Proof.
  induction jar as [|[n v] rest IH]; simpl; [reflexivity|].
  intros H. apply orb_false_iff in H as [Hn Hrest].
  rewrite String.eqb_sym, Hn. simpl. now apply IH.
Qed.






Lemma plain_name_facts (name : string) :
  plain_name name = true ->
  nonempty name = true
  /\ string_forallb cookie_name_char name = true
  /\ encodeURIComponent name = name.
Proof.
  unfold plain_name. intros H. apply andb_true_iff in H as [Hne H].
  split; [exact Hne|]. split.
  - revert H. apply forallb_weaken. apply setting_name_char_cookie.
  - apply encode_plain. revert H. apply forallb_weaken.
    intros c Hc. unfold setting_name_char in Hc.
    now apply andb_true_iff in Hc as [Hc _].
Qed.

(** ** getSetting and setSetting *)

Lemma storeType_cookie_not_local (ps : gmap string jsval) :
  storeType_is ps "cookie" = true -> storeType_is ps "local_storage" = false.
Proof.
  unfold storeType_is. destruct (param ps "storeType") as [| | | |s]; try discriminate.
  simpl. intros H. apply String.eqb_eq in H. now subst.
Qed.

Lemma storeType_local_not_cookie (ps : gmap string jsval) :
  storeType_is ps "local_storage" = true -> storeType_is ps "cookie" = false.
Proof.
  unfold storeType_is. destruct (param ps "storeType") as [| | | |s]; try discriminate.
  simpl. intros H. apply String.eqb_eq in H. now subst.
Qed.

Lemma setting_value_text (text : string) :
  setting_value (JStr text) = value_of_text (Some text).
Proof.
  unfold setting_value, value_of_text. simpl.
  destruct (String.eqb text "undefined"); [reflexivity|].
  destruct (String.eqb text "true"); [reflexivity|].
  destruct (String.eqb text "false"); reflexivity.
Qed.

Lemma ToString_boolean_literal (val : jsval) :
  ToString (if jsval_eqb val (JStr "false") then JBool false
            else if jsval_eqb val (JStr "true") then JBool true else val)
  = ToString val.
Proof.
  destruct val as [| | | |s]; try reflexivity. simpl.
  destruct (String.eqb_spec s "false") as [->|_]; [reflexivity|].
  destruct (String.eqb_spec s "true") as [->|_]; reflexivity.
Qed.

Lemma getSetting_local_storage (ps : gmap string jsval) (name : string) (b : Browser) :
  storeType_is ps "local_storage" = true -> localStorageAvailable b = true ->
  getSetting ps name b
  = Returned (value_of_text (localStorageItems b !! prefixed ps name)).
Proof.
  intros Hst Hav. unfold getSetting, localStorage_getItem.
  rewrite (storeType_local_not_cookie ps Hst), Hst, Hav.
  destruct (localStorageItems b !! prefixed ps name); [|reflexivity].
  now rewrite setting_value_text.
Qed.

Lemma getSetting_cookie (ps : gmap string jsval) (name : string) (b : Browser) :
  storeType_is ps "cookie" = true -> cookiesEnabled b = true ->
  wf_jar (cookieJar b) = true -> plain_name name = true ->
  getSetting ps name b
  = match jar_find name (cookieJar b) with
    | None => Returned JNull
    | Some raw =>
        match decodeURIComponent raw with
        | Some text => Returned (value_of_text (Some text))
        | None => Thrown URIError
        end
    end.
Proof.
  intros Hst Hen Hwf Hname. unfold getSetting, document_cookie. rewrite Hst, Hen.
  cbn [orb]. destruct (plain_name_facts name Hname) as (_ & Hchars & _).
  rewrite cookie_regexp_match_jar by assumption.
  destruct (jar_find name (cookieJar b)); [|reflexivity].
  destruct (decodeURIComponent s); [|reflexivity].
  now rewrite setting_value_text.
Qed.

Lemma setSetting_local_storage (ps : gmap string jsval) (name : string) (val : jsval)
    (b : Browser) :
  storeType_is ps "local_storage" = true -> localStorageAvailable b = true ->
  setSetting ps name val b
  = (set_localStorageItems (insert (prefixed ps name) (ToString val)) b, Returned tt).
Proof.
  intros Hst Hav. unfold setSetting.
  rewrite (storeType_local_not_cookie ps Hst), Hst.
  unfold bind, when, ret, localStorage_setItem. rewrite Hav.
  now rewrite ToString_boolean_literal.
Qed.

Lemma setSetting_cookie (ps : gmap string jsval) (name : string) (val : jsval)
    (b : Browser) :
  storeType_is ps "cookie" = true ->
  setSetting ps name val b
  = (set_cookieJar (jar_put (encodeURIComponent name)
                            (encodeURIComponent (ToString val))) b, Returned tt).
Proof.
  intros Hst. unfold setSetting.
  rewrite (storeType_cookie_not_local ps Hst), Hst. reflexivity.
Qed.

Lemma append_inj_l (p a b : string) : p +:+ a = p +:+ b -> a = b.
Proof. induction p as [|c p IH]; simpl; intros H; [exact H|]. injection H as H. auto. Qed.

Lemma value_of_text_is_setting_value (stored : option string) :
  is_setting_value (value_of_text stored) = true.
Proof.
  destruct stored as [text|]; [|reflexivity]. unfold value_of_text.
  destruct (String.eqb text "undefined"); [reflexivity|].
  destruct (String.eqb text "true"); [reflexivity|].
  destruct (String.eqb text "false"); reflexivity.
Qed.

Lemma set_param_state (key : string) (v : jsval) (st : Init) :
  set_param key v st
  = ({| browser := browser st;
        params := if String.eqb key "__proto__" then params st
                  else <[key := v]> (params st);
        kiwixComm := kiwixComm st |}, Returned tt).
Proof.
  unfold set_param. destruct (String.eqb key "__proto__"); [|reflexivity].
  now destruct st.
Qed.










Lemma getSetting_is_setting_value (ps : gmap string jsval) (name : string)
    (b : Browser) (v : jsval) :
  storeType_is ps "cookie" = true \/ storeType_is ps "local_storage" = true ->
  getSetting ps name b = Returned v -> is_setting_value v = true.
Proof.
  intros Hst. unfold getSetting.
  assert (Hv : forall r, (exists t, r = JStr t) \/ r = JNull ->
               is_setting_value (setting_value r) = true).
  { intros r [[t ->]| ->]; [|reflexivity].
    rewrite setting_value_text. apply value_of_text_is_setting_value. }
  destruct (storeType_is ps "cookie") eqn:E1.
  - destruct (cookie_regexp_match name (document_cookie b)) as [raw|].
    + destruct (decodeURIComponent raw) as [text|]; [|discriminate].
      intros [= <-]. apply Hv. eauto.
    + intros [= <-]. apply Hv. auto.
  - destruct Hst as [Hst|Hst]; [discriminate|]. rewrite Hst.
    destruct (localStorage_getItem (prefixed ps name) b) as [[text|]|e];
      [| |discriminate]; intros [= <-]; apply Hv; eauto.
Qed.

Lemma override_one_decoded (k v key text : string) (st : Init) :
  nonempty k = true -> nonempty v = true ->
  decodeURIComponent k = Some key -> decodeURIComponent v = Some text ->
  String.eqb key "title" = false ->
  override_one (k, v) st
  = (set_setting key (boolean_if_literal text) ;;
     set_param key (boolean_if_literal text))%js st.
Proof.
  intros Hk Hv Ek Ev Ht. unfold override_one. simpl fst; simpl snd.
  rewrite Hk, Hv. simpl. unfold decode. rewrite Ek, Ev.
  unfold bind at 1. unfold ret at 1. unfold bind at 1. unfold ret at 1.
  rewrite Ht. reflexivity.
Qed.

Lemma jar_find_get (name : string) (jar : list (string * string)) :
  wf_jar jar = true ->
  jar_find name jar
  = match jar_get name jar with
    | Some raw => if nonempty raw then Some raw else None
    | None => None
    end.
Proof.
  induction jar as [|[n v] rest IH]; [reflexivity|].
  cbn [wf_jar jar_find jar_get fst]. intros H.
  apply andb_true_iff in H as [H Hrest]. apply andb_true_iff in H as [_ Hfresh].
  apply negb_true_iff in Hfresh. rewrite (String.eqb_sym n name).
  destruct (String.eqb name n) eqn:E; cbn [andb]; [|now apply IH].
  destruct (nonempty v); [reflexivity|].
  apply String.eqb_eq in E. subst n. now apply jar_find_absent.
Qed.

(** C5, as it is stated, fails in three places.  Without a store (the store
    type ['none'], which getBestAvailableStorageAPI returns when neither
    cookies nor [localStorage] work) getSetting returns [undefined], which is
    neither a string nor a boolean nor [null].  In cookie mode a stored empty
    string reads back as [null], not as the stored string (in local_storage
    mode it reads back as itself).  And the loop assigns nothing to [params]
    for the key ['__proto__'], whose value it stores all the same. *)
Lemma settings_value_not_surfaced :
  let off := {| cookiesEnabled := false; cookieJar := [];
                localStorageAvailable := false; localStorageItems := ∅;
                cookiesReadable := false |} in
  let none_params : gmap string jsval :=
    {[ "storeType" := JStr "none"; "keyPrefix" := JStr "kiwixjs-" ]} in
  snd (getBestAvailableStorageAPI off) = Returned "none"
  /\ getSetting none_params "appTheme" off = Returned JUndefined
  /\ (let b := fst (setSetting cookie_params "appTheme" (JStr "") empty_browser) in
      cookieJar b = [("appTheme", "")]
      /\ getSetting cookie_params "appTheme" b = Returned JNull)
  /\ (let b := fst (setSetting local_storage_params "appTheme" (JStr "") empty_browser) in
      getSetting local_storage_params "appTheme" b = Returned (JStr ""))
  /\ (let st := fst (override_one ("__proto__", "x")
                       {| browser := empty_browser; params := local_storage_params;
                          kiwixComm := None |}) in
      params st !! "__proto__" = None
      /\ localStorageItems (browser st) !! "kiwixjs-__proto__" = Some "x").
Proof. vm_compute. repeat split. Qed.

(** C5, amended. In cookie mode and in local_storage mode every value that
    getSetting returns is [null], a boolean or a string; with any other store
    type it returns [undefined].  It is the value of the stored text: [null]
    when there is none or when the text is ['undefined'], the booleans for
    ['true'] and ['false'], the text otherwise (the stored text is the entry
    of [localStorage]; in cookie mode, for a name that is an identifier, the
    decoded value of the cookie of that name, where an empty value counts as
    no text).  The override loop makes the same booleans of the decoded values
    ['true'] and ['false'] before it hands the value to setSetting and assigns
    it to [params]; the assignment to the key ['__proto__'] assigns
    nothing. *)
Theorem settings_values (ps : gmap string jsval) (name : string) (b : Browser) :
  (forall v,
      getSetting ps name b = Returned v ->
      if storeType_is ps "cookie" || storeType_is ps "local_storage"
      then is_setting_value v = true else v = JUndefined)
  /\ (storeType_is ps "local_storage" = true -> localStorageAvailable b = true ->
      getSetting ps name b
      = Returned (value_of_text (localStorageItems b !! prefixed ps name)))
  /\ (storeType_is ps "cookie" = true -> cookiesEnabled b = true ->
      wf_jar (cookieJar b) = true -> plain_name name = true ->
      getSetting ps name b
      = match jar_get name (cookieJar b) with
        | None => Returned JNull
        | Some raw =>
            if nonempty raw then
              match decodeURIComponent raw with
              | Some text => Returned (value_of_text (Some text))
              | None => Thrown URIError
              end
            else Returned JNull
        end)
  /\ (value_of_text None = JNull
      /\ value_of_text (Some "undefined") = JNull
      /\ value_of_text (Some "true") = JBool true
      /\ value_of_text (Some "false") = JBool false
      /\ forall text, text <> "undefined" -> text <> "true" -> text <> "false" ->
           value_of_text (Some text) = JStr text)
  /\ (forall k v key text (st : Init),
        nonempty k = true -> nonempty v = true ->
        decodeURIComponent k = Some key -> decodeURIComponent v = Some text ->
        key <> "title" ->
        let val := if String.eqb text "true" then JBool true
                   else if String.eqb text "false" then JBool false
                   else JStr text in
        let st' := fst (override_one (k, v) st) in
        browser st' = fst (setSetting (params st) key val (browser st))
        /\ (snd (setSetting (params st) key val (browser st)) = Returned tt ->
            params st' = if String.eqb key "__proto__" then params st
                         else <[key := val]> (params st))).
Proof.
  split.
  { intros v Hv. destruct (storeType_is ps "cookie") eqn:E1; cbn [orb].
    - apply (getSetting_is_setting_value ps name b); auto.
    - destruct (storeType_is ps "local_storage") eqn:E2.
      + apply (getSetting_is_setting_value ps name b); auto.
      + unfold getSetting in Hv. rewrite E1, E2 in Hv. now injection Hv as <-. }
  split; [apply getSetting_local_storage|].
  split.
  { intros Hst Hen Hwf Hname. rewrite getSetting_cookie by assumption.
    rewrite jar_find_get by assumption.
    destruct (jar_get name (cookieJar b)) as [raw|]; [|reflexivity].
    now destruct (nonempty raw). }
  split.
  - repeat split. intros text H1 H2 H3. unfold value_of_text.
    apply String.eqb_neq in H1, H2, H3. now rewrite H1, H2, H3.
  - intros k v key text st Hk Hv Ek Ev Hkey. cbv zeta.
    apply String.eqb_neq in Hkey.
    rewrite (override_one_decoded k v key text st Hk Hv Ek Ev Hkey).
    fold (boolean_if_literal text).
    unfold bind, set_setting, on_browser.
    destruct (setSetting (params st) key (boolean_if_literal text) (browser st))
      as [b' [[]|e]]; cbn [fst snd].
    + rewrite set_param_state. cbn [fst browser params]. split; reflexivity.
    + split; [reflexivity|]. discriminate.
Qed.

Lemma settings_values_witness :
  getSetting local_storage_params "appCache"
    {| cookiesEnabled := true; cookieJar := []; localStorageAvailable := true;
       localStorageItems := {[ "kiwixjs-appCache" := "false" ]};
       cookiesReadable := true |}
  = Returned (JBool false)
  /\ getSetting cookie_params "hideActiveContentWarning"
       {| cookiesEnabled := true;
          cookieJar := [("appTheme", "dark_invert"); ("hideActiveContentWarning", "true")];
          localStorageAvailable := false; localStorageItems := ∅;
          cookiesReadable := true |}
     = Returned (JBool true)
  /\ params (fst (override_one ("appCache", "false")
                    {| browser := empty_browser; params := local_storage_params;
                       kiwixComm := None |}))
     = <["appCache" := JBool false]> local_storage_params.
Proof.
  split; [|split].
  - set (b := {| cookiesEnabled := true |}).
    destruct (settings_values local_storage_params "appCache" b) as (_ & H & _).
    rewrite (H eq_refl eq_refl). reflexivity.
  - set (b := {| cookiesEnabled := true |}).
    destruct (settings_values cookie_params "hideActiveContentWarning" b)
      as (_ & _ & H & _).
    rewrite (H eq_refl eq_refl eq_refl eq_refl). reflexivity.
  - set (st := {| browser := empty_browser |}).
    destruct (settings_values local_storage_params "x" empty_browser)
      as (_ & _ & _ & _ & H).
    destruct (H "appCache" "false" "appCache" "false" st eq_refl eq_refl eq_refl eq_refl)
      as (_ & H2); [discriminate|].
    rewrite H2; reflexivity.
Defined.

(** ** overrideParams *)

Lemma setSetting_effect (ps : gmap string jsval) (key : string) (val : jsval)
    (b : Browser) :
  let b' := fst (setSetting ps key val b) in
  cookiesEnabled b' = cookiesEnabled b
  /\ localStorageAvailable b' = localStorageAvailable b
  /\ (cookieJar b' = cookieJar b
      \/ cookieJar b' = jar_put (encodeURIComponent key)
                          (encodeURIComponent (ToString val)) (cookieJar b))
  /\ (localStorageItems b' = localStorageItems b
      \/ (storeType_is ps "local_storage" = true
          /\ localStorageItems b'
             = <[prefixed ps key := ToString val]> (localStorageItems b))).
Proof.
  unfold setSetting, bind, when, modify, ret, localStorage_setItem.
  rewrite ToString_boolean_literal.
  destruct (storeType_is ps "cookie") eqn:E1;
    destruct (storeType_is ps "local_storage") eqn:E2; simpl;
    try destruct (localStorageAvailable b) eqn:E3; simpl;
    destruct (cookiesEnabled b) eqn:E4; simpl; auto 10.
Qed.

Lemma override_one_effect (m : string * string) (st : Init) :
  fst (override_one m st) = st
  \/ exists key text,
       decodeURIComponent (fst m) = Some key
       /\ decodeURIComponent (snd m) = Some text
       /\ key <> "title"
       /\ browser (fst (override_one m st))
          = fst (setSetting (params st) key (boolean_if_literal text) (browser st))
       /\ kiwixComm (fst (override_one m st)) = kiwixComm st
       /\ (params (fst (override_one m st)) = params st
           \/ params (fst (override_one m st))
              = <[key := boolean_if_literal text]> (params st)).
Proof.
  destruct m as [k v]. unfold override_one. simpl fst; simpl snd.
  destruct (nonempty k && nonempty v); [|now left]. simpl.
  unfold decode.
  destruct (decodeURIComponent k) as [key|]; [|now left].
  destruct (decodeURIComponent v) as [text|]; [|now left].
  cbv beta iota delta [bind ret when].
  destruct (String.eqb key "title") eqn:Et; [now left|].
  apply String.eqb_neq in Et.
  right. exists key, text. simpl.
  unfold set_setting, on_browser.
  destruct (setSetting (params st) key (boolean_if_literal text) (browser st))
    as [b' [[]|e]]; simpl; [|auto 10].
  rewrite set_param_state. simpl.
  destruct (String.eqb key "__proto__"); auto 10.
Qed.

(** An invariant of each turn of the loop is an invariant of the loop. *)
Lemma override_loop_invariant (R : Init -> Init -> Prop) (Q : string * string -> Prop)
    (ms : list (string * string)) :
  (forall st, R st st) ->
  (forall a b c, R a b -> R b c -> R a c) ->
  (forall m st0 st, Q m -> R st0 st -> R st0 (fst (override_one m st))) ->
  Forall Q ms ->
  forall st0 st, R st0 st -> R st0 (fst (override_loop ms st)).
Proof.
  intros Hrefl Htrans Hstep HQ. induction HQ as [|m ms Hm HQ IH]; intros st0 st H.
  - exact H.
  - cbn [override_loop]. unfold bind.
    pose proof (Hstep m st0 st Hm H) as H1.
    destruct (override_one m st) as [st1 [[]|e]]; simpl in *.
    + now apply IH.
    + exact H1.
Qed.

Lemma overrideParams_state (loc : Location) (st : Init) :
  let st1 := fst (override_loop (key_pairs (search loc)) st) in
  browser (fst (overrideParams loc st)) = browser st1
  /\ params (fst (overrideParams loc st)) = params st1.
Proof.
  unfold overrideParams, bind, get_state, when, set_kiwixComm, modify, ret.
  destruct (override_loop (key_pairs (search loc)) st) as [st1 [[]|e]]; simpl; auto.
  destruct (truthy _ && _); simpl; auto.
Qed.

Lemma cookies_named_put (n name v : string) (jar : list (string * string)) :
  name <> n -> cookies_named n (jar_put name v jar) = cookies_named n jar.
Proof.
  intros Hne. unfold cookies_named.
  induction jar as [|[n' v'] rest IH]; simpl.
  - destruct (String.eqb_spec n name); [congruence | reflexivity].
  - destruct (String.eqb_spec name n') as [<-|Hn]; simpl.
    + destruct (String.eqb_spec n name); [congruence | reflexivity].
    + now rewrite IH.
Qed.

Lemma encode_title (key : string) : key <> "title" -> encodeURIComponent key <> "title".
Proof.
  intros Hne E. apply Hne. apply encode_inj. rewrite E. reflexivity.
Qed.

(** The loop never assigns [params.title] and never writes the cookie
    ['title']. *)
Lemma override_loop_title (ms : list (string * string)) (st : Init) :
  let st' := fst (override_loop ms st) in
  params st' !! "title" = params st !! "title"
  /\ cookies_named "title" (cookieJar (browser st'))
     = cookies_named "title" (cookieJar (browser st)).
Proof.
  apply (override_loop_invariant
           (fun a b => params b !! "title" = params a !! "title"
                       /\ cookies_named "title" (cookieJar (browser b))
                          = cookies_named "title" (cookieJar (browser a)))
           (fun _ => True) ms); auto.
  - intros a b c [H1 H2] [H3 H4]. split; congruence.
  - intros m st0 st1 _ [H1 H2].
    destruct (override_one_effect m st1)
      as [->|(key & text & _ & _ & Hne & Hb & _ & Hp)]; [auto|].
    split.
    + destruct Hp as [-> | ->]; [exact H1|].
      rewrite lookup_insert_ne by exact Hne. exact H1.
    + rewrite Hb.
      destruct (setSetting_effect (params st1) key (boolean_if_literal text) (browser st1))
        as (_ & _ & [-> | ->] & _); [exact H2|].
      rewrite cookies_named_put by now apply encode_title. exact H2.
  - clear. induction ms; constructor; auto.
Qed.

(** While [params.keyPrefix] is not overridden, the loop does not write the
    entry of [localStorage] under the prefixed key of ['title']. *)
Lemma override_loop_title_entry (ms : list (string * string)) (st : Init) :
  Forall (fun m => decodeURIComponent (fst m) <> Some "keyPrefix") ms ->
  let st' := fst (override_loop ms st) in
  param (params st') "keyPrefix" = param (params st) "keyPrefix"
  /\ localStorageItems (browser st') !! prefixed (params st) "title"
     = localStorageItems (browser st) !! prefixed (params st) "title".
Proof.
  intros HQ.
  apply (override_loop_invariant
           (fun a b => param (params b) "keyPrefix" = param (params a) "keyPrefix"
                       /\ localStorageItems (browser b) !! prefixed (params a) "title"
                          = localStorageItems (browser a) !! prefixed (params a) "title")
           (fun m => decodeURIComponent (fst m) <> Some "keyPrefix") ms); auto.
  - intros a b c [H1 H2] [H3 H4]. split; [congruence|].
    rewrite <- H2. unfold prefixed in *. rewrite <- H1. exact H4.
  - intros m st0 st1 Hm [H1 H2].
    destruct (override_one_effect m st1)
      as [->|(key & text & Ek & _ & Hne & Hb & _ & Hp)]; [auto|].
    split.
    + destruct Hp as [-> | ->]; [exact H1|].
      rewrite param_insert_ne; [exact H1|]. intros ->. now apply Hm.
    + rewrite Hb.
      destruct (setSetting_effect (params st1) key (boolean_if_literal text) (browser st1))
        as (_ & _ & _ & [-> | [_ ->]]); [exact H2|].
      rewrite lookup_insert_ne; [exact H2|].
      unfold prefixed. rewrite H1. intros E. apply append_inj_l in E. congruence.
Qed.

Lemma key_pairs_from_nonempty (s : string) : forall skip,
  Forall (fun m => nonempty (fst m) && nonempty (snd m) = true) (key_pairs_from skip s).
Proof.
  induction s as [|c s IH]; intros skip; simpl; [constructor|].
  destruct skip as [|n]; [|apply IH].
  destruct (is_char "?" c || is_char "&" c); [|apply IH].
  destruct (span (fun x => negb (is_char "=" x)) s) as [k r1].
  destruct r1 as [|c1 r2]; [apply IH|].
  destruct (nonempty k && nonempty (span (fun x => negb (is_char "&" x)) r2).1) eqn:E;
    [|apply IH].
  constructor; [exact E | apply IH].
Qed.

Lemma ToString_boolean_if_literal (text : string) :
  ToString (boolean_if_literal text) = text.
Proof.
  unfold boolean_if_literal.
  destruct (String.eqb_spec text "true") as [->|_]; [reflexivity|].
  destruct (String.eqb_spec text "false") as [->|_]; reflexivity.
Qed.

Lemma jar_get_put_eq (n v : string) (jar : list (string * string)) :
  jar_get n (jar_put n v jar) = Some v.
Proof.
  induction jar as [|[n' v'] rest IH]; simpl.
  - now rewrite String.eqb_refl.
  - destruct (String.eqb n n') eqn:E; simpl.
    + now rewrite String.eqb_refl.
    + now rewrite E.
Qed.

Lemma jar_get_put_ne (n n' v : string) (jar : list (string * string)) :
  n <> n' -> jar_get n' (jar_put n v jar) = jar_get n' jar.
Proof.
  intros Hne. induction jar as [|[m w] rest IH]; simpl.
  - destruct (String.eqb_spec n' n); [congruence | reflexivity].
  - destruct (String.eqb_spec n m) as [<-|Hm]; simpl.
    + destruct (String.eqb_spec n' n); [congruence | reflexivity].
    + now rewrite IH.
Qed.

Lemma same_store_setSetting (ps ps' : gmap string jsval) key val b :
  same_store ps ps' -> setSetting ps' key val b = setSetting ps key val b.
Proof.
  intros [H1 H2]. unfold setSetting, storeType_is, prefixed. now rewrite H1, H2.
Qed.

(** With a store in use, setSetting returns, and the store holds the text of
    the value for that setting and what it held for the others. *)
Lemma setSetting_ready (ps : gmap string jsval) (key : string) (val : jsval)
    (b : Browser) :
  store_ready ps b = true ->
  let b' := fst (setSetting ps key val b) in
  snd (setSetting ps key val b) = Returned tt
  /\ store_ready ps b' = true
  /\ store_entry ps key b' = Some (stored_form ps (ToString val))
  /\ forall other, other <> key -> store_entry ps other b' = store_entry ps other b.
Proof.
  unfold store_ready, store_entry, stored_form. intros H.
  destruct (storeType_is ps "cookie") eqn:E1.
  - simpl in H. rewrite orb_true_iff in H.
    assert (Hen : cookiesEnabled b = true).
    { destruct H as [H|H]; [exact H|].
      rewrite (storeType_cookie_not_local ps E1) in H. discriminate. }
    rewrite setSetting_cookie by exact E1. simpl. rewrite Hen. simpl.
    split; [reflexivity|]. split; [reflexivity|].
    split; [apply jar_get_put_eq|].
    intros other Hne. apply jar_get_put_ne. intros E. apply encode_inj in E. congruence.
  - simpl in H. apply andb_true_iff in H as [E2 Hav]. rewrite E2.
    rewrite setSetting_local_storage by assumption. simpl. rewrite Hav.
    split; [reflexivity|]. split; [reflexivity|].
    split; [apply lookup_insert_eq|].
    intros other Hne. apply lookup_insert_ne.
    unfold prefixed. intros E. apply append_inj_l in E. congruence.
Qed.

Lemma overrides_cons key k v rest :
  overrides key ((k, v) :: rest) = false -> k <> key /\ overrides key rest = false.
Proof.
  unfold overrides. simpl. intros H. apply orb_false_iff in H as [H1 H2].
  apply String.eqb_neq in H1. auto.
Qed.

(** The loop on a querystring that can be decoded and that leaves the choice
    of the store alone. *)
Lemma override_loop_writes (ps0 : gmap string jsval) :
  forall (ms dps : list (string * string)) (st : Init),
    Forall (fun m => nonempty (fst m) && nonempty (snd m) = true) ms ->
    decode_pairs ms = Some dps ->
    overrides "storeType" dps = false -> overrides "keyPrefix" dps = false ->
    same_store ps0 (params st) -> store_ready ps0 (browser st) = true ->
    let st' := fst (override_loop ms st) in
    snd (override_loop ms st) = Returned tt
    /\ same_store ps0 (params st')
    /\ store_ready ps0 (browser st') = true
    /\ forall key, key <> "title" ->
         match last_value key dps with
         | Some text =>
             params st' !! key
             = (if String.eqb key "__proto__" then params st !! key
                else Some (boolean_if_literal text))
             /\ store_entry ps0 key (browser st') = Some (stored_form ps0 text)
         | None =>
             params st' !! key = params st !! key
             /\ store_entry ps0 key (browser st') = store_entry ps0 key (browser st)
         end.
Proof.
  induction ms as [|[k v] ms IH]; intros dps st Hne Hdec Hst Hkp Hsame Hready.
  - injection Hdec as <-. simpl. auto.
  - inversion Hne as [|? ? Hkv Hne']; subst.
    simpl in Hkv. apply andb_true_iff in Hkv as [Hk Hv].
    cbn [decode_pairs] in Hdec.
    destruct (decodeURIComponent k) as [key0|] eqn:Ek; [|discriminate].
    destruct (decodeURIComponent v) as [text0|] eqn:Ev; [|discriminate].
    destruct (decode_pairs ms) as [dps'|] eqn:Edps; [|discriminate].
    injection Hdec as <-.
    apply overrides_cons in Hst as [Hst0 Hst], Hkp as [Hkp0 Hkp].
    cbn [override_loop].
    (* the turn of the loop for the first match *)
    assert (Hone : exists st1,
               override_one (k, v) st = (st1, Returned tt)
               /\ same_store ps0 (params st1)
               /\ store_ready ps0 (browser st1) = true
               /\ forall key, key <> "title" ->
                    if String.eqb key0 key
                    then params st1 !! key
                         = (if String.eqb key "__proto__" then params st !! key
                            else Some (boolean_if_literal text0))
                         /\ store_entry ps0 key (browser st1)
                            = Some (stored_form ps0 text0)
                    else params st1 !! key = params st !! key
                         /\ store_entry ps0 key (browser st1)
                            = store_entry ps0 key (browser st)).
    { destruct (String.eqb key0 "title") eqn:Et.
      - exists st. split.
        + unfold override_one. simpl fst; simpl snd. rewrite Hk, Hv. simpl.
          unfold decode. rewrite Ek, Ev.
          cbv beta iota delta [bind ret when]. now rewrite Et.
        + split; [exact Hsame|]. split; [exact Hready|].
          intros key Hkey. apply String.eqb_eq in Et. subst key0.
          destruct (String.eqb_spec "title" key); [congruence | auto].
      - rewrite (override_one_decoded k v key0 text0 st Hk Hv Ek Ev Et).
        destruct (setSetting_ready ps0 key0 (boolean_if_literal text0) (browser st) Hready)
          as (Hret & Hready1 & Hentry & Hframe).
        unfold bind, set_setting, on_browser.
        rewrite (same_store_setSetting ps0 (params st)) by exact Hsame.
        destruct (setSetting ps0 key0 (boolean_if_literal text0) (browser st))
          as [b1 r1]. simpl in *. subst r1.
        rewrite set_param_state. cbn [browser params kiwixComm].
        eexists. split; [reflexivity|]. cbn [browser params].
        split.
        { destruct (String.eqb key0 "__proto__"); [exact Hsame|].
          destruct Hsame as [S1 S2]. split.
          - rewrite param_insert_ne by exact Hst0. exact S1.
          - rewrite param_insert_ne by exact Hkp0. exact S2. }
        split; [exact Hready1|].
        intros key Hkey. destruct (String.eqb_spec key0 key) as [->|Hdiff].
        + rewrite Hentry, ToString_boolean_if_literal.
          destruct (String.eqb key "__proto__"); [|rewrite lookup_insert_eq]; auto.
        + split; [|apply Hframe; congruence].
          destruct (String.eqb key0 "__proto__"); [reflexivity|].
          now rewrite lookup_insert_ne. }
    destruct Hone as (st1 & Eone & Hsame1 & Hready1 & Hst1).
    unfold bind. rewrite Eone.
    destruct (IH dps' st1 Hne' eq_refl Hst Hkp Hsame1 Hready1)
      as (Hret & Hsame' & Hready' & Hall).
    split; [exact Hret|]. split; [exact Hsame'|]. split; [exact Hready'|].
    intros key Hkey. specialize (Hall key Hkey). specialize (Hst1 key Hkey).
    cbn [last_value].
    assert (Hproto : String.eqb key "__proto__" = true ->
                     params st1 !! key = params st !! key).
    { intros E. destruct (String.eqb key0 key); destruct Hst1 as [B1 _];
        [rewrite E in B1|]; exact B1. }
    destruct (last_value key dps') as [text|]; destruct Hall as [A1 A2].
    + split; [|exact A2].
      destruct (String.eqb key "__proto__") eqn:E; [|exact A1].
      rewrite A1. now apply Hproto.
    + destruct (String.eqb key0 key); destruct Hst1 as [B1 B2];
        split; congruence.
Qed.

Lemma overrideParams_returns (loc : Location) (st : Init) :
  snd (override_loop (key_pairs (search loc)) st) = Returned tt ->
  snd (overrideParams loc st) = Returned tt.
Proof.
  unfold overrideParams, bind, get_state, when, set_kiwixComm, modify, ret.
  destruct (override_loop (key_pairs (search loc)) st) as [st1 r]; simpl.
  intros ->. destruct (truthy _ && _); reflexivity.
Qed.

(** C9, as it is stated, fails: a querystring that overrides
    [params.keyPrefix] makes the loop write the persisted ['title'] entry of
    [localStorage] through another key, and a pair that cannot be decoded
    stops the script, so that the pairs after it are not written. *)
Lemma overrideParams_title_entry_overwritten :
  let st := {| browser := {| cookiesEnabled := true; cookieJar := [];
                             localStorageAvailable := true;
                             localStorageItems := {[ "kiwixjs-title" := "Kiwix" ]};
                             cookiesReadable := true |};
               params := local_storage_params; kiwixComm := None |} in
  let loc := {| hasServiceWorker := true;
                search := "?keyPrefix=kiwixjs-t&itle=x&b=%&c=1";
                href := "https://browser-extension.kiwix.org/current/www/index.html" |} in
  let r := overrideParams loc st in
  key_pairs (search loc) = [("keyPrefix", "kiwixjs-t"); ("itle", "x"); ("b", "%"); ("c", "1")]
  /\ localStorageItems (browser st) !! "kiwixjs-title" = Some "Kiwix"
  /\ localStorageItems (browser (fst r)) !! "kiwixjs-title" = Some "x"
  /\ snd r = Thrown URIError
  /\ params (fst r) !! "c" = None
  /\ localStorageItems (browser (fst r)) !! "kiwixjs-c" = None
  /\ localStorageItems (browser (fst r)) !! "kiwixjs-tc" = None.
Proof. vm_compute. repeat split. Qed.

(** C9, amended. For every querystring, overrideParams leaves
    [params.title] and the cookies named ['title'] as they are: the loop never
    writes the key ['title'].  It leaves the entry of [localStorage] under the
    prefixed key of ['title'] as it is when no pair of the querystring
    overrides [keyPrefix].  When every pair of the querystring can be decoded,
    none overrides [storeType] or [keyPrefix], and a store is in use, the
    function returns, and for every key other than ['title']: when the
    querystring has a pair for the key, [params] holds the value of the last
    such pair, decoded and with ['true'] and ['false'] made booleans, and the
    store holds its text; when it has none, [params] and the store hold for
    the key what they held.  The key ['__proto__'] is the exception: its
    pairs are written to the store, and [params] keeps what it held, as the
    assignment of a string or a boolean to [params['__proto__']] assigns
    nothing. *)
Theorem overrideParams_writes_all_but_title (loc : Location) (st : Init) :
  let st' := fst (overrideParams loc st) in
  (params st' !! "title" = params st !! "title"
   /\ cookies_named "title" (cookieJar (browser st'))
      = cookies_named "title" (cookieJar (browser st)))
  /\ (Forall (fun m => decodeURIComponent (fst m) <> Some "keyPrefix")
        (key_pairs (search loc)) ->
      localStorageItems (browser st') !! prefixed (params st) "title"
      = localStorageItems (browser st) !! prefixed (params st) "title")
  /\ (forall dps,
        decode_pairs (key_pairs (search loc)) = Some dps ->
        overrides "storeType" dps = false -> overrides "keyPrefix" dps = false ->
        store_ready (params st) (browser st) = true ->
        snd (overrideParams loc st) = Returned tt
        /\ forall key, key <> "title" ->
             match last_value key dps with
             | Some text =>
                 params st' !! key
                 = (if String.eqb key "__proto__" then params st !! key
                    else Some (boolean_if_literal text))
                 /\ store_entry (params st) key (browser st')
                    = Some (stored_form (params st) text)
             | None =>
                 params st' !! key = params st !! key
                 /\ store_entry (params st) key (browser st')
                    = store_entry (params st) key (browser st)
             end).
Proof.
  cbv zeta. destruct (overrideParams_state loc st) as [Eb Ep]. rewrite Eb, Ep.
  split; [apply override_loop_title|].
  split.
  - intros HQ. now apply override_loop_title_entry.
  - intros dps Hdec Hst Hkp Hready.
    destruct (override_loop_writes (params st) (key_pairs (search loc)) dps st)
      as (Hret & _ & _ & Hall); try assumption.
    + apply key_pairs_from_nonempty.
    + split; reflexivity.
    + split; [now apply overrideParams_returns | exact Hall].
Qed.

Lemma overrideParams_writes_all_but_title_witness :
  let st := {| browser := {| cookiesEnabled := true; cookieJar := [];
                             localStorageAvailable := true;
                             localStorageItems := {[ "kiwixjs-title" := "Kiwix" ]};
                             cookiesReadable := true |};
               params := local_storage_params; kiwixComm := None |} in
  let loc := {| hasServiceWorker := true;
                search := "?appTheme=dark_invert&title=Foo&appCache=false&__proto__=x&appTheme=light";
                href := "https://browser-extension.kiwix.org/current/www/index.html" |} in
  let st' := fst (overrideParams loc st) in
  localStorageItems (browser st') !! "kiwixjs-title" = Some "Kiwix"
  /\ params st' !! "appCache" = Some (JBool false)
  /\ localStorageItems (browser st') !! "kiwixjs-appTheme" = Some "light"
  /\ params st' !! "__proto__" = None
  /\ localStorageItems (browser st') !! "kiwixjs-__proto__" = Some "x".
Proof.
  intros st loc st'.
  set (dps := [("appTheme", "dark_invert"); ("title", "Foo");
               ("appCache", "false"); ("__proto__", "x"); ("appTheme", "light")]).
  assert (Hpairs : key_pairs (search loc) = dps) by (vm_compute; reflexivity).
  assert (Hdec : decode_pairs (key_pairs (search loc)) = Some dps)
    by (vm_compute; reflexivity).
  assert (Hst : overrides "storeType" dps = false) by (vm_compute; reflexivity).
  assert (Hkp : overrides "keyPrefix" dps = false) by (vm_compute; reflexivity).
  assert (Hready : store_ready (params st) (browser st) = true)
    by (vm_compute; reflexivity).
  assert (Hno : Forall (fun m => decodeURIComponent (fst m) <> Some "keyPrefix")
                  (key_pairs (search loc))).
  { rewrite Hpairs.
    repeat (constructor; [intros E; vm_compute in E; discriminate E|]).
    constructor. }
  destruct (overrideParams_writes_all_but_title loc st) as (_ & Htitle & Hall).
  destruct (Hall dps Hdec Hst Hkp Hready) as (_ & Hkeys).
  split; [|split; [|split; [|split]]].
  - exact (Htitle Hno).
  - destruct (Hkeys "appCache") as [H _]; [discriminate | exact H].
  - destruct (Hkeys "appTheme") as [_ H]; [discriminate | exact H].
  - destruct (Hkeys "__proto__") as [H _]; [discriminate | exact H].
  - destruct (Hkeys "__proto__") as [_ H]; [discriminate | exact H].
Defined.

(** ** The script runs to its end *)

Lemma hoare_bind {S A B} (P : S -> Prop) (Q : A -> S -> Prop) (R : B -> S -> Prop)
    (m : M S A) (k : A -> M S B) :
  hoare P m Q -> (forall a, hoare (Q a) (k a) R) -> hoare P (bind m k) R.
Proof.
  intros Hm Hk s Hs. destruct (Hm s Hs) as (s1 & a & E & H1).
  destruct (Hk a s1 H1) as (s2 & b & E2 & H2).
  exists s2, b. unfold bind. now rewrite E.
Qed.

Lemma hoare_ret {S A} (P : S -> Prop) (a : A) : hoare P (ret a) (fun _ => P).
Proof. intros s Hs. now exists s, a. Qed.

Lemma hoare_when {S} (P : S -> Prop) (b : bool) (m : M S unit) :
  hoare P m (fun _ => P) -> hoare P (when b m) (fun _ => P).
Proof. destruct b; [auto | intros _; apply hoare_ret]. Qed.

Lemma hoare_weaken {S A} (P P' : S -> Prop) (Q Q' : A -> S -> Prop) (m : M S A) :
  (forall s, P' s -> P s) -> (forall a s, Q a s -> Q' a s) ->
  hoare P m Q -> hoare P' m Q'.
Proof.
  intros HP HQ Hm s Hs. destruct (Hm s (HP s Hs)) as (s' & a & E & H).
  exists s', a. auto.
Qed.

Lemma hoare_get_setting (name : string) :
  hoare local_storage_in_use (get_setting name) (fun _ => local_storage_in_use).
Proof.
  intros st [H1 H2]. unfold get_setting.
  rewrite getSetting_local_storage by assumption.
  eexists _, _. split; [reflexivity | now split].
Qed.

Lemma storeType_is_insert_ne (ps : gmap string jsval) key v t :
  key <> "storeType" -> storeType_is (<[key := v]> ps) t = storeType_is ps t.
Proof. intros H. unfold storeType_is. now rewrite param_insert_ne. Qed.

Lemma hoare_set_param (key : string) (v : jsval) :
  key <> "storeType" ->
  hoare local_storage_in_use (set_param key v) (fun _ => local_storage_in_use).
Proof.
  intros Hne st [H1 H2]. eexists _, tt. split; [apply set_param_state|].
  split; simpl; [|exact H2].
  destruct (String.eqb key "__proto__"); [exact H1|].
  now rewrite storeType_is_insert_ne.
Qed.

Lemma hoare_set_param_fresh (key : string) (v : jsval) :
  hoare fresh_profile (set_param key v) (fun _ => fresh_profile).
Proof. intros st H. eexists _, tt. split; [apply set_param_state | exact H]. Qed.

Lemma hoare_storage_api :
  hoare fresh_profile (on_browser getBestAvailableStorageAPI)
    (fun t st => t = "local_storage" /\ fresh_profile st).
Proof.
  intros [[en jar av items rd] ps comm] [Hav Hjar]. simpl in Hav, Hjar. subst av jar.
  unfold on_browser. cbn [browser params kiwixComm].
  destruct en, rd; eexists _, _; (split; [reflexivity|]);
    (split; [reflexivity | split; reflexivity]).
Qed.

Lemma setSetting_available (ps : gmap string jsval) key val (b : Browser) :
  localStorageAvailable b = true ->
  snd (setSetting ps key val b) = Returned tt
  /\ localStorageAvailable (fst (setSetting ps key val b)) = true.
Proof.
  intros Hav. unfold setSetting, bind, when, modify, ret, localStorage_setItem.
  destruct (storeType_is ps "cookie"), (storeType_is ps "local_storage"); simpl;
    rewrite ?Hav; simpl; auto.
Qed.

Lemma hoare_override_loop (ms dps : list (string * string)) :
  decode_pairs ms = Some dps ->
  hoare storage_available (override_loop ms) (fun _ => storage_available).
Proof.
  revert dps. induction ms as [|[k v] ms IH]; intros dps Hdec.
  - apply hoare_ret.
  - cbn [decode_pairs] in Hdec.
    destruct (decodeURIComponent k) as [key|] eqn:Ek; [|discriminate].
    destruct (decodeURIComponent v) as [text|] eqn:Ev; [|discriminate].
    destruct (decode_pairs ms) as [dps'|]; [|discriminate].
    cbn [override_loop].
    apply hoare_bind with (Q := fun _ => storage_available);
      [|intros _; now apply (IH dps')].
    unfold override_one. cbn [fst snd]. apply hoare_when.
    unfold decode. rewrite Ek, Ev.
    apply hoare_bind with (Q := fun _ => storage_available);
      [apply hoare_ret|]. intros paramKey.
    apply hoare_bind with (Q := fun _ => storage_available);
      [apply hoare_ret|]. intros paramVal.
    apply hoare_when. apply hoare_bind with (Q := fun _ => storage_available).
    + intros st Hst. unfold set_setting, on_browser.
      destruct (setSetting_available (params st) paramKey (boolean_if_literal paramVal)
                  (browser st) Hst) as [H1 H2].
      destruct (setSetting (params st) paramKey (boolean_if_literal paramVal) (browser st))
        as [b' r]. simpl in *. subst r.
      eexists _, tt. split; [reflexivity | exact H2].
    + intros _ st Hst. eexists _, tt. split; [apply set_param_state | exact Hst].
Qed.

Ltac hoare_settings :=
  repeat first
    [ apply hoare_set_param; discriminate
    | apply hoare_get_setting
    | (apply hoare_bind with (Q := fun _ => local_storage_in_use); [|intros ?]) ].

Lemma hoare_defaultParams (loc : Location) :
  hoare fresh_profile (defaultParams loc) (fun _ => storage_available).
Proof.
  unfold defaultParams.
  apply hoare_bind with (Q := fun _ => fresh_profile);
    [apply hoare_set_param_fresh | intros _].
  apply hoare_bind with (Q := fun _ => fresh_profile);
    [apply hoare_set_param_fresh | intros _].
  apply hoare_bind with (Q := fun t st => t = "local_storage" /\ fresh_profile st);
    [apply hoare_storage_api | intros t].
  apply hoare_bind with (Q := fun _ => local_storage_in_use).
  { intros st [-> [Hav Hjar]]. eexists _, tt. split; [reflexivity|].
    split; [|exact Hav]. unfold storeType_is. simpl. now rewrite param_insert_eq. }
  intros _.
  apply hoare_weaken with (P := local_storage_in_use) (Q := fun _ => local_storage_in_use);
    [auto | intros _ st [_ H]; exact H |].
  hoare_settings.
Qed.

(** The script runs to line 126 and past it when [localStorage] is
    available, the page has no cookie, and every key and value of the
    querystring can be decoded. *)
Lemma resolveParams_returns (loc : Location) (b : Browser)
    (dps : list (string * string)) :
  localStorageAvailable b = true -> cookieJar b = [] ->
  decode_pairs (key_pairs (search loc)) = Some dps ->
  snd (resolveParams loc (at_script_start b)) = Returned tt.
Proof.
  intros Hav Hjar Hdec.
  assert (H : hoare fresh_profile (resolveParams loc) (fun _ _ => True)).
  { unfold resolveParams.
    apply hoare_bind with (Q := fun _ => storage_available);
      [apply hoare_defaultParams | intros _].
    apply hoare_bind with (Q := fun _ => storage_available).
    - unfold overrideParams.
      apply hoare_bind with (Q := fun _ => storage_available);
        [now apply (hoare_override_loop _ dps) | intros _].
      apply hoare_bind with (Q := fun _ => storage_available).
      + intros st Hst. now exists st, st.
      + intros st0. apply hoare_when.
        intros st Hst. eexists _, tt. split; [reflexivity | exact Hst].
    - intros _ st _. unfold forceAppCache, bind, get_state.
      eexists _, tt. split; [reflexivity | exact I]. }
  destruct (H (at_script_start b)) as (st' & [] & E & _); [now split|].
  now rewrite E.
Qed.

(** * Further properties *)

(** ** The regular expression of overrideParams *)

Lemma span_fst_forallb (p : ascii -> bool) (s : string) :
  string_forallb p (fst (span p s)) = true.
Proof.
  induction s as [|c s IH]; simpl; [reflexivity|].
  destruct (p c) eqn:E; [|reflexivity].
  destruct (span p s) as [a b]. simpl in *. now rewrite E, IH.
Qed.

Lemma key_pair_here_none (s : string) :
  string_existsb (is_char "=") s = false -> key_pair_here s = None.
Proof.
  destruct s as [|c r]; [reflexivity|]. simpl. intros H.
  apply orb_false_iff in H as [_ H].
  destruct (is_char "?" c || is_char "&" c); [|reflexivity].
  assert (E : snd (span (fun x => negb (is_char "=" x)) r) = "").
  { clear -H. induction r as [|a r IH]; [reflexivity|]. simpl in *.
    apply orb_false_iff in H as [Ha Hr]. rewrite Ha. simpl.
    specialize (IH Hr). destruct (span _ r). exact IH. }
  destruct (span (fun x => negb (is_char "=" x)) r) as [k r1]. simpl in E. now subst r1.
Qed.

(** X1. Every pair that the regular expression of overrideParams matches has a
    key that is not empty and has no equals sign, and a value that is not
    empty and has no ampersand: the test [matches[1] && matches[2]] of the loop
    never fails.  A querystring without an equals sign has no pair. *)
Theorem key_pairs_shape (s : string) :
  Forall (fun m => nonempty (fst m) = true
                   /\ string_existsb (is_char "=") (fst m) = false
                   /\ nonempty (snd m) = true
                   /\ string_existsb (is_char "&") (snd m) = false)
    (key_pairs s)
  /\ (string_existsb (is_char "=") s = false -> key_pairs s = []).
Proof.
  split.
  - unfold key_pairs. generalize 0%nat as skip.
    induction s as [|c s IH]; intros skip; simpl; [constructor|].
    destruct skip as [|n]; [|apply IH].
    destruct (is_char "?" c || is_char "&" c); [|apply IH].
    pose proof (span_fst_forallb (fun x => negb (is_char "=" x)) s) as Hk.
    destruct (span (fun x => negb (is_char "=" x)) s) as [k r1]. simpl in Hk.
    destruct r1 as [|c1 r2]; [apply IH|].
    pose proof (span_fst_forallb (fun x => negb (is_char "&" x)) r2) as Hv.
    destruct (nonempty k && nonempty (span (fun x => negb (is_char "&" x)) r2).1) eqn:E;
      [|apply IH].
    apply andb_true_iff in E as [E1 E2].
    constructor; [|apply IH]. simpl.
    repeat split; auto using forallb_existsb_neg.
  - unfold key_pairs. generalize 0%nat as skip.
    induction s as [|c s IH]; intros skip H; [reflexivity|].
    cbn [key_pairs_from]. destruct skip as [|n].
    + rewrite key_pair_here_none by exact H. apply IH.
      simpl in H. now apply orb_false_iff in H as [_ H].
    + apply IH. simpl in H. now apply orb_false_iff in H as [_ H].
Qed.

Lemma key_pairs_shape_witness : key_pairs "?PWA_launch&lang" = [].
Proof. apply (proj2 (key_pairs_shape "?PWA_launch&lang")). reflexivity. Defined.

(** ** overrideParams: what a malformed querystring does *)

Lemma override_one_returns (k v key text : string) (st : Init) :
  storage_available st ->
  decodeURIComponent k = Some key -> decodeURIComponent v = Some text ->
  exists st', override_one (k, v) st = (st', Returned tt) /\ storage_available st'.
Proof.
  intros Hst Ek Ev. unfold override_one. cbn [fst snd].
  destruct (nonempty k && nonempty v); [|now exists st].
  simpl. unfold decode. rewrite Ek, Ev.
  cbv beta iota delta [bind ret when].
  destruct (negb (String.eqb key "title")); [|now exists st].
  unfold set_setting, on_browser, set_param, modify.
  destruct (setSetting_available (params st) key (boolean_if_literal text)
              (browser st) Hst) as [H1 H2].
  destruct (setSetting (params st) key (boolean_if_literal text) (browser st))
    as [b' r]. simpl in *. subst r.
  destruct (String.eqb key "__proto__");
    (eexists; split; [reflexivity | exact H2]).
Qed.

Lemma override_loop_throws (ms : list (string * string)) : forall st : Init,
  Forall (fun m => nonempty (fst m) && nonempty (snd m) = true) ms ->
  storage_available st -> decode_pairs ms = None ->
  snd (override_loop ms st) = Thrown URIError.
Proof.
  induction ms as [|[k v] ms IH]; intros st Hne Hst Hdec; [discriminate|].
  inversion Hne as [|? ? Hkv Hne']; subst. simpl in Hkv.
  cbn [decode_pairs] in Hdec. cbn [override_loop]. unfold bind.
  destruct (decodeURIComponent k) as [key|] eqn:Ek.
  - destruct (decodeURIComponent v) as [text|] eqn:Ev.
    + destruct (override_one_returns k v key text st Hst Ek Ev) as (st' & E & Hst').
      rewrite E. apply IH; [exact Hne' | exact Hst' |].
      destruct (decode_pairs ms); [discriminate | reflexivity].
    + unfold override_one. cbn [fst snd]. rewrite Hkv. simpl.
      unfold decode. rewrite Ek, Ev. reflexivity.
  - unfold override_one. cbn [fst snd]. rewrite Hkv. simpl.
    unfold decode. rewrite Ek. reflexivity.
Qed.

(** X2. When [localStorage] is available, so that setSetting never throws, a
    querystring with a key or a value that [decodeURIComponent] rejects makes
    overrideParams throw a [URIError]: the script stops there, no message is
    sent to the extension, and line 126 is not run. *)
Theorem overrideParams_malformed_escape (loc : Location) (st : Init) :
  localStorageAvailable (browser st) = true ->
  decode_pairs (key_pairs (search loc)) = None ->
  snd (overrideParams loc st) = Thrown URIError
  /\ kiwixComm (fst (overrideParams loc st)) = kiwixComm st
  /\ (overrideParams loc ;; forceAppCache)%js st = overrideParams loc st.
Proof.
  intros Hav Hdec.
  pose proof (override_loop_throws (key_pairs (search loc)) st
                (key_pairs_from_nonempty _ _) Hav Hdec) as Hthrow.
  assert (Hcomm : kiwixComm (fst (override_loop (key_pairs (search loc)) st))
                  = kiwixComm st).
  { apply (override_loop_invariant (fun a b => kiwixComm b = kiwixComm a)
             (fun _ => True)); auto.
    - intros a b c H1 H2. congruence.
    - intros m st0 st1 _ H.
      destruct (override_one_effect m st1) as [->|(key & text & _ & _ & _ & _ & Hc & _)];
        congruence.
    - clear. induction (key_pairs (search loc)); constructor; auto. }
  assert (E : overrideParams loc st
              = (fst (override_loop (key_pairs (search loc)) st), Thrown URIError)).
  { unfold overrideParams, bind.
    destruct (override_loop (key_pairs (search loc)) st) as [st1 r].
    simpl in Hthrow. now subst r. }
  rewrite E. simpl. split; [reflexivity|]. split; [exact Hcomm|].
  unfold bind. now rewrite E.
Qed.

Lemma overrideParams_malformed_escape_witness :
  snd (overrideParams
         {| hasServiceWorker := true; search := "?lang=%zz&appTheme=dark";
            href := "https://browser-extension.kiwix.org/current/www/index.html" |}
         {| browser := empty_browser; params := local_storage_params;
            kiwixComm := None |})
  = Thrown URIError.
Proof.
  apply overrideParams_malformed_escape; vm_compute; reflexivity.
Defined.

(** X3. Whatever the stores and whether the loop returns or throws, overrideParams
    assigns only the properties of [params] that a pair of the querystring
    names: a key that no matched pair decodes to keeps its value. *)
Theorem overrideParams_params_frame (loc : Location) (st : Init) (key : string) :
  Forall (fun m => decodeURIComponent (fst m) <> Some key) (key_pairs (search loc)) ->
  params (fst (overrideParams loc st)) !! key = params st !! key.
Proof.
  intros HQ. destruct (overrideParams_state loc st) as [_ Ep]. rewrite Ep.
  apply (override_loop_invariant (fun a b => params b !! key = params a !! key)
           (fun m => decodeURIComponent (fst m) <> Some key)); auto.
  - intros a b c H1 H2. congruence.
  - intros m st0 st1 Hm H.
    destruct (override_one_effect m st1)
      as [->|(k & text & Ek & _ & _ & _ & _ & [-> | ->])]; [exact H | exact H |].
    rewrite lookup_insert_ne; [exact H|]. intros ->. now apply Hm.
Qed.

Lemma overrideParams_params_frame_witness :
  params (fst (overrideParams
                 {| hasServiceWorker := true; search := "?appTheme=dark&x=%";
                    href := "" |}
                 {| browser := empty_browser; params := local_storage_params;
                    kiwixComm := None |})) !! "keyPrefix"
  = Some (JStr "kiwixjs-").
Proof.
  rewrite overrideParams_params_frame; [reflexivity|].
  change (key_pairs _) with (key_pairs "?appTheme=dark&x=%").
  replace (key_pairs "?appTheme=dark&x=%") with [("appTheme", "dark"); ("x", "%")]
    by (vm_compute; reflexivity).
  repeat (constructor; [intros E; vm_compute in E; discriminate E|]). constructor.
Defined.

Lemma resolveParams_returns_witness :
  snd (resolveParams
         {| hasServiceWorker := false; search := "?appTheme=dark_invert&lang=fr";
            href := "https://browser-extension.kiwix.org/current/www/index.html" |}
         (at_script_start empty_browser))
  = Returned tt.
Proof.
  apply (resolveParams_returns _ empty_browser
           [("appTheme", "dark_invert"); ("lang", "fr")]);
    vm_compute; reflexivity.
Defined.

(** ** getBestAvailableStorageAPI *)

Lemma starts_with_app (p r : string) : starts_with p (p +:+ r) = true.
Proof.
  unfold starts_with. induction p as [|c p IH]; [reflexivity|].
  simpl. now rewrite Ascii.eqb_refl.
Qed.

Lemma search_lit_app (p a b : string) : search_lit p (a +:+ p +:+ b) = true.
Proof.
  induction a as [|c a IH].
  - simpl. destruct (p +:+ b) eqn:E; simpl; rewrite <- ?E, starts_with_app; reflexivity.
  - change (String c a +:+ p +:+ b) with (String c (a +:+ p +:+ b)).
    cbn [search_lit]. rewrite IH. apply orb_true_r.
Qed.

Lemma search_lit_app_r (p a b : string) :
  search_lit p b = true -> search_lit p (a +:+ b) = true.
Proof.
  intros H. induction a as [|c a IH]; [exact H|].
  change (String c a +:+ b) with (String c (a +:+ b)).
  cbn [search_lit]. rewrite IH. apply orb_true_r.
Qed.

Lemma cookie_string_put (n v : string) (jar : list (string * string)) :
  nonempty n = true ->
  search_lit (n +:+ "=" +:+ v) (cookie_string (jar_put n v jar)) = true.
Proof.
  intros Hn.
  assert (Hpair : cookie_pair (n, v) = n +:+ "=" +:+ v).
  { unfold cookie_pair, nonempty in *. simpl. apply negb_true_iff in Hn. now rewrite Hn. }
  induction jar as [|[n' v'] rest IH].
  - cbn [jar_put cookie_string]. rewrite Hpair.
    apply (search_lit_app (n +:+ "=" +:+ v) "" "").
  - cbn [jar_put]. destruct (String.eqb n n').
    + rewrite cookie_string_cons, Hpair.
      apply (search_lit_app (n +:+ "=" +:+ v) "" (cookie_tail rest)).
    + rewrite cookie_string_cons. apply search_lit_app_r.
      unfold cookie_tail. destruct (jar_put n v rest) eqn:E.
      * destruct rest as [|[? ?] ?]; simpl in E; [discriminate|].
        destruct (String.eqb n s); discriminate.
      * now apply search_lit_app_r.
Qed.

Lemma jar_expire_put (n v : string) (jar : list (string * string)) :
  jar_expire n (jar_put n v jar) = jar_expire n jar.
Proof.
  unfold jar_expire. induction jar as [|[n' v'] rest IH]; simpl.
  - now rewrite String.eqb_refl.
  - destruct (String.eqb n n') eqn:E; simpl.
    + now rewrite String.eqb_refl.
    + now rewrite E, IH.
Qed.

(** X5. getBestAvailableStorageAPI always returns, and chooses ['local_storage']
    when [localStorage] is available and [document.cookie] shows no
    [contentInjectionMode] (the settings have not been left in cookies).
    Otherwise it chooses ['cookie'] when [document.cookie], read after the
    probe cookie is written, contains the text [tempKiwixCookieTest=working]:
    that is so when the browser accepts the cookie, and also when it refuses
    the cookie and hands out cookies that contain that text already;
    otherwise it chooses ['none'].  The probe cleans up after itself: where
    the browser accepts writes, it leaves the cookies without a
    [tempKiwixCookieTest] cookie and [localStorage] without a
    [tempKiwixStorageTest] entry, and everything else as it was. *)
Theorem getBestAvailableStorageAPI_choice (b : Browser) :
  let b' := fst (getBestAvailableStorageAPI b) in
  snd (getBestAvailableStorageAPI b)
  = Returned
      (if localStorageAvailable b
          && negb (search_lit "contentInjectionMode=jquery" (document_cookie b')
                   || search_lit "contentInjectionMode=serviceworker" (document_cookie b'))
       then "local_storage"
       else if cookiesEnabled b
               || cookiesReadable b
                  && search_lit "tempKiwixCookieTest=working"
                       (cookie_string (cookieJar b))
            then "cookie" else "none")
  /\ cookieJar b' = (if cookiesEnabled b
                     then jar_expire "tempKiwixCookieTest" (cookieJar b)
                     else cookieJar b)
  /\ localStorageItems b'
     = (if localStorageAvailable b
        then delete "tempKiwixStorageTest" (localStorageItems b)
        else localStorageItems b)
  /\ cookiesEnabled b' = cookiesEnabled b
  /\ cookiesReadable b' = cookiesReadable b
  /\ localStorageAvailable b' = localStorageAvailable b.
Proof.
  destruct b as [en jar av items rd].
  unfold getBestAvailableStorageAPI.
  cbv beta iota zeta delta [bind get_state when modify ret fst snd
                            set_cookieJar set_localStorageItems
                            cookiesEnabled cookieJar localStorageAvailable
                            localStorageItems cookiesReadable].
  destruct en, av, rd; cbv beta iota;
    unfold document_cookie;
    cbv beta iota delta [cookiesEnabled cookieJar localStorageAvailable
                         localStorageItems cookiesReadable orb andb];
    rewrite ?jar_expire_put;
    rewrite ?(cookie_string_put "tempKiwixCookieTest" "working") by reflexivity;
    repeat split; reflexivity.
Qed.

(** ** The settings store when no store is available *)

(** X6. When [params.storeType] is neither ['cookie'] nor ['local_storage'] (it is
    ['none'] when the browser offers neither store), setSetting returns
    without writing anything and getSetting returns [undefined], not [null],
    for every name: a value that is written is not read back. *)
Theorem settings_without_store (ps : gmap string jsval) (name : string)
    (val : jsval) (b : Browser) :
  storeType_is ps "cookie" = false -> storeType_is ps "local_storage" = false ->
  setSetting ps name val b = (b, Returned tt)
  /\ getSetting ps name b = Returned JUndefined
  /\ getSetting ps name (fst (setSetting ps name val b)) = Returned JUndefined.
Proof.
  intros H1 H2.
  assert (E : setSetting ps name val b = (b, Returned tt)).
  { unfold setSetting. rewrite H1, H2. reflexivity. }
  rewrite E. unfold getSetting. rewrite H1, H2. auto.
Qed.

Lemma settings_without_store_witness :
  let ps : gmap string jsval := {[ "storeType" := JStr "none" ]} in
  getSetting ps "appTheme" (fst (setSetting ps "appTheme" (JStr "dark") empty_browser))
  = Returned JUndefined.
Proof.
  intros ps.
  apply (settings_without_store ps "appTheme" (JStr "dark") empty_browser);
    vm_compute; reflexivity.
Defined.


(** ** applyAppTheme for every theme *)


Lemma classList_op_ok op setter (t : string) :
  token_error t = None -> classList_op op setter t = modify (setter (op t)).
Proof. unfold classList_op. now intros ->. Qed.

Lemma wp_keeps_fields {A} (m : M Page A) (hs fs : list string) (d : option string) q :
  keeps_theme m ->
  htmlClassList q = hs -> footerClassList q = fs -> htmlDatasetTheme q = d ->
  wp m (fun p' _ => htmlClassList p' = hs /\ footerClassList p' = fs
                    /\ htmlDatasetTheme p' = d) q.
Proof.
  intros Hm H1 H2 H3. unfold wp. destruct (Hm q) as (G1 & G2 & G3).
  rewrite G1, G2, G3. auto.
Qed.

Lemma old_theme_tokens (p : Page) :
  old_theme_valid p ->
  (nonempty (old_app_theme p) = true -> token_error (old_app_theme p) = None)
  /\ token_error (str_or (old_content_theme p) "_light") = None.
Proof.
  intros Hv. unfold old_app_theme, old_content_theme.
  rewrite str_or_empty_r. split.
  - intros Hne. apply token_error_ok; [exact Hne|]. now apply replace_tail_existsb.
  - apply token_error_ok; [now apply str_or_nonempty|].
    apply str_or_existsb; [|reflexivity]. now apply span_snd_existsb.
Qed.

Lemma new_theme_tokens (theme : string) (p : Page) :
  string_existsb ascii_whitespace theme = false ->
  (nonempty (resolved_app_theme theme p) = true ->
   token_error (resolved_app_theme theme p) = None)
  /\ token_error (str_or (strip_app_theme theme) "_light") = None.
Proof.
  intros Hv. split.
  - intros Hne. apply token_error_ok; [exact Hne|]. unfold resolved_app_theme.
    destruct (starts_with "auto" theme); [destruct (prefersDark p); reflexivity|].
    now apply replace_tail_existsb.
  - apply token_error_ok; [now apply str_or_nonempty|].
    apply str_or_existsb; [|reflexivity]. now apply span_snd_existsb.
Qed.

(** The class lists and the recorded theme after a call whose tokens are
    valid. *)
Lemma applyAppTheme_theme_fields (theme : string) (p : Page) :
  old_theme_valid p ->
  string_existsb ascii_whitespace theme = false ->
  let p' := fst (applyAppTheme theme p) in
  let app := resolved_app_theme theme p in
  let content := strip_app_theme theme in
  htmlClassList p'
  = (if nonempty app then token_add app else fun l => l)
      ((if nonempty (old_app_theme p) then token_remove (old_app_theme p)
        else fun l => l) (htmlClassList p))
  /\ footerClassList p'
     = token_add (str_or content "_light")
         (token_remove (str_or (old_content_theme p) "_light") (footerClassList p))
  /\ htmlDatasetTheme p' = Some (app +:+ content).
Proof.
  intros Hold Hnew. cbv zeta.
  destruct (old_theme_tokens p Hold) as [Ho1 Ho2].
  destruct (new_theme_tokens theme p Hnew) as [Hn1 Hn2].
  match goal with
  | |- _ = ?hs /\ _ = ?fs /\ _ = ?d =>
      change (wp (applyAppTheme theme)
                (fun p' _ => htmlClassList p' = hs /\ footerClassList p' = fs
                             /\ htmlDatasetTheme p' = d) p)
  end.
  unfold applyAppTheme. apply wp_bind, wp_get_state. cbv zeta.
  fold (resolved_app_theme theme p). fold (old_app_theme p). fold (old_content_theme p).
  rewrite (classList_op_ok token_remove set_footerClassList _ Ho2).
  rewrite (classList_op_ok token_add set_footerClassList _ Hn2).
  destruct (nonempty (old_app_theme p)) eqn:E1;
    [rewrite (classList_op_ok token_remove set_htmlClassList _ (Ho1 eq_refl))|];
    (destruct (nonempty (resolved_app_theme theme p)) eqn:E2;
     [rewrite (classList_op_ok token_add set_htmlClassList _ (Hn1 eq_refl))|]);
    do 5 (eapply wp_seq; [reflexivity|]);
    (apply wp_keeps_fields; [|reflexivity|reflexivity|reflexivity]);
    destruct (starts_with "auto" theme
              && String.eqb (resolved_app_theme theme p) "light");
    keeps_theme_solve.
Qed.

Lemma theme_split_join (theme : string) :
  has_line_terminator theme = false ->
  strip_content_theme theme +:+ strip_app_theme theme = theme.
Proof.
  unfold strip_content_theme, strip_app_theme.
  induction theme as [|c r IH]; intros H; [reflexivity|].
  assert (Hr : has_line_terminator r = false).
  { cbn [has_line_terminator] in H. now apply orb_false_iff in H as [_ H]. }
  cbn [replace_tail span]. unfold re_underscore_rest. rewrite Hr.
  destruct (is_char "_" c); simpl; [reflexivity|].
  specialize (IH Hr). destruct (span (fun x => negb (is_char "_" x)) r) as [a b].
  simpl in *. f_equal. exact IH.
Qed.

(** X7. For every theme without white space, on a page whose recorded theme is
    valid: after applyAppTheme the root carries the resolved app theme (the
    part before the underscore, or dark or light for an auto theme), the
    footer carries the content theme (the part from the underscore on, or
    ['_light'] when there is none), and [dataset.theme] records the two parts
    joined, which is the theme string itself when the theme is not an auto
    theme. *)
Theorem applyAppTheme_applies_theme (theme : string) (p : Page) :
  old_theme_valid p ->
  string_existsb ascii_whitespace theme = false ->
  let p' := fst (applyAppTheme theme p) in
  let app := resolved_app_theme theme p in
  let content := strip_app_theme theme in
  (nonempty app = true -> In app (htmlClassList p'))
  /\ In (str_or content "_light") (footerClassList p')
  /\ htmlDatasetTheme p' = Some (app +:+ content)
  /\ (starts_with "auto" theme = false -> has_line_terminator theme = false ->
      htmlDatasetTheme p' = Some theme).
Proof.
  intros Hold Hnew. cbv zeta.
  destruct (applyAppTheme_theme_fields theme p Hold Hnew) as (H1 & H2 & H3).
  rewrite H1, H2, H3. repeat split.
  - intros ->. apply token_add_In.
  - apply token_add_In.
  - intros Hauto Hlt. unfold resolved_app_theme. rewrite Hauto.
    now rewrite theme_split_join.
Qed.

Lemma applyAppTheme_applies_theme_witness :
  let p := {| prefersDark := true; htmlClassList := ["dark"];
              htmlDatasetTheme := Some "dark_mwInvert"; footerClassList := ["_mwInvert"];
              iframeClassList := ["_mwInvert"]; contentDocument := None;
              displays := ∅; configureNavActive := false;
              locationBase := "https://kiwix.example/www/index.html";
              viewArticleListeners := 0;
              regexpSearch := fun _ _ => None |} in
  In "_light" (footerClassList (fst (applyAppTheme "light" p)))
  /\ htmlDatasetTheme (fst (applyAppTheme "light" p)) = Some "light".
Proof.
  intros p.
  destruct (applyAppTheme_applies_theme "light" p eq_refl eq_refl) as (_ & H2 & _ & H4).
  split; [exact H2 | exact (H4 eq_refl eq_refl)].
Defined.



Lemma token_error_whitespace (t : string) :
  nonempty t = true -> string_existsb ascii_whitespace t = true ->
  token_error t = Some InvalidCharacterError.
Proof.
  unfold token_error, nonempty. intros Hne ->.
  now destruct (String.eqb t "").
Qed.

(** X9. A theme whose app part holds white space is refused by [classList.add]:
    the call throws InvalidCharacterError after the classes of the old theme
    have been removed and before [dataset.theme] is written, so the page is
    left without the old theme's classes while it still records the old
    theme. *)
Theorem applyAppTheme_invalid_token (theme : string) (p : Page) :
  old_theme_valid p ->
  starts_with "auto" theme = false ->
  nonempty (strip_content_theme theme) = true ->
  string_existsb ascii_whitespace (strip_content_theme theme) = true ->
  let p' := fst (applyAppTheme theme p) in
  snd (applyAppTheme theme p) = Thrown InvalidCharacterError
  /\ htmlDatasetTheme p' = htmlDatasetTheme p
  /\ (nonempty (old_app_theme p) = true -> ~ In (old_app_theme p) (htmlClassList p'))
  /\ ~ In (str_or (old_content_theme p) "_light") (footerClassList p')
  /\ (forall c, In c (htmlClassList p') -> In c (htmlClassList p)).
Proof.
  intros Hold Hauto Hne Hws. cbv zeta.
  destruct (old_theme_tokens p Hold) as [Ho1 Ho2].
  pose proof (token_error_whitespace _ Hne Hws) as Herr.
  assert (E : applyAppTheme theme p
              = (set_footerClassList
                   (token_remove (str_or (old_content_theme p) "_light"))
                   (if nonempty (old_app_theme p)
                    then set_htmlClassList (token_remove (old_app_theme p)) p
                    else p),
                 Thrown InvalidCharacterError)).
  { unfold applyAppTheme. cbv beta iota zeta delta [bind get_state].
    rewrite Hauto. fold (old_app_theme p). fold (old_content_theme p).
    rewrite (classList_op_ok token_remove set_footerClassList _ Ho2).
    rewrite Hne.
    destruct (nonempty (old_app_theme p)) eqn:E1;
      [rewrite (classList_op_ok token_remove set_htmlClassList _ (Ho1 eq_refl))|];
      unfold when, modify, ret, classList_op; rewrite Herr; reflexivity. }
  rewrite E. cbn [fst snd]. split; [reflexivity|].
  destruct (nonempty (old_app_theme p));
    cbn [htmlDatasetTheme htmlClassList footerClassList
         set_footerClassList set_htmlClassList];
    (split; [reflexivity|]); (split; [|split]).
  - intros _. rewrite token_remove_spec. tauto.
  - rewrite token_remove_spec. tauto.
  - intros c. rewrite token_remove_spec. tauto.
  - discriminate.
  - rewrite token_remove_spec. tauto.
  - tauto.
Qed.

Lemma applyAppTheme_invalid_token_witness :
  let p := {| prefersDark := false; htmlClassList := ["light"];
              htmlDatasetTheme := Some "light"; footerClassList := ["_light"];
              iframeClassList := []; contentDocument := None;
              displays := ∅; configureNavActive := false;
              locationBase := "https://kiwix.example/www/index.html";
              viewArticleListeners := 0;
              regexpSearch := fun _ _ => None |} in
  snd (applyAppTheme "dark invert" p) = Thrown InvalidCharacterError
  /\ htmlDatasetTheme (fst (applyAppTheme "dark invert" p)) = Some "light"
  /\ ~ In "light" (htmlClassList (fst (applyAppTheme "dark invert" p))).
Proof.
  intros p.
  destruct (applyAppTheme_invalid_token "dark invert" p eq_refl eq_refl eq_refl eq_refl)
    as (H1 & H2 & H3 & _).
  split; [exact H1|]. split; [exact H2|]. exact (H3 eq_refl).
Defined.

Lemma old_content_token (p : Page) :
  old_theme_valid p -> nonempty (old_content_theme p) = true ->
  token_error (old_content_theme p) = None.
Proof.
  intros Hv Hne. apply token_error_ok; [exact Hne|].
  unfold old_content_theme. rewrite str_or_empty_r. now apply span_snd_existsb.
Qed.






(** ** removeUrlParameters on the usual shapes of a URL *)

Lemma replace_tail_app (m : ascii -> string -> bool) (p : ascii -> bool) (a s : string) :
  (forall c r, m c r = true -> p c = true) ->
  string_existsb p a = false ->
  replace_tail m (a +:+ s) = a +:+ replace_tail m s.
Proof.
  intros Hm. induction a as [|c a IH]; simpl; [reflexivity|].
  intros H. apply orb_false_iff in H as [Hc Ha].
  destruct (m c (a +:+ s)) eqn:E.
  - apply Hm in E. congruence.
  - now rewrite IH.
Qed.

Lemma existsb_forallb_neg (p : ascii -> bool) (s : string) :
  string_existsb p s = false -> string_forallb (fun x => negb (p x)) s = true.
Proof.
  induction s as [|a s IH]; simpl; [reflexivity|].
  intros H. apply orb_false_iff in H as [Ha Hs]. rewrite Ha. now apply IH.
Qed.

Lemma existsb_weaken (p q : ascii -> bool) (s : string) :
  (forall c, p c = true -> q c = true) ->
  string_existsb q s = false -> string_existsb p s = false.
Proof.
  intros Hpq. induction s as [|a s IH]; simpl; [reflexivity|].
  intros H. apply orb_false_iff in H as [Ha Hs]. rewrite (IH Hs), orb_false_r.
  destruct (p a) eqn:E; [|reflexivity]. apply Hpq in E. congruence.
Qed.

Lemma re_querystring_char c r : re_querystring c r = true -> is_char "?" c = true.
Proof. unfold re_querystring. now intros [H _]%andb_true_iff. Qed.

Lemma re_anchor_char c r : re_anchor c r = true -> is_char "#" c = true.
Proof. unfold re_anchor. now intros [H _]%andb_true_iff. Qed.

(** X15. A URL made of a part without ['?'] and ['#'], then an optional
    querystring, then an optional anchor, is cut back to that first part: with
    a querystring everything from its ['?'] on is removed, whatever the anchor
    holds; without one, an anchor free of [';'] is removed. *)
Theorem removeUrlParameters_base (base rest : string) :
  string_existsb (fun x => is_char "?" x || is_char "#" x) base = false ->
  (string_existsb (is_char "?") rest = false ->
   removeUrlParameters (base +:+ "?" +:+ rest) = base)
  /\ (string_existsb (fun x => is_char "#" x || is_char ";" x) rest = false ->
      string_existsb (is_char "?") rest = false ->
      removeUrlParameters (base +:+ "#" +:+ rest) = base).
Proof.
  intros Hbase.
  assert (Hq : string_existsb (is_char "?") base = false).
  { revert Hbase. apply existsb_weaken. intros c ->. reflexivity. }
  assert (Hh : string_existsb (is_char "#") base = false).
  { revert Hbase. apply existsb_weaken. intros c ->. apply orb_true_r. }
  unfold removeUrlParameters. split.
  - intros Hrest.
    rewrite (replace_tail_app re_querystring (is_char "?") base _ re_querystring_char Hq).
    cbn [String.append replace_tail]. unfold re_querystring at 1.
    rewrite (existsb_forallb_neg _ _ Hrest). cbn [is_char andb].
    change (is_char "?" "?") with true. cbn [andb]. rewrite append_empty_r.
    apply (replace_tail_id re_anchor (is_char "#")); [apply re_anchor_char | exact Hh].
  - intros Hrest Hrq.
    rewrite (replace_tail_id re_querystring (is_char "?")); [|apply re_querystring_char|].
    + rewrite (replace_tail_app re_anchor (is_char "#") base _ re_anchor_char Hh).
      cbn [String.append replace_tail]. unfold re_anchor at 1.
      rewrite (existsb_forallb_neg _ _ Hrest).
      change (is_char "#" "#") with true. cbn [andb]. apply append_empty_r.
    + rewrite existsb_app, Hq. cbn [String.append string_existsb].
      change (is_char "?" "#") with false. now rewrite Hrq.
Qed.

Lemma removeUrlParameters_base_witness :
  removeUrlParameters "A/Einstein.html?action=view#History" = "A/Einstein.html"
  /\ removeUrlParameters "A/Einstein.html#History" = "A/Einstein.html".
Proof.
  destruct (removeUrlParameters_base "A/Einstein.html" "action=view#History" eq_refl)
    as [H1 _].
  destruct (removeUrlParameters_base "A/Einstein.html" "History" eq_refl) as [_ H2].
  split; [exact (H1 eq_refl) | exact (H2 eq_refl eq_refl)].
Defined.

Lemma forallb_app_false (p : ascii -> bool) (a : string) (c : ascii) (r : string) :
  p c = false -> string_forallb p (a +:+ String c r) = false.
Proof.
  intros Hc. induction a as [|x a IH]; simpl.
  - now rewrite Hc.
  - rewrite IH. apply andb_false_r.
Qed.

(** X16. An anchor that holds a semicolon is kept: in a URL without ['?'] whose
    last ['#'] is followed by a [';'] somewhere, nothing is removed, so that an
    entity reference such as ['&#39;'] is not taken for an anchor. *)
Theorem removeUrlParameters_keeps_entity (base rest : string) :
  string_existsb (is_char "?") base = false ->
  string_existsb (fun x => is_char "?" x || is_char "#" x) rest = false ->
  string_existsb (is_char ";") rest = true ->
  removeUrlParameters (base +:+ "#" +:+ rest) = base +:+ "#" +:+ rest.
Proof.
  intros Hbase Hrest Hsemi.
  assert (Hq : string_existsb (is_char "?") rest = false).
  { revert Hrest. apply existsb_weaken. intros c ->. reflexivity. }
  assert (Hh : string_existsb (is_char "#") rest = false).
  { revert Hrest. apply existsb_weaken. intros c ->. apply orb_true_r. }
  unfold removeUrlParameters.
  rewrite (replace_tail_id re_querystring (is_char "?")); [|apply re_querystring_char|].
  - clear Hbase. induction base as [|c base IH].
    + cbn [String.append replace_tail]. unfold re_anchor at 1.
      change (is_char "#" "#") with true. cbn [andb].
      destruct (string_forallb _ rest) eqn:E.
      * apply forallb_existsb_neg in E.
        assert (string_existsb (is_char ";") rest = false); [|congruence].
        revert E. apply existsb_weaken. intros c ->. apply orb_true_r.
      * f_equal.
        apply (replace_tail_id re_anchor (is_char "#")); [apply re_anchor_char | exact Hh].
    + cbn [String.append replace_tail]. unfold re_anchor at 1.
      rewrite (forallb_app_false _ base "#" rest eq_refl), andb_false_r.
      f_equal. exact IH.
  - rewrite existsb_app, Hbase. cbn [String.append string_existsb].
    change (is_char "?" "#") with false. now rewrite Hq.
Qed.

Lemma removeUrlParameters_keeps_entity_witness :
  removeUrlParameters "A/Rock&#39;n&#39;roll" = "A/Rock&#39;n&#39;roll".
Proof.
  exact (removeUrlParameters_keeps_entity "A/Rock&#39;n&" "39;roll"
           eq_refl eq_refl eq_refl).
Defined.

(** ** feedNodeWithDataURI: the other paths *)

(** X17. Whenever nothing fails (the image is not decoded by the polyfill, or the
    polyfill decodes it and the canvas can be read), the call sets the target
    attribute of the node to the data URI, changes no other attribute, logs
    nothing and calls the callback once when one was given. *)
Theorem feedNodeWithDataURI_sets_attribute
    (env : FeedEnv) (nodeAttribute : string) (c : content) (mimeType : string)
    (callback : bool) (url : string) (s : FeedState) :
  (if webpMachinePresent env && search_ci "image/webp" mimeType
   then (is_data_uri c = true -> dataURIConverts env = true)
        /\ decodeSucceeds env = true
        /\ useCanvasElementsForWebpTranscoding env = false
        /\ canvasDataURL env = Some url
   else readerResult env = url) ->
  let (s', r) := feedNodeWithDataURI env nodeAttribute c mimeType callback s in
  r = Returned tt
  /\ nodeAttributes s' = <[nodeAttribute := url]> (nodeAttributes s)
  /\ (forall other, other <> nodeAttribute ->
        nodeAttributes s' !! other = nodeAttributes s !! other)
  /\ callbackCalls s' = (if callback then S (callbackCalls s) else callbackCalls s)
  /\ consoleErrors s' = consoleErrors s
  /\ nodeReplacedByCanvas s' = nodeReplacedByCanvas s.
Proof.
  unfold feedNodeWithDataURI.
  destruct (webpMachinePresent env && search_ci "image/webp" mimeType).
  - intros (Hc & Hd & Hu & Hurl).
    unfold bind, when, then_catch. rewrite Hd, Hu, Hurl.
    destruct (is_data_uri c); [rewrite Hc by reflexivity|]; simpl;
      repeat split; try reflexivity; intros other Ho; now rewrite lookup_insert_ne.
  - intros <-. simpl. repeat split; try reflexivity.
    intros other Ho. now rewrite lookup_insert_ne.
Qed.

Lemma feedNodeWithDataURI_sets_attribute_witness :
  let env := {| webpMachinePresent := true; dataURIConverts := true;
                decodeSucceeds := true;
                useCanvasElementsForWebpTranscoding := false;
                canvasDataURL := Some "data:image/png;base64,AAAA";
                readerResult := "data:image/webp;base64,UklGRg==" |} in
  let s := {| nodeAttributes := {[ "data-kiwixurl" := "I/m/logo.webp" ]};
              nodeReplacedByCanvas := false; consoleErrors := [];
              callbackCalls := 0; decodeCalls := 0 |} in
  let s' := fst (feedNodeWithDataURI env "src" (Binary [82; 73; 70; 70]%N)
                   "image/webp" true s) in
  nodeAttributes s' !! "src" = Some "data:image/png;base64,AAAA"
  /\ nodeAttributes s' !! "data-kiwixurl" = Some "I/m/logo.webp"
  /\ callbackCalls s' = 1%nat.
Proof.
  intros env s.
  pose proof (feedNodeWithDataURI_sets_attribute env "src" (Binary [82; 73; 70; 70]%N)
                "image/webp" true "data:image/png;base64,AAAA" s
                (conj (fun _ => eq_refl) (conj eq_refl (conj eq_refl eq_refl)))) as H.
  destruct (feedNodeWithDataURI env "src" (Binary [82; 73; 70; 70]%N)
              "image/webp" true s) as [s' r].
  destruct H as (_ & H2 & H3 & H4 & _).
  cbn [fst]. split; [|split].
  - rewrite H2. apply lookup_insert_eq.
  - rewrite H3 by discriminate. reflexivity.
  - exact H4.
Defined.

(** X18. When the polyfill decodes the image but the canvas cannot be read
    ([canvas.toDataURL()] throws, as browsers that protect against
    fingerprinting do) and the canvas workaround is off, the callback runs
    twice: once in the handler of the fulfilled promise and once more in the
    handler that catches the error.  The node is left as it was and the
    console reports a decoding error. *)
Theorem feedNodeWithDataURI_callback_twice
    (env : FeedEnv) (nodeAttribute : string) (c : content) (mimeType : string)
    (s : FeedState) :
  webpMachinePresent env = true ->
  search_ci "image/webp" mimeType = true ->
  (is_data_uri c = true -> dataURIConverts env = true) ->
  decodeSucceeds env = true ->
  useCanvasElementsForWebpTranscoding env = false ->
  canvasDataURL env = None ->
  let (s', r) := feedNodeWithDataURI env nodeAttribute c mimeType true s in
  r = Returned tt
  /\ callbackCalls s' = S (S (callbackCalls s))
  /\ nodeAttributes s' = nodeAttributes s
  /\ nodeReplacedByCanvas s' = nodeReplacedByCanvas s
  /\ consoleErrors s'
     = consoleErrors s ++ ["There was an error decoding image in WebpMachine"].
Proof.
  intros Hw Hm Hc Hd Hu Hurl. unfold feedNodeWithDataURI. rewrite Hw, Hm. simpl.
  unfold bind, when, then_catch. rewrite Hd, Hu, Hurl.
  destruct (is_data_uri c); [rewrite Hc by reflexivity|]; simpl;
    repeat split; reflexivity.
Qed.

Lemma feedNodeWithDataURI_callback_twice_witness :
  let env := {| webpMachinePresent := true; dataURIConverts := true;
                decodeSucceeds := true;
                useCanvasElementsForWebpTranscoding := false;
                canvasDataURL := None; readerResult := "" |} in
  let s := {| nodeAttributes := ∅; nodeReplacedByCanvas := false;
              consoleErrors := []; callbackCalls := 0; decodeCalls := 0 |} in
  callbackCalls (fst (feedNodeWithDataURI env "src" (Binary [82; 73; 70; 70]%N)
                        "image/webp" true s)) = 2%nat.
Proof.
  intros env s.
  pose proof (feedNodeWithDataURI_callback_twice env "src" (Binary [82; 73; 70; 70]%N)
                "image/webp" s eq_refl eq_refl (fun _ => eq_refl)
                eq_refl eq_refl eq_refl) as H.
  destruct (feedNodeWithDataURI env "src" (Binary [82; 73; 70; 70]%N)
              "image/webp" true s) as [s' r].
  destruct H as (_ & H2 & _). exact H2.
Defined.

(** X19. When the content is a data URI that the polyfill cannot convert, the call
    throws before the decoder is started: the callback is not called, so that
    a caller that waits for it before it handles the next image waits for
    ever, and nothing is logged. *)
Theorem feedNodeWithDataURI_conversion_throws
    (env : FeedEnv) (nodeAttribute : string) (c : content) (mimeType : string)
    (callback : bool) (s : FeedState) :
  webpMachinePresent env = true ->
  search_ci "image/webp" mimeType = true ->
  is_data_uri c = true ->
  dataURIConverts env = false ->
  feedNodeWithDataURI env nodeAttribute c mimeType callback s = (s, Thrown DOMError).
Proof.
  intros Hw Hm Hc Hd. unfold feedNodeWithDataURI. rewrite Hw, Hm. simpl.
  unfold bind, when. now rewrite Hc, Hd.
Qed.

Lemma feedNodeWithDataURI_conversion_throws_witness :
  let env := {| webpMachinePresent := true; dataURIConverts := false;
                decodeSucceeds := true;
                useCanvasElementsForWebpTranscoding := false;
                canvasDataURL := Some "data:image/png;base64,AAAA";
                readerResult := "" |} in
  let s := {| nodeAttributes := ∅; nodeReplacedByCanvas := false;
              consoleErrors := []; callbackCalls := 0; decodeCalls := 0 |} in
  callbackCalls (fst (feedNodeWithDataURI env "src" (Text "DATA:image/webp;base64,@@")
                        "image/webp" true s)) = 0%nat.
Proof.
  intros env s.
  rewrite (feedNodeWithDataURI_conversion_throws env "src"
             (Text "DATA:image/webp;base64,@@") "image/webp" true s
             eq_refl eq_refl eq_refl eq_refl).
  reflexivity.
Defined.

(** ** displayFileDownloadAlert: the file name *)

Lemma make_filename_safe_safe (s : string) :
  string_existsb unsafe_in_filename (make_filename_safe s) = false.
Proof.
  induction s as [|c s IH]; simpl; [reflexivity|].
  rewrite IH, orb_false_r. destruct (unsafe_in_filename c) eqn:E; [reflexivity | exact E].
Qed.

Lemma make_filename_safe_length (s : string) :
  String.length (make_filename_safe s) = String.length s.
Proof. induction s as [|c s IH]; simpl; congruence. Qed.

Lemma make_filename_safe_id (s : string) :
  string_existsb unsafe_in_filename s = false -> make_filename_safe s = s.
Proof.
  induction s as [|c s IH]; simpl; [reflexivity|].
  intros [Hc Hs]%orb_false_iff. rewrite Hc. now rewrite IH.
Qed.

Lemma split_last_slash_app (dir name : string) :
  string_existsb (is_char "/") name = false ->
  split_last_slash (dir +:+ "/" +:+ name) = Some (dir, name).
Proof.
  intros Hname.
  assert (Hn : split_last_slash name = None).
  { induction name as [|c name IH]; simpl; [reflexivity|].
    simpl in Hname. apply orb_false_iff in Hname as [Hc Hs].
    now rewrite IH, Hc. }
  induction dir as [|c dir IH]; cbn [String.append split_last_slash].
  - rewrite Hn. reflexivity.
  - cbn [String.append] in IH. now rewrite IH.
Qed.

(** X20. With [download === true] the file is named after the title: the name
    offered for saving is what follows the last slash of the title, with the
    characters that a file system refuses replaced by underscores, so it holds
    none of them and has the length of that last part.  The alert is shown,
    the spinner is hidden, and the type defaults to
    ['application/octet-stream']. *)
Theorem displayFileDownloadAlert_file_name
    (dir name : string) (contentType : jsval) (s : Alerts) :
  has_line_terminator dir = false ->
  nonempty name = true ->
  string_existsb (is_char "/") name = false ->
  let (s', r) :=
    displayFileDownloadAlert (dir +:+ "/" +:+ name) (JBool true) contentType s in
  r = Returned tt
  /\ (exists hook,
        downloadLink s'
        = Some (make_filename_safe name,
                if truthy contentType then ToString contentType
                else "application/octet-stream",
                hook))
  /\ string_existsb unsafe_in_filename (make_filename_safe name) = false
  /\ String.length (make_filename_safe name) = String.length name
  /\ downloadAlertDisplay s' = "block"
  /\ searchingArticlesDisplay s' = "none".
Proof.
  intros Hdir Hne Hname.
  unfold displayFileDownloadAlert, bind, modify, ret, file_of_title.
  rewrite (split_last_slash_app dir name Hname), Hdir, Hne. cbn [negb andb fst snd].
  split; [reflexivity|]. split.
  - eexists. cbn [downloadLink set_download_link].
    destruct (truthy contentType); reflexivity.
  - split; [apply make_filename_safe_safe|].
    split; [apply make_filename_safe_length|]. split; reflexivity.
Qed.

Lemma displayFileDownloadAlert_file_name_witness :
  let s := {| activeContentDisplay := "none"; activeContentWarningSetup := false;
              activeContentDismissListeners := 0; swModeLinkListeners := 0;
              stopListeners := 0; highlighted := None;
              cancelHighlightListeners := 0; btnConfigureClicks := 0;
              downloadAlertDisplay := "none"; downloadAlertSetup := false;
              downloadDismissListeners := 0; downloadLink := None;
              searchingArticlesDisplay := "block";
              anchorClickThrows := false; hasMsSaveBlob := false |} in
  exists hook,
    downloadLink (fst (displayFileDownloadAlert "A/books/What is this?.epub"
                         (JBool true) JUndefined s))
    = Some ("What is this_.epub", "application/octet-stream", hook).
Proof.
  intros s.
  pose proof (displayFileDownloadAlert_file_name "A/books" "What is this?.epub"
                JUndefined s eq_refl eq_refl eq_refl) as H.
  change ("A/books" +:+ "/" +:+ "What is this?.epub")
    with "A/books/What is this?.epub" in H.
  destruct (displayFileDownloadAlert "A/books/What is this?.epub"
              (JBool true) JUndefined s) as [s' r].
  destruct H as (_ & (hook & H) & _). exists hook. exact H.
Defined.

(** X21. A [download] argument that is neither [true] nor a string throws a
    TypeError after the alert has been shown and its dismiss listener
    attached: no link is made and the spinner is left as it was. *)
Theorem displayFileDownloadAlert_bad_download
    (title : string) (download contentType : jsval) (s : Alerts) :
  download <> JBool true ->
  (forall name, download <> JStr name) ->
  let (s', r) := displayFileDownloadAlert title download contentType s in
  r = Thrown TypeError
  /\ downloadAlertDisplay s' = "block"
  /\ downloadAlertSetup s' = true
  /\ downloadLink s' = downloadLink s
  /\ searchingArticlesDisplay s' = searchingArticlesDisplay s.
Proof.
  intros Ht Hs. unfold displayFileDownloadAlert, bind, modify, ret, throw.
  destruct download as [| |[]| |name]; cbn;
    try (repeat split; reflexivity).
  - contradiction.
  - now destruct (Hs name).
Qed.

Lemma displayFileDownloadAlert_bad_download_witness :
  let s := {| activeContentDisplay := "none"; activeContentWarningSetup := false;
              activeContentDismissListeners := 0; swModeLinkListeners := 0;
              stopListeners := 0; highlighted := None;
              cancelHighlightListeners := 0; btnConfigureClicks := 0;
              downloadAlertDisplay := "none"; downloadAlertSetup := false;
              downloadDismissListeners := 0; downloadLink := None;
              searchingArticlesDisplay := "block";
              anchorClickThrows := false; hasMsSaveBlob := false |} in
  snd (displayFileDownloadAlert "A/book.epub" (JBool false) JUndefined s)
  = Thrown TypeError.
Proof.
  intros s.
  pose proof (displayFileDownloadAlert_bad_download "A/book.epub" (JBool false)
                JUndefined s ltac:(discriminate) ltac:(discriminate)) as H.
  destruct (displayFileDownloadAlert "A/book.epub" (JBool false) JUndefined s)
    as [s' r].
  exact (proj1 H).
Defined.

(** ** systemAlert: dialogs that overlap, and the dialog of external links *)

Lemma systemAlert_this message label isConfirm d a c m :
  snd (systemAlert message label isConfirm d a c m) = length (promises m).
Proof. reflexivity. Qed.

Lemma systemAlert_pending message label isConfirm d a c m :
  truthy message = true ->
  let m1 := fst (systemAlert message label isConfirm d a c m) in
  promise_state (length (promises m)) m1 = Some Pending
  /\ length (promises m) ∈ hideListeners m1.
Proof.
  intros Hm. unfold systemAlert, promise_state. cbn [fst promises hideListeners].
  rewrite Hm. cbn [negb]. split.
  - now apply list_lookup_middle.
  - apply elem_of_app. right. now apply list_elem_of_singleton.
Qed.

(** X23. A second call of systemAlert made while the dialog of a first call is
    still open takes the dialog over: the modal shows the second message
    only, and the one answer of the user settles both promises with the same
    value. *)
Theorem systemAlert_overlapping
    (message1 label1 : jsval) (isConfirm1 : bool) (d1 a1 c1 : jsval)
    (message2 label2 : jsval) (isConfirm2 : bool) (d2 a2 c2 : jsval)
    (m : Modal) (activeId : string) :
  truthy message1 = true ->
  truthy message2 = true ->
  let (m1, first) := systemAlert message1 label1 isConfirm1 d1 a1 c1 m in
  let (m2, second) := systemAlert message2 label2 isConfirm2 d2 a2 c2 m1 in
  let answer := Some (Fulfilled (String.eqb activeId "approveConfirm")) in
  first <> second
  /\ modalTextHTML m2 = innerHTML_string message2
  /\ promise_state first m2 = Some Pending
  /\ promise_state first (hide_modal activeId m2) = answer
  /\ promise_state second (hide_modal activeId m2) = answer.
Proof.
  intros H1 H2.
  destruct (systemAlert message1 label1 isConfirm1 d1 a1 c1 m) as [m1 first] eqn:E1.
  destruct (systemAlert message2 label2 isConfirm2 d2 a2 c2 m1) as [m2 second] eqn:E2.
  cbv zeta.
  pose proof (systemAlert_pending message1 label1 isConfirm1 d1 a1 c1 m H1) as [P1 L1].
  pose proof (systemAlert_pending message2 label2 isConfirm2 d2 a2 c2 m1 H2) as [P2 L2].
  pose proof (systemAlert_this message1 label1 isConfirm1 d1 a1 c1 m) as T1.
  pose proof (systemAlert_this message2 label2 isConfirm2 d2 a2 c2 m1) as T2.
  rewrite E1 in *. rewrite E2 in *. cbn [fst snd] in *. subst first second.
  assert (Hlen : length (promises m1) = S (length (promises m))).
  { injection E1 as <-. cbn [promises]. rewrite length_app. simpl. lia. }
  assert (P1' : promise_state (length (promises m)) m2 = Some Pending).
  { injection E2 as <-. unfold promise_state in *. cbn [promises].
    now apply lookup_app_l_Some. }
  assert (L1' : length (promises m) ∈ hideListeners m2).
  { injection E2 as <-. cbn [hideListeners]. apply elem_of_app. now left. }
  split; [lia|]. split; [now injection E2 as <-|]. split; [exact P1'|].
  split.
  - apply (modal_run_pending [EvHide activeId] m2 _ P1' L1').
  - apply (modal_run_pending [EvHide activeId] m2 _ P2 L2).
Qed.

Lemma systemAlert_overlapping_witness :
  let m := {| approveConfirmText := ""; declineConfirmText := "";
              closeMessageText := ""; modalLabelText := ""; modalTextHTML := "";
              approveConfirmDisplay := ""; declineConfirmDisplay := "";
              closeMessageDisplay := ""; modalShown := false;
              hideListeners := []; keyupListeners := []; promises := [] |} in
  let m1 := fst (systemAlert (JStr "Delete the cache?") JUndefined true
                   JUndefined JUndefined JUndefined m) in
  let m2 := fst (systemAlert (JStr "The archive is ready") JUndefined false
                   JUndefined JUndefined JUndefined m1) in
  promise_state 0 (hide_modal "closeMessage" m2) = Some (Fulfilled false)
  /\ modalTextHTML m2 = "The archive is ready".
Proof.
  intros m m1 m2.
  pose proof (systemAlert_overlapping
                (JStr "Delete the cache?") JUndefined true JUndefined JUndefined JUndefined
                (JStr "The archive is ready") JUndefined false
                JUndefined JUndefined JUndefined m "closeMessage" eq_refl eq_refl) as H.
  cbv beta iota zeta delta [systemAlert] in H.
  destruct H as (_ & H2 & _ & H4 & _).
  split; [exact H4 | exact H2].
Defined.

(** X24. The link is opened exactly when the user approves: once the dialog of
    warnAndOpenExternalLinkInNewTab has been closed, [window.open] has been
    called if and only if the element that closed it was the approve button,
    with the [href] of the anchor and with its target, or ['_blank'] when it
    has none.  Until then nothing is opened.  The dialog is a confirmation
    that shows the address of the link. *)
Theorem warnAndOpenExternalLinkInNewTab_opens
    (eventTarget : Anchor) (clickedAnchor : option Anchor) (m : Modal)
    (evs : list modal_event) :
  let a := default eventTarget clickedAnchor in
  let '(m1, this, callback) :=
    warnAndOpenExternalLinkInNewTab eventTarget clickedAnchor m in
  promise_then (promise_state this (modal_run evs m1)) callback
  = match first_hide evs with
    | None => None
    | Some activeId =>
        Some (if String.eqb activeId "approveConfirm"
              then Some (anchor_href a,
                         if nonempty (anchor_target a) then anchor_target a
                         else "_blank")
              else None)
    end
  /\ approveConfirmDisplay m1 = "inline"
  /\ modalTextHTML m1 = external_link_message a.
Proof.
  cbv zeta. unfold warnAndOpenExternalLinkInNewTab.
  set (a := default eventTarget clickedAnchor).
  assert (Hm : truthy (JStr (external_link_message a)) = true) by reflexivity.
  pose proof (systemAlert_pending (JStr (external_link_message a))
                (JStr "Opening external link") true JUndefined JUndefined JUndefined
                m Hm) as [P L].
  pose proof (systemAlert_this (JStr (external_link_message a))
                (JStr "Opening external link") true JUndefined JUndefined JUndefined
                m) as T.
  destruct (systemAlert _ _ _ _ _ _ m) as [m1 this] eqn:E.
  cbn [fst snd] in *. subst this. split.
  - rewrite (modal_run_pending evs m1 _ P L).
    destruct (first_hide evs) as [activeId|]; reflexivity.
  - injection E as <-. split; reflexivity.
Qed.

(** ** The animation of the sections *)

Lemma token_remove_add_eq (t : string) (l : list string) :
  token_remove t (token_add t l) = token_remove t l.
Proof.
  unfold token_add. destruct (contains t l); [reflexivity|].
  unfold token_remove. rewrite List.filter_app. simpl.
  rewrite String.eqb_refl. simpl. apply app_nil_r.
Qed.

Lemma contains_token_remove (a t : string) (l : list string) :
  String.eqb a t = false -> contains t (token_remove a l) = contains t l.
Proof.
  intros Hat. unfold contains, token_remove.
  induction l as [|x l IH]; simpl; [reflexivity|].
  destruct (String.eqb a x) eqn:Eax; simpl.
  - rewrite IH. apply String.eqb_eq in Eax. subst x.
    rewrite String.eqb_sym, Hat. reflexivity.
  - now rewrite IH.
Qed.

Lemma token_remove_add_ne (a t : string) (l : list string) :
  String.eqb a t = false ->
  token_remove a (token_add t l) = token_add t (token_remove a l).
Proof.
  intros Hat. unfold token_add. rewrite (contains_token_remove a t l Hat).
  destruct (contains t l); [reflexivity|].
  unfold token_remove. rewrite List.filter_app. simpl. now rewrite Hat.
Qed.

Ltac sections_unfold :=
  cbv beta iota zeta
      delta [removeAnimationClasses classList_remove classList_add setTimeout
             section_el_eqb classList styleDisplay timeouts negb].

(** X13. removeAnimationClasses undoes the classes of every animation: whatever
    section applyAnimationToSection was called for and whichever sections
    were visible, the classes that the sections have after
    removeAnimationClasses are those that they would have had without the
    animation. *)
Theorem removeAnimationClasses_undoes_animation
    (section : string) (hidden : section_el -> bool) (s : Sections) (el : section_el) :
  classList (removeAnimationClasses (applyAnimationToSection section hidden s)) el
  = classList (removeAnimationClasses s) el.
Proof.
  unfold applyAnimationToSection.
  destruct (String.eqb section "home"); [|destruct (String.eqb section "config");
    [|destruct (String.eqb section "about"); [|reflexivity]]];
    destruct (hidden configuration), (hidden about), (hidden articleContent);
    destruct el; sections_unfold;
    repeat first [ rewrite token_remove_add_eq
                 | rewrite token_remove_add_ne by reflexivity ];
    reflexivity.
Qed.

(** X14. After the timeouts of an animation have run, the section that was asked
    for has its inline [display] cleared and the sections that were visible
    have [display: none]; the sections that were hidden keep their [display].
    There is one exception: when the configuration is asked for while the
    About section is visible, the article keeps its [display] even if it is
    visible. *)
Theorem applyAnimationToSection_displays
    (section : string) (target : section_el) (hidden : section_el -> bool)
    (s : Sections) :
  timeouts s = [] ->
  In (section, target)
    [("home", articleContent); ("config", configuration); ("about", about)] ->
  let d := styleDisplay (run_timeouts (applyAnimationToSection section hidden s)) in
  d target = ""
  /\ forall el, el <> target ->
       d el = if hidden el
                 || (String.eqb section "config" && section_el_eqb el articleContent
                     && negb (hidden about))
              then styleDisplay s el else "none".
Proof.
  intros Hs Hin. cbv zeta. unfold run_timeouts, applyAnimationToSection.
  destruct Hin as [E | [E | [E | []]]]; injection E as <- <-;
    cbn [String.eqb Ascii.eqb Bool.eqb];
    destruct (hidden configuration) eqn:Hc, (hidden about) eqn:Ha,
             (hidden articleContent) eqn:Hi;
    cbv beta iota zeta delta [classList_add setTimeout negb];
    cbn [timeouts classList styleDisplay]; rewrite Hs;
    cbn [app fold_left fst snd set_styleDisplay styleDisplay section_el_eqb];
    (split; [reflexivity|]);
    intros [] Hne; try contradiction;
    cbn [section_el_eqb andb orb negb];
    rewrite ?Hc, ?Ha, ?Hi; reflexivity.
Qed.

Lemma applyAnimationToSection_displays_witness :
  let s := {| classList := fun _ => []; timeouts := [];
              styleDisplay := fun e => if section_el_eqb e articleContent then ""
                                      else "none" |} in
  let hidden := fun e => negb (section_el_eqb e articleContent) in
  let d := styleDisplay (run_timeouts (applyAnimationToSection "about" hidden s)) in
  d about = "" /\ d articleContent = "none".
Proof.
  intros s hidden d.
  destruct (applyAnimationToSection_displays "about" about hidden s eq_refl
              (or_intror (or_intror (or_introl eq_refl)))) as [H1 H2].
  split; [exact H1 | exact (H2 articleContent ltac:(discriminate))].
Defined.

(** ** isElementInView *)

Lemma Qltb_lt (x y : QArith_base.Q) : Qltb x y = true <-> QArith_base.Qlt x y.
Proof.
  unfold Qltb. rewrite negb_true_iff. split.
  - intros H. apply QArith_base.Qnot_le_lt. intros Hle.
    apply QArith_base.Qle_bool_iff in Hle. congruence.
  - intros H. destruct (QArith_base.Qle_bool y x) eqn:E; [|reflexivity].
    apply QArith_base.Qle_bool_iff in E.
    now apply QArith_base.Qlt_not_le in H.
Qed.

(** X25. An element that is fully in the viewport is also partially in it: for a
    rectangle whose top is not below its bottom and whose left is not right
    of its right, [isElementInView(el, true)] implies
    [isElementInView(el, false)]. *)
Theorem isElementInView_fully_partially
    (rect : DOMRect) (innerWidth innerHeight : QArith_base.Q) :
  QArith_base.Qle (rect_top rect) (rect_bottom rect) ->
  QArith_base.Qle (rect_left rect) (rect_right rect) ->
  isElementInView rect innerWidth innerHeight true = true ->
  isElementInView rect innerWidth innerHeight false = true.
Proof.
  unfold isElementInView. intros Hv Hh H.
  apply andb_true_iff in H as [H H4]. apply andb_true_iff in H as [H H3].
  apply andb_true_iff in H as [H1 H2].
  apply Qltb_lt in H1, H2, H3, H4.
  repeat (apply andb_true_iff; split); apply Qltb_lt.
  - exact (QArith_base.Qle_lt_trans _ _ _ Hv H2).
  - exact (QArith_base.Qlt_le_trans _ _ _ H1 Hv).
  - exact (QArith_base.Qle_lt_trans _ _ _ Hh H4).
  - exact (QArith_base.Qlt_le_trans _ _ _ H3 Hh).
Qed.

Lemma isElementInView_fully_partially_witness :
  let rect := {| rect_top := QArith_base.Qmake 21 2;
                 rect_bottom := QArith_base.Qmake 61 2;
                 rect_left := QArith_base.Qmake 8 1;
                 rect_right := QArith_base.Qmake 308 1 |} in
  isElementInView rect (QArith_base.Qmake 1280 1) (QArith_base.Qmake 720 1) false = true.
Proof.
  intros rect.
  apply (isElementInView_fully_partially rect);
    [vm_compute; discriminate | vm_compute; discriminate | reflexivity].
Defined.

(** ** The return link of applyAppTheme *)

Lemma quiet_ret : quiet (ret tt).
Proof. intros q. split; reflexivity. Qed.

Lemma quiet_bind (m : M Page unit) (k : unit -> M Page unit) :
  quiet m -> (forall a, quiet (k a)) -> quiet (bind m k).
Proof.
  intros Hm Hk q. unfold bind. destruct (Hm q) as [R E].
  destruct (m q) as [q' [[]|e]]; cbn [fst snd] in *; [|discriminate].
  destruct (Hk tt q') as [R' E']. split; [exact R' | congruence].
Qed.

Lemma quiet_when (b : bool) (m : M Page unit) : quiet m -> quiet (when b m).
Proof. destruct b; [auto | intros _; apply quiet_ret]. Qed.

Lemma quiet_modify (f : Page -> Page) :
  (forall q, shell_of (f q) = shell_of q) -> quiet (modify f).
Proof. intros H q. split; [reflexivity | apply H]. Qed.

Lemma quiet_display_if_present id v : quiet (display_if_present id v).
Proof.
  apply quiet_modify. intros q. unfold shell_of. cbn. f_equal.
  apply bool_decide_ext. unfold is_Some.
  destruct (decide (id = "viewArticle")) as [->|Hne].
  - rewrite lookup_alter_eq. destruct (displays q !! "viewArticle"); cbn.
    + split; intros _; eexists; reflexivity.
    + split; intros [x Hx]; discriminate.
  - now rewrite lookup_alter_ne.
Qed.

Lemma quiet_themeLinks f : quiet (modify (set_contentDocument (set_themeLinks f))).
Proof.
  apply quiet_modify. intros q. unfold shell_of. cbn.
  now destruct (contentDocument q).
Qed.

Lemma quiet_bind_ret {A} (a : A) (k : A -> M Page unit) :
  quiet (k a) -> quiet (bind (ret a) k).
Proof. intros H. exact H. Qed.

Ltac quiet_solve :=
  repeat first
    [ apply quiet_ret
    | apply quiet_bind_ret
    | apply quiet_display_if_present
    | apply quiet_themeLinks
    | apply quiet_when
    | apply quiet_bind; [|intros ?]
    | (apply quiet_modify; intros ?; reflexivity) ].

Lemma wp_quiet_bind (m : M Page unit) (k : unit -> M Page unit)
    (Q : Page -> completion unit -> Prop) (s : Page) :
  quiet m ->
  (forall q, shell_of q = shell_of s -> wp (k tt) Q q) ->
  wp (bind m k) Q s.
Proof.
  intros Hm Hk. unfold wp, bind. destruct (Hm s) as [R E].
  destruct (m s) as [q [[]|e]]; cbn [fst snd] in *; [|discriminate].
  now apply Hk.
Qed.

Lemma wp_showReturnLink (q : Page) (title : string) (n : nat) :
  configureNavActive q = true ->
  option_map docTitle (contentDocument q) = Some title ->
  is_Some (displays q !! "viewArticle") ->
  viewArticleListeners q = n ->
  wp (when true showReturnLink)
    (fun p' c => c = Returned tt
                 /\ configureNavActive p' = true
                 /\ option_map docTitle (contentDocument p') = Some title
                 /\ is_Some (displays p' !! "viewArticle")
                 /\ viewArticleListeners p' = S n) q.
Proof.
  intros Hnav Htitle [v Hv] Hn.
  unfold wp, when, showReturnLink, bind, display_set, modify. rewrite Hv.
  cbn. repeat split; try assumption.
  - rewrite lookup_insert_eq. now eexists.
  - now rewrite Hn.
Qed.

Lemma applyAppTheme_return_link (theme : string) (n : nat) :
  string_existsb ascii_whitespace theme = false ->
  regexp_literal (strip_app_theme theme) = true ->
  hoare (return_link_ready n) (applyAppTheme theme)
    (fun _ => return_link_ready (S n)).
Proof.
  intros Hnew Hlit p (Hold & Hnav & (title & Htitle & Hreal) & Hlink & Hn).
  pose proof (applyAppTheme_old_theme_valid theme p Hold) as Hold'.
  enough (H : wp (applyAppTheme theme)
                (fun p' c => c = Returned tt
                             /\ configureNavActive p' = true
                             /\ option_map docTitle (contentDocument p') = Some title
                             /\ is_Some (displays p' !! "viewArticle")
                             /\ viewArticleListeners p' = S n) p).
  { unfold wp in H. destruct (applyAppTheme theme p) as [p' c].
    cbn [fst snd] in *. destruct H as (-> & H1 & H2 & H3 & H4).
    exists p', tt. split; [reflexivity|].
    repeat split; try assumption. now exists title. }
  destruct (old_theme_tokens p Hold) as [Ho1 Ho2].
  destruct (new_theme_tokens theme p Hnew) as [Hn1 Hn2].
  pose proof (old_content_token p Hold) as Ho3.
  assert (Hn3 : nonempty (strip_app_theme theme) = true ->
                token_error (strip_app_theme theme) = None).
  { intros Hne. apply token_error_ok; [exact Hne|]. now apply span_snd_existsb. }
  unfold applyAppTheme. apply wp_bind, wp_get_state. cbv zeta.
  fold (resolved_app_theme theme p). fold (old_app_theme p). fold (old_content_theme p).
  rewrite (classList_op_ok token_remove set_footerClassList _ Ho2).
  rewrite (classList_op_ok token_add set_footerClassList _ Hn2).
  assert (Hcond : configureNavActive p
                  && match contentDocument p with
                     | Some d =>
                         negb (String.eqb (docTitle d)
                                 "Placeholder for injecting an article into the iframe")
                     | None => false
                     end = true).
  { rewrite Hnav. destruct (contentDocument p) as [d|]; [|discriminate].
    cbn in Htitle. injection Htitle as ->. cbn.
    apply negb_true_iff. now apply String.eqb_neq. }
  rewrite Hcond.
  destruct (nonempty (old_app_theme p)) eqn:E1;
    [rewrite (classList_op_ok token_remove set_htmlClassList _ (Ho1 eq_refl))|];
    (destruct (nonempty (resolved_app_theme theme p)) eqn:E2;
     [rewrite (classList_op_ok token_add set_htmlClassList _ (Hn1 eq_refl))|]);
    (destruct (nonempty (old_content_theme p)) eqn:E3;
     [rewrite (classList_op_ok token_remove set_iframeClassList _ (Ho3 eq_refl))|]);
    destruct (starts_with "auto" theme
              && String.eqb (resolved_app_theme theme p) "light");
    (destruct (nonempty (strip_app_theme theme)) eqn:E4;
     [rewrite ?(classList_op_ok token_add set_iframeClassList _ (Hn3 eq_refl))|]);
    cbn [andb];
    unfold theme_sheet_search; rewrite ?Hlit;
    destruct (match contentDocument p with
              | Some d => head (themeLinks d)
              | None => None
              end) as [sheet|];
    do 11 (apply wp_quiet_bind; [solve [quiet_solve] | intros ? ?]);
    match goal with
    | Hq : shell_of ?q = _ |- wp _ _ ?q =>
        assert (Hshell : shell_of q = shell_of p) by congruence;
        unfold shell_of in Hshell; injection Hshell as S1 S2 S3 S4;
        apply wp_showReturnLink; [congruence | congruence | | congruence];
        apply (bool_decide_eq_true _); rewrite S4;
        now apply bool_decide_eq_true
    end.
Qed.

(** X11. Every change of theme made on the configuration page while an article is
    loaded attaches one more click listener to the return link: after the
    user has selected the themes of a list one after the other, the link has
    as many more listeners as the list has themes.  The calls all return.
    The themes are without white space, and their content themes without a
    character that is special in a regular expression, as line 541 compiles
    the name of the style sheet as one. *)
Theorem applyAppTheme_return_link_listeners (themes : list string) (n : nat) :
  Forall (fun theme => string_existsb ascii_whitespace theme = false
                       /\ regexp_literal (strip_app_theme theme) = true) themes ->
  hoare (return_link_ready n) (applyAppThemes themes)
    (fun _ => return_link_ready (length themes + n)).
Proof.
  intros Hthemes. revert n.
  induction Hthemes as [|theme themes [Htheme Hlit] _ IH]; intros n.
  - apply hoare_ret.
  - cbn [applyAppThemes length].
    apply hoare_bind with (Q := fun _ => return_link_ready (S n)).
    + now apply applyAppTheme_return_link.
    + intros _. replace (S (length themes) + n)%nat with (length themes + S n)%nat by lia.
      apply IH.
Qed.

Lemma applyAppTheme_return_link_listeners_witness :
  let p := {| prefersDark := false; htmlClassList := ["light"];
              htmlDatasetTheme := Some "light"; footerClassList := ["_light"];
              iframeClassList := [];
              contentDocument := Some {| docTitle := "Albert Einstein"; themeLinks := [] |};
              displays := {[ "viewArticle" := "none" ]};
              configureNavActive := true;
              locationBase := "https://kiwix.example/www/index.html";
              viewArticleListeners := 0;
              regexpSearch := fun _ _ => None |} in
  exists p', applyAppThemes ["dark"; "dark_invert"; "light"] p = (p', Returned tt)
             /\ viewArticleListeners p' = 3%nat.
Proof.
  intros p.
  destruct (applyAppTheme_return_link_listeners ["dark"; "dark_invert"; "light"] 0
              ltac:(repeat constructor) p) as (p' & [] & E & H).
  - repeat split; try reflexivity.
    + exists "Albert Einstein". split; [reflexivity | discriminate].
    + now eexists.
  - exists p'. split; [exact E | apply H].
Defined.


(** ** The hyperlinks of the active content warning *)

Lemma hyperlink_clicks_run (evs : list alert_event) : forall ac dl s,
  alerts_inv ac dl s ->
  cancelHighlightListeners (alert_run evs s)
  = (cancelHighlightListeners s + 2 * hyperlink_clicks ac evs)%nat
  /\ btnConfigureClicks (alert_run evs s)
     = (btnConfigureClicks s + hyperlink_clicks ac evs)%nat.
Proof.
  induction evs as [|ev evs IH]; intros ac dl s Hinv.
  - cbn. split; lia.
  - pose proof (alerts_inv_step ac dl s ev Hinv) as Hstep.
    destruct (IH _ _ _ Hstep) as [IH1 IH2]. cbn [alert_run fold_left] in *.
    unfold alert_run in IH1, IH2. rewrite IH1, IH2.
    destruct Hinv as (H1 & _ & _ & H4 & H5 & _).
    destruct ev as [|title download contentType| |id|];
      cbn [is_active_content_call orb hyperlink_clicks alert_step].
    + rewrite orb_true_r. cbn. split; lia.
    + rewrite orb_false_r.
      unfold displayFileDownloadAlert, bind, modify.
      destruct download as [| |[|]| |]; cbn; split; lia.
    + rewrite orb_false_r. cbn. split; lia.
    + rewrite orb_false_r. unfold click_hyperlink.
      cbn [cancelHighlightListeners btnConfigureClicks]. rewrite H4, H5.
      destruct ac, (String.eqb id "stop"), (String.eqb id "swModeLink");
        cbn [andb orb]; split; lia.
    + rewrite orb_false_r. cbn. split; lia.
Qed.

(** X22. The listeners that cancel the highlighting are never removed and are
    attached again at every click: from the load of the module on, each click
    on one of the two hyperlinks of the warning, once the warning has been
    displayed, clicks the configuration button once and leaves two more
    [mousedown] listeners on the page. *)
Theorem hyperlink_listeners_accumulate (s0 : Alerts) (evs : list alert_event) :
  alerts_at_load s0 ->
  cancelHighlightListeners (alert_run evs s0)
  = (cancelHighlightListeners s0 + 2 * hyperlink_clicks false evs)%nat
  /\ btnConfigureClicks (alert_run evs s0)
     = (btnConfigureClicks s0 + hyperlink_clicks false evs)%nat.
Proof.
  intros (L1 & L2 & L3 & L4 & L5 & L6).
  apply (hyperlink_clicks_run evs false false). repeat split; assumption.
Qed.

Lemma hyperlink_listeners_accumulate_witness :
  let s0 := {| activeContentDisplay := "none"; activeContentWarningSetup := false;
               activeContentDismissListeners := 0; swModeLinkListeners := 0;
               stopListeners := 0; highlighted := None;
               cancelHighlightListeners := 0; btnConfigureClicks := 0;
               downloadAlertDisplay := "none"; downloadAlertSetup := false;
               downloadDismissListeners := 0; downloadLink := None;
               searchingArticlesDisplay := "none";
               anchorClickThrows := false; hasMsSaveBlob := false |} in
  cancelHighlightListeners
    (alert_run [ClickHyperlink "stop"; CallActiveContentWarning;
                ClickHyperlink "stop"; CallActiveContentWarning;
                ClickHyperlink "swModeLink"; ClickHyperlink "stop"] s0) = 6%nat.
Proof.
  intros s0.
  exact (proj1 (hyperlink_listeners_accumulate s0
                  [ClickHyperlink "stop"; CallActiveContentWarning;
                   ClickHyperlink "stop"; CallActiveContentWarning;
                   ClickHyperlink "swModeLink"; ClickHyperlink "stop"]
                  (conj eq_refl (conj eq_refl (conj eq_refl
                     (conj eq_refl (conj eq_refl eq_refl))))))).
Defined.

(** ** The parameters that are read back from the store *)

Lemma wp_get_setting_local_storage (name : string) (Q : Init -> completion jsval -> Prop)
    (st : Init) :
  storeType_is (params st) "local_storage" = true ->
  param (params st) "keyPrefix" = JStr "kiwixjs-" ->
  localStorageAvailable (browser st) = true ->
  Q st (Returned (value_of_text
                    (localStorageItems (browser st) !! ("kiwixjs-" +:+ name)))) ->
  wp (get_setting name) Q st.
Proof.
  intros H1 Hp H2 HQ. unfold wp, get_setting. cbn [fst snd].
  rewrite getSetting_local_storage by assumption.
  unfold prefixed. now rewrite Hp.
Qed.

Ltac defaults_step :=
  first
    [ apply wp_bind, wp_get_setting_local_storage;
      [vm_compute; reflexivity | vm_compute; reflexivity | reflexivity |]
    | apply wp_bind; unfold wp at 1;
      cbn [set_param modify fst snd browser params kiwixComm] ].

Lemma defaultParams_fresh (loc : Location) (en rd : bool)
    (items : gmap string string) :
  let b := {| cookiesEnabled := en; cookieJar := [];
              localStorageAvailable := true; localStorageItems := items;
              cookiesReadable := rd |} in
  let stored name := value_of_text (items !! ("kiwixjs-" +:+ name)) in
  wp (defaultParams loc)
    (fun st c =>
       c = Returned tt
       /\ browser st = set_localStorageItems (delete "tempKiwixStorageTest") b
       /\ kiwixComm st = None
       /\ storeType_is (params st) "local_storage" = true
       /\ param (params st) "keyPrefix" = JStr "kiwixjs-"
       /\ param (params st) "PWAServer"
          = JStr "https://browser-extension.kiwix.org/current/"
       /\ params st !! "overrideBrowserLanguage" = Some (stored "languageOverride")
       /\ params st !! "appCache" = Some (is_not_false (stored "appCache"))
       /\ Forall (fun kr => params st !! fst kr = Some (snd kr (stored (fst kr))))
            (stored_params loc))
    (at_script_start b).
Proof.
  intros b stored. unfold defaultParams.
  cbv beta iota delta [set_param String.eqb Ascii.eqb Bool.eqb].
  do 2 (eapply wp_seq; [reflexivity|]).
  eapply wp_seq; [destruct en, rd; reflexivity|].
  do 2 (eapply wp_seq; [reflexivity|]).
  match goal with
  | |- wp ?m ?Q ?s =>
      enough (H : forall st,
                 st = {| browser := set_localStorageItems (delete "tempKiwixStorageTest") b;
                         params := <["keyPrefix" := JStr "kiwixjs-"]>
                                     (<["storeType" := JStr "local_storage"]>
                                        (<["PWAServer" :=
                                             JStr "https://browser-extension.kiwix.org/current/"]>
                                           (<["appVersion" := JStr "3.10.0"]> ∅)));
                         kiwixComm := None |} ->
                 wp m Q st)
        by (apply H; destruct en, rd; reflexivity)
  end.
  intros st ->.
  do 26 defaults_step.
  unfold wp. cbn [set_param modify fst snd browser params kiwixComm].
  cbn [localStorageItems set_localStorageItems b].
  rewrite !lookup_delete_ne by discriminate.
  fold (stored "hideActiveContentWarning"). fold (stored "showUIAnimations").
  fold (stored "maxSearchResultsSize"). fold (stored "assetsCache").
  fold (stored "appCache"). fold (stored "appTheme").
  fold (stored "useHomeKeyToFocusSearchBar"). fold (stored "openExternalLinksInNewTabs").
  fold (stored "languageOverride"). fold (stored "disableDragAndDrop").
  fold (stored "referrerExtensionURL"). fold (stored "defaultModeChangeAlertDisplayed").
  fold (stored "contentInjectionMode").
  generalize stored. clear stored. intros stored.
  split; [reflexivity|]. split; [reflexivity|]. split; [reflexivity|].
  split; [vm_compute; reflexivity|]. split; [vm_compute; reflexivity|].
  split; [vm_compute; reflexivity|].
  split; [now simplify_map_eq|]. split; [now simplify_map_eq|].
  unfold stored_params. repeat constructor; cbn [fst snd]; now simplify_map_eq.
Qed.

Lemma decode_pairs_not_key (k : string) (ms : list (string * string)) :
  forall dps, decode_pairs ms = Some dps -> overrides k dps = false ->
              Forall (fun m => decodeURIComponent (fst m) <> Some k) ms.
Proof.
  induction ms as [|[a v] ms IH]; intros dps Hd Ho; [constructor|].
  cbn [decode_pairs] in Hd.
  destruct (decodeURIComponent a) as [key|] eqn:Ea; [|discriminate].
  destruct (decodeURIComponent v) as [text|]; [|discriminate].
  destruct (decode_pairs ms) as [l|]; [|discriminate].
  injection Hd as <-. unfold overrides in Ho. cbn in Ho.
  apply orb_false_iff in Ho as [Hk Hl]. constructor.
  - cbn. rewrite Ea. intros [= ->]. now rewrite String.eqb_refl in Hk.
  - now apply (IH l).
Qed.

Lemma setSetting_keeps_jar (ps : gmap string jsval) (key : string) (val : jsval)
    (b : Browser) :
  storeType_is ps "cookie" = false ->
  cookieJar (fst (setSetting ps key val b)) = cookieJar b.
Proof.
  intros Hc. unfold setSetting, bind, when. rewrite Hc. cbn.
  destruct (storeType_is ps "local_storage"); [|reflexivity].
  unfold localStorage_setItem. now destruct (localStorageAvailable b).
Qed.

Lemma override_loop_keeps_jar (ms : list (string * string)) (st : Init) :
  Forall (fun m => decodeURIComponent (fst m) <> Some "storeType") ms ->
  storeType_is (params st) "cookie" = false ->
  cookieJar (browser (fst (override_loop ms st))) = cookieJar (browser st).
Proof.
  intros Hms Hst.
  enough (H : storeType_is (params st) "cookie" = false ->
              storeType_is (params (fst (override_loop ms st))) "cookie" = false
              /\ cookieJar (browser (fst (override_loop ms st))) = cookieJar (browser st))
    by now apply H.
  apply (override_loop_invariant
           (fun a c => storeType_is (params a) "cookie" = false ->
                       storeType_is (params c) "cookie" = false
                       /\ cookieJar (browser c) = cookieJar (browser a))
           (fun m => decodeURIComponent (fst m) <> Some "storeType") ms).
  - auto.
  - intros a c d H1 H2 Ha. destruct (H1 Ha) as [Hc E1]. destruct (H2 Hc) as [Hd E2].
    split; [exact Hd | congruence].
  - intros m st0 s Hm H Ha. destruct (H Ha) as [Hs Es].
    destruct (override_one_effect m s) as [-> | (key & text & Hk & _ & _ & Hb & _ & Hp)];
      [now split|].
    rewrite Hb, setSetting_keeps_jar by exact Hs. split; [|exact Es].
    destruct Hp as [-> | ->]; [exact Hs|].
    rewrite storeType_is_insert_ne; [exact Hs|]. intros ->. now apply Hm.
  - exact Hms.
  - auto.
Qed.

Lemma fst_bind_returned {S A B} (m : M S A) (k : A -> M S B) (s s' : S) (a : A) :
  m s = (s', Returned a) -> fst (bind m k s) = fst (k a s').
Proof. unfold bind. now intros ->. Qed.

Lemma forceAppCache_state (st : Init) :
  browser (fst (forceAppCache st)) = browser st
  /\ forall key, key <> "appCache" ->
       params (fst (forceAppCache st)) !! key = params st !! key.
Proof.
  unfold forceAppCache, bind, get_state, set_param, modify. cbn.
  split; [reflexivity|]. intros key Hk. now rewrite lookup_insert_ne.
Qed.

Lemma after_overrideParams (loc : Location) (st : Init) :
  let st1 := fst (override_loop (key_pairs (search loc)) st) in
  let st' := fst ((overrideParams loc ;; forceAppCache)%js st) in
  browser st' = browser st1
  /\ forall key, key <> "appCache" -> params st' !! key = params st1 !! key.
Proof.
  cbv zeta. destruct (overrideParams_state loc st) as [Hb Hp].
  destruct (overrideParams loc st) as [s [[]|e]] eqn:E; cbn [fst snd] in *.
  - rewrite (fst_bind_returned _ _ _ _ _ E).
    destruct (forceAppCache_state s) as [Fb Fp].
    split; [congruence|]. intros key Hk.
    etransitivity; [apply (Fp key Hk)|]. now rewrite Hp.
  - assert (Hs : fst ((overrideParams loc;; forceAppCache)%js st) = s)
      by (unfold bind; now rewrite E).
    rewrite Hs. split; [exact Hb|]. intros key _. now rewrite Hp.
Qed.

(** The first load: the settings of the querystring are in the store. *)
Lemma resolveParams_first_load (loc : Location) (b : Browser)
    (dps : list (string * string)) :
  localStorageAvailable b = true -> cookieJar b = [] ->
  decode_pairs (key_pairs (search loc)) = Some dps ->
  overrides "storeType" dps = false -> overrides "keyPrefix" dps = false ->
  let st1 := fst (resolveParams loc (at_script_start b)) in
  snd (resolveParams loc (at_script_start b)) = Returned tt
  /\ param (params st1) "keyPrefix" = JStr "kiwixjs-"
  /\ localStorageAvailable (browser st1) = true
  /\ cookieJar (browser st1) = []
  /\ forall key, key <> "title" ->
       match last_value key dps with
       | Some text =>
           (key <> "appCache" -> key <> "__proto__" ->
            params st1 !! key = Some (boolean_if_literal text))
           /\ localStorageItems (browser st1) !! ("kiwixjs-" +:+ key) = Some text
       | None =>
           localStorageItems (browser st1) !! ("kiwixjs-" +:+ key)
           = localStorageItems b !! ("kiwixjs-" +:+ key)
       end.
Proof.
  intros Hav Hjar Hdec Hst Hkp. cbv zeta.
  destruct b as [en jar av items rd]. cbn in Hav, Hjar. subst av jar.
  pose proof (defaultParams_fresh loc en rd items) as Hd. cbv zeta in Hd.
  unfold wp in Hd.
  destruct (defaultParams loc _) as [sd c] eqn:Ed. cbn [fst snd] in Hd.
  destruct Hd as (-> & Hb & _ & Hls & Hpre & _).
  unfold resolveParams. rewrite (fst_bind_returned _ _ _ _ _ Ed). cbv beta.
  destruct (after_overrideParams loc sd) as [Ab Ap].
  set (st1 := fst ((overrideParams loc;; forceAppCache)%js sd)) in *.
  set (sl := fst (override_loop (key_pairs (search loc)) sd)) in *.
  assert (Hready : store_ready (params sd) (browser sd) = true).
  { unfold store_ready. rewrite Hls, Hb. apply orb_true_r. }
  destruct (override_loop_writes (params sd) (key_pairs (search loc)) dps sd
              (key_pairs_from_nonempty _ _) Hdec Hst Hkp (conj eq_refl eq_refl) Hready)
    as (Hret & [_ Hsame] & Hready' & Hkeys).
  fold sl in Hready', Hkeys, Hsame.
  pose proof (storeType_local_not_cookie _ Hls) as Hnc.
  split; [|split; [|split; [|split]]].
  - unfold bind at 1. rewrite Ed. unfold bind.
    pose proof (overrideParams_returns loc sd Hret) as Ho.
    destruct (overrideParams loc sd) as [so r]. cbn [snd] in Ho. now subst r.
  - unfold param. rewrite Ap by discriminate.
    fold (param (params sl) "keyPrefix"). now rewrite Hsame.
  - rewrite Ab. unfold store_ready in Hready'. rewrite Hnc, Hls in Hready'.
    exact Hready'.
  - rewrite Ab. unfold sl.
    rewrite override_loop_keeps_jar;
      [now rewrite Hb | now apply (decode_pairs_not_key _ _ dps) | exact Hnc].
  - intros key Hkey. specialize (Hkeys key Hkey).
    unfold store_entry, stored_form, prefixed in Hkeys. rewrite Hnc, Hls, Hpre in Hkeys.
    cbn [ToString] in Hkeys. rewrite Ab.
    destruct (last_value key dps) as [text|]; destruct Hkeys as [K1 K2].
    + split; [|exact K2]. intros Hac Hproto. rewrite Ap by exact Hac.
      apply String.eqb_neq in Hproto. now rewrite Hproto in K1.
    + rewrite K2, Hb. cbn. apply lookup_delete_ne. discriminate.
Qed.

(** The second load: without querystring, the parameters are what the store
    holds. *)
Lemma resolveParams_second_load (loc : Location) (b : Browser) :
  localStorageAvailable b = true -> cookieJar b = [] ->
  key_pairs (search loc) = [] ->
  let st2 := fst (resolveParams loc (at_script_start b)) in
  let stored name := value_of_text (localStorageItems b !! ("kiwixjs-" +:+ name)) in
  params st2 !! "overrideBrowserLanguage" = Some (stored "languageOverride")
  /\ Forall (fun kr => params st2 !! fst kr = Some (snd kr (stored (fst kr))))
       (stored_params loc).
Proof.
  intros Hav Hjar Hq. cbv zeta.
  destruct b as [en jar av items rd]. cbn in Hav, Hjar. subst av jar.
  pose proof (defaultParams_fresh loc en rd items) as Hd. cbv zeta in Hd.
  unfold wp in Hd.
  destruct (defaultParams loc _) as [sd c] eqn:Ed. cbn [fst snd] in Hd.
  destruct Hd as (-> & _ & _ & _ & _ & _ & Hlang & _ & Htable).
  unfold resolveParams. rewrite (fst_bind_returned _ _ _ _ _ Ed). cbv beta.
  destruct (after_overrideParams loc sd) as [_ Ap]. rewrite Hq in Ap.
  cbn [override_loop ret fst] in Ap. cbn [localStorageItems].
  split.
  - etransitivity; [apply Ap; discriminate | exact Hlang].
  - assert (Hne : Forall (fun kr : string * (jsval -> jsval) => fst kr <> "appCache")
                    (stored_params loc))
      by (repeat constructor; discriminate).
    rewrite Forall_forall in Htable, Hne. apply Forall_forall. intros kr Hin.
    etransitivity; [apply Ap, (Hne kr Hin) | apply (Htable kr Hin)].
Qed.







(** X27. The language is the exception: [params.overrideBrowserLanguage] is read
    from the setting [languageOverride], so a querystring that sets
    [overrideBrowserLanguage] is in force for that load only.  At the next
    launch the parameter is [null] again, unless [languageOverride] is
    stored. *)
Theorem overrideBrowserLanguage_not_persisted
    (b : Browser) (loc1 loc2 : Location) (dps : list (string * string))
    (text : string) :
  localStorageAvailable b = true -> cookieJar b = [] ->
  localStorageItems b !! "kiwixjs-languageOverride" = None ->
  decode_pairs (key_pairs (search loc1)) = Some dps ->
  overrides "storeType" dps = false -> overrides "keyPrefix" dps = false ->
  last_value "overrideBrowserLanguage" dps = Some text ->
  last_value "languageOverride" dps = None ->
  key_pairs (search loc2) = [] ->
  let st1 := fst (resolveParams loc1 (at_script_start b)) in
  let st2 := fst (resolveParams loc2 (at_script_start (browser st1))) in
  params st1 !! "overrideBrowserLanguage" = Some (boolean_if_literal text)
  /\ params st2 !! "overrideBrowserLanguage" = Some JNull.
Proof.
  intros Hav Hjar Hnone Hdec Hst Hkp Hlast Hlang Hq. cbv zeta.
  destruct (resolveParams_first_load loc1 b dps Hav Hjar Hdec Hst Hkp)
    as (_ & _ & Hav1 & Hjar1 & Hkeys).
  pose proof (Hkeys "overrideBrowserLanguage" ltac:(discriminate)) as K.
  rewrite Hlast in K. destruct K as [K1 _].
  pose proof (Hkeys "languageOverride" ltac:(discriminate)) as L.
  rewrite Hlang in L. cbn [String.append] in L.
  change ("kiwixjs-" +:+ "languageOverride") with "kiwixjs-languageOverride" in L.
  rewrite Hnone in L.
  split; [apply K1; discriminate|].
  destruct (resolveParams_second_load loc2 _ Hav1 Hjar1 Hq) as [Hlo _].
  change ("kiwixjs-" +:+ "languageOverride") with "kiwixjs-languageOverride" in Hlo.
  now rewrite L in Hlo.
Qed.

Lemma overrideBrowserLanguage_not_persisted_witness :
  let loc1 := {| hasServiceWorker := true; search := "?overrideBrowserLanguage=fr";
                 href := "https://kiwix.example/www/index.html?overrideBrowserLanguage=fr" |} in
  let loc2 := {| hasServiceWorker := true; search := "";
                 href := "https://kiwix.example/www/index.html" |} in
  let st1 := fst (resolveParams loc1 (at_script_start empty_browser)) in
  let st2 := fst (resolveParams loc2 (at_script_start (browser st1))) in
  params st1 !! "overrideBrowserLanguage" = Some (JStr "fr")
  /\ params st2 !! "overrideBrowserLanguage" = Some JNull.
Proof.
  intros loc1 loc2 st1 st2.
  refine (overrideBrowserLanguage_not_persisted empty_browser loc1 loc2
            [("overrideBrowserLanguage", "fr")] "fr"
            eq_refl eq_refl eq_refl _ eq_refl eq_refl eq_refl eq_refl eq_refl).
  vm_compute. reflexivity.
Defined.

(** ** The message of the PWA *)

Lemma strip_prefix_app (p r : string) : strip_prefix p (p +:+ r) = Some r.
Proof.
  induction p as [|a p IH]; cbn [String.append strip_prefix]; [now destruct r|].
  now rewrite Ascii.eqb_refl.
Qed.

Lemma span_app_stop (p : ascii -> bool) (v rest : string) :
  string_forallb p v = true ->
  (rest = "" \/ exists c r, rest = String c r /\ p c = false) ->
  span p (v +:+ rest) = (v, rest).
Proof.
  intros Hv Hrest. induction v as [|a v IH]; cbn [String.append].
  - destruct Hrest as [-> | (c & r & -> & Hc)]; cbn [span]; [reflexivity|].
    now rewrite Hc.
  - cbn in Hv. apply andb_true_iff in Hv as [Ha Hv]. cbn [span].
    now rewrite Ha, (IH Hv).
Qed.

Lemma PWA_launch_exec_skip (pre s : string) :
  string_existsb (is_char "P") pre = false ->
  PWA_launch_exec (pre +:+ s) = PWA_launch_exec s.
Proof.
  induction pre as [|c pre IH]; intros H; [reflexivity|].
  cbn [String.append PWA_launch_exec].
  cbn [string_existsb] in H. apply orb_false_iff in H as [Hc Hpre].
  assert (E : strip_prefix "PWA_launch=" (String c (pre +:+ s)) = None).
  { cbn [strip_prefix]. unfold is_char in Hc. now rewrite Hc. }
  rewrite E. now apply IH.
Qed.


(** X29. A launch message in the querystring is recorded in [localStorage],
    whatever store the settings use: the value that follows [PWA_launch=] is
    stored under the prefixed key, and the value ['success'] also stores
    [defaultModeChangeAlertDisplayed].  Nothing else is stored. *)
Theorem registerPWALaunch_records
    (loc : Location) (pre v rest : string) (st : Init) :
  search loc = pre +:+ "PWA_launch=" +:+ v +:+ rest ->
  string_existsb (is_char "P") pre = false ->
  nonempty v = true ->
  string_forallb (fun x => negb (is_char "&" x)) v = true ->
  (rest = "" \/ exists r, rest = String "&" r) ->
  localStorageAvailable (browser st) = true ->
  let (st', r) := registerPWALaunch loc st in
  r = Returned true
  /\ params st' = params st
  /\ cookieJar (browser st') = cookieJar (browser st)
  /\ localStorageItems (browser st')
     = (if String.eqb v "success"
        then <[prefixed (params st) "defaultModeChangeAlertDisplayed" := "true"]>
        else fun items => items)
         (<[prefixed (params st) "PWA_launch" := v]> (localStorageItems (browser st))).
Proof.
  intros Hs Hpre Hne Hv Hrest Hav. unfold registerPWALaunch. rewrite Hs.
  rewrite search_lit_app.
  rewrite PWA_launch_exec_skip by exact Hpre.
  assert (E : PWA_launch_exec ("PWA_launch=" +:+ v +:+ rest) = Some v).
  { change ("PWA_launch=" +:+ v +:+ rest)
      with (String "P" ("WA_launch=" +:+ v +:+ rest)).
    cbn [PWA_launch_exec].
    change (String "P" ("WA_launch=" +:+ v +:+ rest))
      with ("PWA_launch=" +:+ (v +:+ rest)).
    rewrite strip_prefix_app.
    rewrite (span_app_stop _ v rest Hv).
    - cbn [fst]. now rewrite Hne.
    - destruct Hrest as [-> | (r & ->)]; [now left|].
      right. exists "&"%char, r. now split. }
  rewrite E.
  unfold bind, get_state, on_browser, localStorage_setItem, when, ret.
  rewrite Hav. cbn [fst snd browser params kiwixComm].
  destruct (String.eqb v "success"); cbn; rewrite ?Hav; cbn; repeat split; reflexivity.
Qed.

Lemma registerPWALaunch_records_witness :
  let loc := {| hasServiceWorker := true; search := "?PWA_launch=success";
                href := "https://kiwix.example/www/index.html?PWA_launch=success" |} in
  let st := {| browser := empty_browser; params := local_storage_params;
               kiwixComm := None |} in
  localStorageItems (browser (fst (registerPWALaunch loc st)))
  = <["kiwixjs-defaultModeChangeAlertDisplayed" := "true"]>
      (<["kiwixjs-PWA_launch" := "success"]> ∅).
Proof.
  intros loc st.
  pose proof (registerPWALaunch_records loc "?" "success" "" st
                eq_refl eq_refl eq_refl eq_refl (or_introl eq_refl) eq_refl) as H.
  destruct (registerPWALaunch loc st) as [st' r].
  destruct H as (_ & _ & _ & H). exact H.
Defined.



(** ** The click listener of the return link *)

Lemma token_remove_notin (t : string) (l : list string) :
  ~ In t l -> token_remove t l = l.
Proof.
  unfold token_remove. induction l as [|x l IH]; intros H; [reflexivity|].
  cbn [List.filter]. destruct (String.eqb_spec t x) as [->|Hne].
  - exfalso. apply H. now left.
  - cbn [negb]. f_equal. apply IH. intros Hin. apply H. now right.
Qed.

Ltac not_in_removed :=
  rewrite ?token_remove_spec; intuition congruence.

Lemma removeAnimationClasses_frame (s : Sections) :
  styleDisplay (removeAnimationClasses s) = styleDisplay s
  /\ timeouts (removeAnimationClasses s) = timeouts s.
Proof. split; reflexivity. Qed.

Lemma applyAnimationToSection_home_frame (hidden : section_el -> bool) (s : Sections) :
  styleDisplay (applyAnimationToSection "home" hidden s) = styleDisplay s
  /\ timeouts (applyAnimationToSection "home" hidden s)
     = timeouts s
         ++ (if hidden configuration then [] else [(configuration, "none")])
         ++ (if hidden about then [] else [(about, "none")])
         ++ [(articleContent, "")].
Proof.
  unfold applyAnimationToSection. cbn [String.eqb Ascii.eqb Bool.eqb].
  destruct (hidden configuration), (hidden about); cbn [negb];
    (split; [reflexivity|]); cbn [timeouts setTimeout classList_add];
    rewrite <- ?app_assoc; reflexivity.
Qed.

Lemma run_timeouts_display (s : Sections) (el : section_el) :
  styleDisplay (run_timeouts s) el
  = fold_left (fun d t => if section_el_eqb el (fst t) then snd t else d)
      (timeouts s) (styleDisplay s el).
Proof.
  assert (H : forall ts x,
             styleDisplay (fold_left (fun s t => set_styleDisplay (fst t) (snd t) s) ts x) el
             = fold_left (fun d t => if section_el_eqb el (fst t) then snd t else d)
                 ts (styleDisplay x el)).
  { induction ts as [|t ts IH]; intros x; [reflexivity|].
    cbn [fold_left]. now rewrite IH. }
  unfold run_timeouts. now rewrite H.
Qed.

(** X12. The listeners of the return link may be several (applyAppTheme attaches
    one at every call), and a click runs them all; a second run changes
    nothing: the classes of the sections, and their [display] once the
    timeouts have run, are those that the first run has set.  Both runs belong
    to the same click, so jQuery reports the same visibility to both. *)
Theorem viewArticle_click_idempotent
    (showUIAnimations : bool) (hidden : section_el -> bool) (s : Sections)
    (el : section_el) :
  let once := viewArticle_click showUIAnimations hidden s in
  let twice := viewArticle_click showUIAnimations hidden once in
  classList twice el = classList once el
  /\ styleDisplay (run_timeouts twice) el = styleDisplay (run_timeouts once) el.
Proof.
  cbv zeta. unfold viewArticle_click. split.
  - destruct showUIAnimations.
    + unfold applyAnimationToSection. cbn [String.eqb Ascii.eqb Bool.eqb].
      destruct (hidden configuration), (hidden about); destruct el;
        sections_unfold;
        repeat first [ rewrite token_remove_add_eq
                     | rewrite token_remove_add_ne by reflexivity ];
        try reflexivity;
        repeat (rewrite token_remove_notin; [|not_in_removed]);
        reflexivity.
    + destruct el; sections_unfold; cbn [set_styleDisplay classList];
        repeat (rewrite token_remove_notin; [|not_in_removed]); reflexivity.
  - rewrite !run_timeouts_display. destruct showUIAnimations.
    + destruct (applyAnimationToSection_home_frame hidden
                  (removeAnimationClasses
                     (applyAnimationToSection "home" hidden (removeAnimationClasses s))))
        as [D2 T2].
      destruct (applyAnimationToSection_home_frame hidden (removeAnimationClasses s))
        as [D1 T1].
      destruct (removeAnimationClasses_frame
                  (applyAnimationToSection "home" hidden (removeAnimationClasses s)))
        as [D3 T3].
      destruct (removeAnimationClasses_frame s) as [D0 T0].
      rewrite D2, T2, D3, T3, D1, T1, D0, T0.
      rewrite !fold_left_app.
      destruct (hidden configuration), (hidden about), el; reflexivity.
    + destruct el; reflexivity.
Qed.

(** ** The iframe that reports the launch of the PWA *)



